(** * appaloosa/analysis.py: a shallow embedding of the analysis routines

    The routines work on numpy float arrays.  Finite floats are modelled by
    exact numbers (rationals [Q] for table cells and time stamps, reals [R]
    where the code takes square roots, powers or logarithms); rounding is not
    modelled.  The non-finite values numpy produces instead of raising
    (division by zero, [0 * inf]) are kept: see [npfloat]. *)

From Stdlib Require Import QArith Qabs Reals Lra Lia Lqa.
From stdpp Require Import gmap strings list.

(** ** numpy scalars *)

(** A numpy float over a carrier [A] of finite values: a finite value, one of
    the two infinities, or NaN.  Signed zeros are not modelled: a zero
    divisor counts as [+0.0]. *)
Inductive npfloat (A : Type) : Type :=
| Fin (a : A)
| PInf
| NInf
| NaN.
Arguments Fin {A} a.
Arguments PInf {A}.
Arguments NInf {A}.
Arguments NaN {A}.

(** The arithmetic the finite values come with. [sc_sgn a] compares [a]
    with zero. *)
Class Scalar (A : Type) : Type := {
  sc_zero : A;
  sc_add : A -> A -> A;
  sc_opp : A -> A;
  sc_mul : A -> A -> A;
  sc_div : A -> A -> A;
  sc_abs : A -> A;
  sc_sgn : A -> comparison;
  sc_leb : A -> A -> bool
}.

Definition Rsgn (r : R) : comparison :=
  match total_order_T 0%R r with
  | inleft (left _) => Gt
  | inleft (right _) => Eq
  | inright _ => Lt
  end.

Definition Rleb (a b : R) : bool := if Rle_dec a b then true else false.

#[export] Instance R_scalar : Scalar R := {|
  sc_zero := 0%R; sc_add := Rplus; sc_opp := Ropp; sc_mul := Rmult; sc_div := Rdiv;
  sc_abs := Rabs; sc_sgn := Rsgn; sc_leb := Rleb
|}.

#[export] Instance Q_scalar : Scalar Q := {|
  sc_zero := 0%Q; sc_add := Qplus; sc_opp := Qopp; sc_mul := Qmult; sc_div := Qdiv;
  sc_abs := Qabs; sc_sgn := fun q => (q ?= 0)%Q; sc_leb := Qle_bool
|}.

Section NumpyArith.
Context {A : Type} `{Scalar A}.

Definition np_opp (x : npfloat A) : npfloat A :=
  match x with
  | Fin a => Fin (sc_opp a)
  | PInf => NInf
  | NInf => PInf
  | NaN => NaN
  end.

Definition np_add (x y : npfloat A) : npfloat A :=
  match x, y with
  | NaN, _ | _, NaN => NaN
  | Fin a, Fin b => Fin (sc_add a b)
  | PInf, NInf | NInf, PInf => NaN
  | PInf, _ | _, PInf => PInf
  | NInf, _ | _, NInf => NInf
  end.

Definition np_sub (x y : npfloat A) : npfloat A := np_add x (np_opp y).

(** the infinity with the sign of [c]; NaN when [c] is [Eq] *)
Definition signed_inf (c : comparison) : npfloat A :=
  match c with Gt => PInf | Lt => NInf | Eq => NaN end.

Definition np_mul (x y : npfloat A) : npfloat A :=
  match x, y with
  | NaN, _ | _, NaN => NaN
  | Fin a, Fin b => Fin (sc_mul a b)
  | PInf, Fin b => signed_inf (sc_sgn b)
  | NInf, Fin b => signed_inf (CompOpp (sc_sgn b))
  | Fin a, PInf => signed_inf (sc_sgn a)
  | Fin a, NInf => signed_inf (CompOpp (sc_sgn a))
  | PInf, PInf | NInf, NInf => PInf
  | PInf, NInf | NInf, PInf => NInf
  end.

(** numpy division: a finite value over zero is an infinity or NaN, with a
    warning and no exception *)
Definition np_div (x y : npfloat A) : npfloat A :=
  match x, y with
  | NaN, _ | _, NaN => NaN
  | Fin a, Fin b =>
      match sc_sgn b with
      | Eq => signed_inf (sc_sgn a)
      | _ => Fin (sc_div a b)
      end
  | Fin _, (PInf | NInf) => Fin sc_zero
  | (PInf | NInf), (PInf | NInf) => NaN
  | PInf, Fin b => match sc_sgn b with Lt => NInf | _ => PInf end
  | NInf, Fin b => match sc_sgn b with Lt => PInf | _ => NInf end
  end.

Definition np_abs (x : npfloat A) : npfloat A :=
  match x with
  | Fin a => Fin (sc_abs a)
  | PInf | NInf => PInf
  | NaN => NaN
  end.

(** [x ** 3.] *)
Definition np_pow3 (x : npfloat A) : npfloat A := np_mul (np_mul x x) x.

(** [x <= y]; every comparison with NaN is false *)
Definition np_leb (x y : npfloat A) : bool :=
  match x, y with
  | NaN, _ | _, NaN => false
  | Fin a, Fin b => sc_leb a b
  | NInf, _ | _, PInf => true
  | PInf, _ | _, NInf => false
  end.

Definition np_isfinite (x : npfloat A) : bool :=
  match x with Fin _ => true | _ => false end.
End NumpyArith.

(** [np.sqrt]: NaN below zero *)
Definition np_sqrt (x : npfloat R) : npfloat R :=
  match x with
  | Fin a => match Rsgn a with Lt => NaN | _ => Fin (sqrt a) end
  | PInf => PInf
  | NInf | NaN => NaN
  end.

(** ** The scalar helpers *)

(** What [_Perror] returns: the pair when [full], one value otherwise. *)
Inductive perror_result : Type :=
| Both (err_dn err_up : npfloat R)
| One (err : npfloat R).

Definition Perror_err_dn (n : npfloat R) : npfloat R :=
  np_abs
    (np_sub
       (np_mul n
          (np_pow3
             (np_sub
                (np_sub (Fin 1%R) (np_div (Fin 1%R) (np_mul (Fin 9%R) n)))
                (np_div (Fin 1%R) (np_mul (Fin 3%R) (np_sqrt n))))))
       n).

Definition Perror_err_up (n : npfloat R) : npfloat R :=
  np_sub
    (np_add (np_add n (np_sqrt (np_add n (Fin 0.75%R)))) (Fin 1%R))
    n.

Definition _Perror (n : npfloat R) (full down : bool) : perror_result :=
  let err_dn := Perror_err_dn n in
  let err_up := Perror_err_up n in
  if full then Both err_dn err_up
  else if down then One err_dn
  else One err_up.

Definition log10 (x : R) : R := (ln x / ln 10)%R.

Definition _DistModulus (m_app M_abs : R) : R :=
  let mu := (m_app - M_abs)%R in
  let dist := Rpower 10 (mu / 5 + 1) in
  dist.

Definition _linfunc (x m b : R) : R := (m * x + b)%R.

Definition _plaw (x m b : R) : R :=
  let x2 := Rpower 10 x in
  (b * Rpower x2 m)%R.

(** ** Exceptions *)

Inductive exn : Type :=
  IOError | IndexError | ValueError | ZeroDivisionError | TypeError.

#[export] Instance exn_eq_dec : EqDecision exn.
Proof. solve_decision. Defined.

(** A computation that returns a value or raises. *)
Inductive result (A : Type) : Type :=
| Ok (a : A)
| Raise (e : exn).
Arguments Ok {A} a.
Arguments Raise {A} e.

Definition bind {A B : Type} (c : result A) (k : A -> result B) : result B :=
  match c with
  | Ok a => k a
  | Raise e => Raise e
  end.

Notation "x <- c ;; k" := (bind c (fun x => k))
  (at level 100, c at next level, right associativity).

(** [try: c  except e: h] *)
Definition try_except {A : Type} (c : result A) (e : exn) (h : result A)
  : result A :=
  match c with
  | Ok a => Ok a
  | Raise e' => if decide (e' = e) then h else Raise e'
  end.

(** [for i in range(start, start + n): s = body(i, s)] *)
Fixpoint for_range {St : Type} (body : nat -> St -> result St)
    (start n : nat) (s : St) : result St :=
  match n with
  | O => Ok s
  | S n' => s' <- body start s ;; for_range body (S start) n' s'
  end.

(** Division of two Python floats. *)
Definition py_div (a b : Q) : result Q :=
  if Qeq_bool b 0 then Raise ZeroDivisionError else Ok (a / b)%Q.

(** [float(n)] of a length or a count *)
Definition float_of_nat (n : nat) : Q := inject_Z (Z.of_nat n).

(** ** Arrays and tables *)

(** [np.where(mask)[0]]: the positions that hold [true] *)
Definition np_where (mask : list bool) : list nat :=
  omap (fun '(i, b) => if b : bool then Some i else None)
       (zip (seq 0 (length mask)) mask).

Definition np_zeros_like {B : Type} (a : list B) : list Q :=
  replicate (length a) 0%Q.

Definition np_sum (a : list Q) : Q := foldl Qplus 0%Q a.

(** [np.sum(mask)] of a boolean array *)
Definition count_true (mask : list bool) : nat :=
  length (filter (fun b => b = true) mask).

Definition enumerate {B : Type} (l : list B) : list (nat * B) :=
  zip (seq 0 (length l)) l.

(** A row of an appaloosa [.flare] file; the fields are the columns 0..14,
    in the order the file documents them. *)
Record ap_flare : Type := mk_ap {
  t_start : Q; t_stop : Q; t_peak : Q; amplitude : Q; FWHM : Q;
  duration : Q; t_peak_aflare1 : Q; t_FWHM_aflare1 : Q;
  amplitude_aflare1 : Q; flare_chisq : Q; KS_d_model : Q; KS_p_model : Q;
  KS_d_cont : Q; KS_p_cont : Q; Equiv_Dur : Q
}.

(** A row of the FBEYE flare table, columns 0..14. *)
Record fb_flare : Type := mk_fb {
  fb_i_start : Q; fb_i_stop : Q; fb_t_start : Q; fb_t_stop : Q;
  fb_t_peak : Q; fb_t_rise : Q; fb_t_decay : Q; fb_flux_peak : Q;
  fb_ED : Q; fb_ED_rise : Q; fb_ED_decay : Q; fb_complex : Q;
  fb_n_found : Q; fb_n_analyzed : Q; fb_n_components : Q
}.

Definition ap_cells (r : ap_flare) : list Q :=
  [t_start r; t_stop r; t_peak r; amplitude r; FWHM r; duration r;
   t_peak_aflare1 r; t_FWHM_aflare1 r; amplitude_aflare1 r; flare_chisq r;
   KS_d_model r; KS_p_model r; KS_d_cont r; KS_p_cont r; Equiv_Dur r].

Definition fb_cells (r : fb_flare) : list Q :=
  [fb_i_start r; fb_i_stop r; fb_t_start r; fb_t_stop r; fb_t_peak r;
   fb_t_rise r; fb_t_decay r; fb_flux_peak r; fb_ED r; fb_ED_rise r;
   fb_ED_decay r; fb_complex r; fb_n_found r; fb_n_analyzed r;
   fb_n_components r].

(** A two-dimensional array as [np.loadtxt] returns it: a list of rows. *)
Definition matrix : Type := list (list Q).

(** [M[i,:]] *)
Definition mrow (M : matrix) (i : nat) : result (list Q) :=
  match M !! i with
  | Some r => Ok r
  | None => Raise IndexError
  end.

(** [M[i,j]] *)
Definition mcell (M : matrix) (i j : nat) : result Q :=
  r <- mrow M i ;;
  match r !! j with
  | Some q => Ok q
  | None => Raise IndexError
  end.

(** ** The overlap test shared by [fbeye_compare] and [benchmark] *)

(** The three clauses, for an appaloosa pair [(a0, a1)] and an FBEYE pair
    [(f2, f3)]:
    [((a0 <= f2) & (a1 >= f3)) | ((a0 >= f2) & (a0 <= f3)) |
     ((a1 >= f2) & (a1 <= f3))] *)
Definition overlap3 (a0 a1 f2 f3 : Q) : bool :=
  (Qle_bool a0 f2 && Qle_bool f3 a1)
  || (Qle_bool f2 a0 && Qle_bool a0 f3)
  || (Qle_bool f2 a1 && Qle_bool a1 f3).

(** ** fbeye_compare *)

(** One pass of the loop body: [x_ap] for loop index [i]. *)
Definition fbeye_x_ap (apdata fbdata : matrix) (i : nat) : result (list nat) :=
  a0 <- mrow apdata 0 ;;
  f2 <- mcell fbdata 2 i ;;
  a1 <- mrow apdata 1 ;;
  f3 <- mcell fbdata 3 i ;;
  Ok (np_where (zip_with (fun x0 x1 => overlap3 x0 x1 f2 f3) a0 a1)).

(** The values [x_ap] takes, one per pass of the loop. *)
Definition fbeye_compare_x_ap (apdata fbdata : matrix)
  : result (list (list nat)) :=
  r0 <- mrow fbdata 0 ;;
  for_range
    (fun i found => x_ap <- fbeye_x_ap apdata fbdata i ;; Ok (found ++ [x_ap]))
    0 (length r0) [].

(** The function computes [x_ap] in every pass and returns [None]. *)
Definition fbeye_compare (apdata fbdata : list (list Q)) : result unit :=
  _ <- fbeye_compare_x_ap apdata fbdata ;; Ok tt.

(** ** benchmark *)

(** [(time >= lo) & (time <= hi)] *)
Definition in_interval (lo hi t : Q) : bool := Qle_bool lo t && Qle_bool t hi.

(** [x = np.where((time >= lo) & (time <= hi)); flags[x] = 1] *)
Definition mark (time : list Q) (lo hi : Q) (flags : list Q) : list Q :=
  zip_with (fun t f => if in_interval lo hi t then 1%Q else f) time flags.

Definition aptime_of (time : list Q) (apdata : list ap_flare) : list Q :=
  foldl (fun flags r => mark time (t_start r) (t_stop r) flags)
        (np_zeros_like time) apdata.

Definition fbtime_of (time : list Q) (fbdata : list fb_flare) : list Q :=
  foldl (fun flags r => mark time (fb_i_start r) (fb_i_stop r) flags)
        (np_zeros_like time) fbdata.

(** [x_any] for one FBEYE flare *)
Definition x_any (apdata : list ap_flare) (fb : fb_flare) : list nat :=
  np_where
    (map (fun ap => overlap3 (t_start ap) (t_stop ap)
                             (fb_t_start fb) (fb_t_stop fb)) apdata).

(** The loop that fills [n4_i]. *)
Definition n4_i_of (apdata : list ap_flare) (fbdata : list fb_flare)
  : list Q :=
  foldl (fun n4_i '(i, fb) =>
           if bool_decide (0 < length (x_any apdata fb))%nat
           then <[i := 1%Q]> n4_i else n4_i)
        (np_zeros_like fbdata) (enumerate fbdata).

Record benchmark_stats : Type := mk_stats {
  n_ap : nat; n_fb : nat; n1 : Q; n2 : Q; n3 : Q; n4 : Q
}.

(** The loops and the divisions of [benchmark], for two-dimensional tables
    [apdata] and [fbdata] and a one-dimensional time column. *)
Definition benchmark_arrays (apdata : list ap_flare) (fbdata : list fb_flare)
    (time : list Q) : result benchmark_stats :=
  let aptime := aptime_of time apdata in
  let fbtime := fbtime_of time fbdata in
  n1 <- py_div (float_of_nat (length apdata)) (float_of_nat (length fbdata)) ;;
  n2 <- py_div (np_sum aptime) (np_sum fbtime) ;;
  n3 <- py_div
          (float_of_nat
             (count_true (zip_with (fun f a => Qeq_bool f 1 && Qeq_bool a 1)
                                   fbtime aptime)))
          (float_of_nat (count_true (map (fun f => Qeq_bool f 1) fbtime))) ;;
  let n4_i := n4_i_of apdata fbdata in
  n4 <- py_div (np_sum n4_i) (float_of_nat (length fbdata)) ;;
  Ok (mk_stats (length apdata) (length fbdata) n1 n2 n3 n4).

(** [benchmark] once the three files are read.  [np.loadtxt] returns a
    two-dimensional table only for two rows or more, and a one-dimensional
    column only for a light curve that is not a single sample: on a
    one-dimensional table [apdata[:,0]] and [fbdata[:,0]] raise
    [IndexError], and so does [aptime[x] = 1] on the zero-dimensional array
    of a single sample.  The first loop reads [apdata[:,0]], marks
    [aptime], and the second loop then reads [fbdata[:,0]]. *)
Definition benchmark (apdata : list ap_flare) (fbdata : list fb_flare)
    (time : list Q) : result benchmark_stats :=
  if decide (length apdata < 2)%nat then Raise IndexError
  else if decide (length time = 1)%nat then Raise IndexError
  else if decide (length fbdata < 2)%nat then Raise IndexError
  else benchmark_arrays apdata fbdata time.

(** ** k2_mtg_plots, the branch [rerun is True] *)

(** What the loop prints: a text line, or [print(i, len(kid))]. *)
Inductive output : Type :=
| PrintStr (s : string)
| PrintProgress (i n : nat).

(** What the loop reads: the [aprun/.../*.flare] files on disk (a path that
    is not a key is a missing file), and the columns ingested from the KIC
    and the rotation period files. *)
Record k2_inputs : Type := mk_k2_inputs {
  k2_fs : gmap string (list ap_flare);
  kic_g : list Q; kic_r : list Q; kic_i : list Q; kicnum : list string;
  pnum : list string; prot : list Q
}.

(** The arrays the loop updates, what it has printed and the rows last
    written to [outfile]. *)
Record k2_state : Type := mk_k2_state {
  n_flares1 : list Q; n_flares2 : list Q; n_flares3 : list Q;
  n_flares4 : list Q;
  gi_color : list Q; ri_color : list Q; periods : list Q;
  stdout : list output;
  outfile : option (list (list Q))
}.

(** [np.loadtxt(path, ...)] of a flare file: [IOError] when it is missing *)
Definition loadtxt (fs : gmap string (list ap_flare)) (path : string)
  : result (list ap_flare) :=
  match fs !! path with
  | Some rows => Ok rows
  | None => Raise IOError
  end.

(** [data.ndim]: [np.loadtxt] returns a two-dimensional array only for two
    rows or more. *)
Definition ndim (data : list ap_flare) : nat :=
  if decide (2 <= length data)%nat then 2%nat else 1%nat.

Definition good1 (data : list ap_flare) : list nat :=
  np_where (map (fun r => Qle_bool 10 (flare_chisq r)
                          && Qle_bool (1 # 10) (Equiv_Dur r)) data).

Definition good2 (data : list ap_flare) : list nat :=
  np_where (map (fun r => Qle_bool 15 (flare_chisq r)
                          && Qle_bool (2 # 10) (Equiv_Dur r)) data).

Definition good3 (data : list ap_flare) : list nat :=
  np_where (map (fun r => Qle_bool (5 # 1000) (amplitude r)
                          && Qle_bool (KS_p_cont r) (5 # 100)) data).

Definition good4 (data : list ap_flare) : list nat :=
  np_where (map (fun r => Qle_bool (5 # 1000) (amplitude r)
                          && Qle_bool (KS_p_cont r) (5 # 100)
                          && Qle_bool 15 (flare_chisq r)) data).

Definition apfile_of (name : string) : string :=
  let fldr := String.substring 0 3 name in
  let outdir := "aprun/" +:+ fldr +:+ "/" in
  outdir +:+ name +:+ ".flare".

Definition k2_print (o : output) (st : k2_state) : k2_state :=
  mk_k2_state (n_flares1 st) (n_flares2 st) (n_flares3 st) (n_flares4 st)
    (gi_color st) (ri_color st) (periods st) (stdout st ++ [o]) (outfile st).

Definition k2_set_counts (i : nat) (data : list ap_flare) (st : k2_state)
  : k2_state :=
  mk_k2_state
    (<[i := float_of_nat (length (good1 data))]> (n_flares1 st))
    (<[i := float_of_nat (length (good2 data))]> (n_flares2 st))
    (<[i := float_of_nat (length (good3 data))]> (n_flares3 st))
    (<[i := float_of_nat (length (good4 data))]> (n_flares4 st))
    (gi_color st) (ri_color st) (periods st) (stdout st) (outfile st).

(** The [try] statement of the loop body. *)
Definition k2_try (inp : k2_inputs) (i : nat) (apfile : string)
    (st : k2_state) : result k2_state :=
  try_except
    (data <- loadtxt (k2_fs inp) apfile ;;
     if decide (ndim data = 2%nat) then Ok (k2_set_counts i data st)
     else Ok st)
    IOError
    (Ok (k2_print (PrintStr (apfile +:+ " was not found!")) st)).

(** [a[idx]] for an array of indices *)
Fixpoint take_at (a : list Q) (idx : list nat) : result (list Q) :=
  match idx with
  | [] => Ok []
  | i :: idx' =>
      match a !! i with
      | Some q => qs <- take_at a idx' ;; Ok (q :: qs)
      | None => Raise IndexError
      end
  end.

(** [a[i] = v] where [v] is an array: one element is stored, any other size
    raises [ValueError] *)
Definition set_item (a : list Q) (i : nat) (v : list Q) : result (list Q) :=
  match v with
  | [q] => Ok (<[i := q]> a)
  | _ => Raise ValueError
  end.

(** [a[idx]] for a column [a] that [np.genfromtxt] has read with
    [unpack=True]: a table of a single row gives scalars and not arrays, and
    indexing a scalar raises [IndexError]. *)
Definition index_column (a : list Q) (idx : list nat) : result (list Q) :=
  if decide (length a = 1)%nat then Raise IndexError else take_at a idx.

(** [np.where((ids == name))[0]] *)
Definition np_where_eq (ids : list string) (name : string) : list nat :=
  np_where (map (fun id => bool_decide (id = name)) ids).

Definition k2_colors (inp : k2_inputs) (i : nat) (name : string)
    (st : k2_state) : result k2_state :=
  let km := np_where_eq (kicnum inp) name in
  if bool_decide (0 < length km)%nat then
    g <- index_column (kic_g inp) km ;;
    i1 <- index_column (kic_i inp) km ;;
    gi <- set_item (gi_color st) i (zip_with Qminus g i1) ;;
    r <- index_column (kic_r inp) km ;;
    i2 <- index_column (kic_i inp) km ;;
    ri <- set_item (ri_color st) i (zip_with Qminus r i2) ;;
    Ok (mk_k2_state (n_flares1 st) (n_flares2 st) (n_flares3 st)
          (n_flares4 st) gi ri (periods st) (stdout st) (outfile st))
  else Ok st.

Definition k2_periods (inp : k2_inputs) (i : nat) (name : string)
    (st : k2_state) : result k2_state :=
  let pm := np_where_eq (pnum inp) name in
  if bool_decide (0 < length pm)%nat then
    p <- index_column (prot inp) pm ;;
    per <- set_item (periods st) i p ;;
    Ok (mk_k2_state (n_flares1 st) (n_flares2 st) (n_flares3 st)
          (n_flares4 st) (gi_color st) (ri_color st) per (stdout st)
          (outfile st))
  else Ok st.

(** [outdata.T]: one row per star *)
Definition outdata_T (st : k2_state) : list (list Q) :=
  map (fun j => [default 0%Q (n_flares1 st !! j);
                 default 0%Q (n_flares2 st !! j);
                 default 0%Q (n_flares3 st !! j);
                 default 0%Q (n_flares4 st !! j);
                 default 0%Q (gi_color st !! j);
                 default 0%Q (ri_color st !! j);
                 default 0%Q (periods st !! j)])
      (seq 0 (length (n_flares1 st))).

(** [np.savetxt(outfile, outdata.T, delimiter=',')] *)
Definition k2_save (st : k2_state) : k2_state :=
  mk_k2_state (n_flares1 st) (n_flares2 st) (n_flares3 st) (n_flares4 st)
    (gi_color st) (ri_color st) (periods st) (stdout st)
    (Some (outdata_T st)).

(** The body of the loop over the stars, for [kid[i] = name]. *)
Definition k2_body (inp : k2_inputs) (nkid : nat) (i : nat) (name : string)
    (st : k2_state) : result k2_state :=
  let apfile := apfile_of name in
  st1 <- k2_try inp i apfile st ;;
  st2 <- k2_colors inp i name st1 ;;
  st3 <- k2_periods inp i name st2 ;;
  if decide (i mod 1000 = 0)%nat
  then Ok (k2_print (PrintProgress i nkid) (k2_save st3))
  else Ok st3.

Definition k2_init (kid : list string) : k2_state :=
  let n := length kid in
  mk_k2_state (replicate n 0%Q) (replicate n 0%Q) (replicate n 0%Q)
    (replicate n 0%Q)
    (replicate n (-99)%Q) (replicate n (-99)%Q) (replicate n (-99)%Q)
    [PrintStr "KIC data ingested"; PrintStr "Period data ingested";
     PrintStr "Starting loop through aprun files"]
    None.

(** [for i in range(0, len(kid))] from any starting index and state *)
Definition k2_loop_from (inp : k2_inputs) (kid : list string)
    (start n : nat) (st : k2_state) : result k2_state :=
  for_range
    (fun i st =>
       match kid !! i with
       | Some name => k2_body inp (length kid) i name st
       | None => Raise IndexError
       end)
    start n st.

(** The whole branch: the ingestion of the two tables, the loop over every
    star, then the final save.  An empty KIC table cannot be unpacked into
    [kic_g, kic_r, kic_i] ([ValueError]), and a list of a single star is read
    as a zero-dimensional array, of which [len(kid)] raises [TypeError]. *)
Definition k2_mtg_rerun (inp : k2_inputs) (kid : list string)
  : result k2_state :=
  if decide (length (kic_g inp) = 0)%nat then Raise ValueError
  else if decide (length kid = 1)%nat then Raise TypeError
  else
    st <- k2_loop_from inp kid 0 (length kid) (k2_init kid) ;;
    Ok (k2_save st).

(** ** paper1_plots, the branch [rerun is True] *)

(** A row of the aggregated Condor output [fdata]: KIC number, cadence flag,
    duration in days, log(ED68), number of flares, summed ED, and from
    column 6 on the flare rate of every energy bin. *)
Record condor_row : Type := mk_condor {
  c_kic : Z; c_lsflag : Q; c_dur : Q; c_loged68 : Q; c_nflares : Q;
  c_sumED : Q; c_ffd : list Q
}.

(** The columns of the KIC file the loop reads; a missing magnitude is NaN. *)
Record kic_row : Type := mk_kic {
  kic_kepler_id : Z;
  kic_gmag : npfloat Q; kic_rmag : npfloat Q; kic_imag : npfloat Q
}.

(** [Series.unique()]: the distinct values in order of first appearance *)
Fixpoint unique_from (seen l : list Z) : list Z :=
  match l with
  | [] => []
  | x :: l' =>
      if decide (x ∈ seen) then unique_from seen l'
      else x :: unique_from (x :: seen) l'
  end.

Definition kicnum_c_of (fdata : list condor_row) : list Z :=
  unique_from [] (map c_kic fdata).

(** [kicdata[kicdata['kic_kepler_id'].isin(kicnum_c)]] *)
Definition bigdata_of (kicdata : list kic_row) (kicnum_c : list Z)
  : list kic_row :=
  filter (fun r => kic_kepler_id r ∈ kicnum_c) kicdata.

(** The rows [fdata.loc[star, :]] of one star. *)
Definition star_rows (fdata : list condor_row) (id : Z) : list condor_row :=
  filter (fun r => c_kic r = id) fdata.

(** [edbins[1:]]: [np.arange(-5, 5, 0.2)] followed by 10 *)
Definition edbins1 : list Q :=
  map (fun i => (-5 + inject_Z (Z.of_nat i) * (2 # 10))%Q) (seq 0 50)
  ++ [10%Q].

(** One pass of the loop over the portions of a star: [fsum] and [fnorm]
    grow on the bins at or above the portion's 68% cutoff. *)
Definition ffd_add_row (acc : list Q * list Q) (r : condor_row)
  : list Q * list Q :=
  let mask := map (fun e => Qle_bool (c_loged68 r) e) edbins1 in
  let ok := np_where mask in
  if bool_decide (0 < length ok)%nat then
    (imap (fun j s => if default false (mask !! j)
                      then (s + default 0 (c_ffd r !! j))%Q else s) (fst acc),
     imap (fun j c => if default false (mask !! j)
                      then (c + 1)%Q else c) (snd acc))
  else acc.

(** [(fsum, fnorm)] after the loop over [star] *)
Definition ffd_sums (star : list condor_row) : list Q * list Q :=
  foldl ffd_add_row (np_zeros_like edbins1, np_zeros_like edbins1) star.

Fixpoint cumsum_from (acc : npfloat Q) (l : list (npfloat Q))
  : list (npfloat Q) :=
  match l with
  | [] => []
  | x :: l' => np_add acc x :: cumsum_from (np_add acc x) l'
  end.

Definition np_cumsum (l : list (npfloat Q)) : list (npfloat Q) :=
  match l with
  | [] => []
  | x :: l' => x :: cumsum_from x l'
  end.

(** [fsum[::-1] / fnorm[::-1]] *)
Definition ffd_rates (fsum fnorm : list Q) : list (npfloat Q) :=
  zip_with (fun s c => np_div (Fin s) (Fin c)) (reverse fsum) (reverse fnorm).

(** [ffd_y = np.cumsum(fsum[::-1] / fnorm[::-1])] *)
Definition ffd_y_of (fsum fnorm : list Q) : list (npfloat Q) :=
  np_cumsum (ffd_rates fsum fnorm).

(** The per-star arrays the big loop fills. *)
Record p1_state : Type := mk_p1_state {
  Nflare : list Q; dur_all : list Q; ED_all : list Q;
  gr_all : list (npfloat Q); gi_all : list (npfloat Q)
}.

Definition p1_init (n : nat) : p1_state :=
  mk_p1_state (replicate n 0%Q) (replicate n (-99)%Q) (replicate n (-99)%Q)
    (replicate n (Fin (-99)%Q)) (replicate n (Fin (-99)%Q)).

(** The body of the loop over the stars, for [kicnum_c[k] = id]. *)
Definition p1_star (fdata : list condor_row) (bigdata : list kic_row)
    (st : p1_state) (kid : nat * Z) : p1_state :=
  let '(k, id) := kid in
  let star := star_rows fdata id in
  let nfl := <[k := np_sum (map c_nflares star)]> (Nflare st) in
  let dur := <[k := np_sum (map c_dur star)]> (dur_all st) in
  let ed := <[k := np_sum (map c_sumED star)]> (ED_all st) in
  match filter (fun r => kic_kepler_id r = id) bigdata with
  | m :: _ =>
      mk_p1_state nfl dur ed
        (<[k := np_sub (kic_gmag m) (kic_rmag m)]> (gr_all st))
        (<[k := np_sub (kic_gmag m) (kic_imag m)]> (gi_all st))
  | [] => mk_p1_state nfl dur ed (gr_all st) (gi_all st)
  end.

Definition p1_loop (fdata : list condor_row) (kicdata : list kic_row)
  : p1_state :=
  let kicnum_c := kicnum_c_of fdata in
  foldl (p1_star fdata (bigdata_of kicdata kicnum_c))
        (p1_init (length kicnum_c)) (enumerate kicnum_c).




(** The energy at which every star's fit is evaluated. *)
Definition Epoint : R := 35%R.

(** [fit_E[k] = 10.0**_linfunc(Epoint, *fit)] for the coefficients
    [fit = (m, b)] that [curve_fit] returns *)
Definition fit_E_of (fit : R * R) : R :=
  Rpower 10 (_linfunc Epoint (fst fit) (snd fit)).


(** ** Reference formulas

    The quantities the routines are meant to compute, written down
    independently of the code. *)

(** Gehrels (1986), the lower Poisson bound of a count [n], as a real
    number: [|n (1 - 1/(9n) - 1/(3 sqrt n))^3 - n|] *)
Definition gehrels_dn (n : R) : R :=
  Rabs (n * (1 - 1 / (9 * n) - 1 / (3 * sqrt n)) ^ 3 - n)%R.

(** and the upper bound: [sqrt(n + 0.75) + 1] *)
Definition gehrels_up (n : R) : R := (sqrt (n + 0.75) + 1)%R.

(** Two closed intervals meet when they share a point. *)
Definition intervals_meet (a0 a1 f2 f3 : Q) : Prop :=
  exists t : Q, (a0 <= t)%Q /\ (t <= a1)%Q /\ (f2 <= t)%Q /\ (t <= f3)%Q.

(** The two-inequality form of the same test. *)
Definition intersectsb (ap : ap_flare) (fb : fb_flare) : bool :=
  Qle_bool (t_start ap) (fb_t_stop fb) && Qle_bool (fb_t_start fb) (t_stop ap).

(** The FBEYE flares that some appaloosa flare overlaps. *)
Definition recovered (apdata : list ap_flare) (fbdata : list fb_flare)
  : list fb_flare :=
  filter (fun fb => existsb (fun ap => intersectsb ap fb) apdata = true) fbdata.

(** The time samples that fall inside the interval some FBEYE row gives. *)
Definition fb_covered (time : list Q) (fbdata : list fb_flare) : list Q :=
  filter (fun t => existsb (fun fb => in_interval (fb_i_start fb)
                                         (fb_i_stop fb) t) fbdata = true)
         time.

(** Whether [x_any] comes out non-empty for an FBEYE flare. *)
Definition any_overlap (apdata : list ap_flare) (fb : fb_flare) : bool :=
  existsb (fun ap => overlap3 (t_start ap) (t_stop ap)
                              (fb_t_start fb) (fb_t_stop fb)) apdata.

(** ** Sample data

    A light curve sampled once a day for twelve days, two appaloosa flares
    and four FBEYE flares.  The first two FBEYE columns are sample indices,
    the next two the start and stop times. *)

Definition ex_ap (start stop : Q) : ap_flare :=
  mk_ap start stop start (1 # 100) (1 # 10) (stop - start) start (1 # 10)
        (1 # 100) 20 (1 # 2) (1 # 100) (1 # 2) (1 # 100) 1.

Definition ex_fb (i0 i1 start stop : Q) : fb_flare :=
  mk_fb i0 i1 start stop start 0 (stop - start) (1 # 100) 1 0 1 1 1 1 1.

Definition ex_apdata : list ap_flare := [ex_ap 2 3; ex_ap 40 41].

Definition ex_fbdata : list fb_flare :=
  [ex_fb 1 2 (5 # 2) 4; ex_fb 5 6 6 7; ex_fb 8 9 9 10; ex_fb 10 11 11 12].

Definition ex_time : list Q := map (fun i => inject_Z (Z.of_nat i)) (seq 0 12).

(** The flares of [apdata] an FBEYE flare overlaps, by position; and the
    answer [fbeye_compare] is after: one such array per FBEYE flare. *)
Definition overlapping_flares (apdata : list ap_flare) (fb : fb_flare)
  : list nat :=
  np_where (map (fun ap => intersectsb ap fb) apdata).

Definition fbeye_expected (apdata : list ap_flare) (fbdata : list fb_flare)
  : list (list nat) :=
  map (overlapping_flares apdata) fbdata.

(** The count a star ends the loop with, from the count [old] it starts
    with: replaced when its flare file holds a two-dimensional table. *)
Definition settled (good : list ap_flare -> list nat)
    (fs : gmap string (list ap_flare)) (name : string) (old : Q) : Q :=
  match fs !! apfile_of name with
  | Some data =>
      if decide (ndim data = 2%nat) then float_of_nat (length (good data))
      else old
  | None => old
  end.

(** The columns of the KIC and of the period table have the length of their
    id column. *)
Definition k2_columns_ok (inp : k2_inputs) : Prop :=
  length (kic_g inp) = length (kicnum inp)
  /\ length (kic_r inp) = length (kicnum inp)
  /\ length (kic_i inp) = length (kicnum inp)
  /\ length (prot inp) = length (pnum inp).

(** The files give arrays: a KIC table and a period table of two rows or
    more, a list of stars that is not a single star. *)
Definition k2_shapes_ok (inp : k2_inputs) (kid : list string) : Prop :=
  (2 <= length (kicnum inp))%nat
  /\ (2 <= length (pnum inp))%nat
  /\ length kid <> 1%nat.

(** Arrays, columns of the lengths of their id columns, and no star of
    [kid] listed twice in either table. *)
Definition k2_tables_ok (inp : k2_inputs) (kid : list string) : Prop :=
  k2_shapes_ok inp kid
  /\ k2_columns_ok inp
  /\ forall name, name ∈ kid ->
       (length (np_where_eq (kicnum inp) name) <= 1)%nat
       /\ (length (np_where_eq (pnum inp) name) <= 1)%nat.

(** The same tables with other flare files on disk. *)
Definition with_files (inp : k2_inputs) (fs : gmap string (list ap_flare))
  : k2_inputs :=
  mk_k2_inputs fs (kic_g inp) (kic_r inp) (kic_i inp) (kicnum inp)
               (pnum inp) (prot inp).

(** Two inputs with the same KIC and period tables. *)
Definition same_tables (inp inp' : k2_inputs) : Prop :=
  kicnum inp = kicnum inp' /\ kic_g inp = kic_g inp'
  /\ kic_r inp = kic_r inp' /\ kic_i inp = kic_i inp'
  /\ pnum inp = pnum inp' /\ prot inp = prot inp'.

(** Two runs end the same way: both return, or both raise the same
    exception. *)
Definition same_outcome {A B : Type} (r : result A) (r' : result B) : Prop :=
  match r, r' with
  | Ok _, Ok _ => True
  | Raise e, Raise e' => e = e'
  | _, _ => False
  end.

(** The warning printed for a star whose flare file is missing. *)
Definition not_found (name : string) : output :=
  PrintStr (apfile_of name +:+ " was not found!").

(** Two stars; only the second has a flare file on disk.  The KIC table
    and the period table have two rows each. *)
Definition ex_kid : list string := ["100200"; "200300"].

Definition ex_k2_inputs : k2_inputs :=
  mk_k2_inputs {["aprun/200/200300.flare" := ex_apdata]}
    [15; 16]%Q [14; 15]%Q [13; 14]%Q ["200300"; "300400"]
    ["100200"; "300400"] [12; 7]%Q.

(** The averaged rates of the bins 0..j of the reversed arrays are defined
    ([fnorm > 0]) and not negative. *)
Definition rates_defined_upto (fsum fnorm : list Q) (j : nat) : Prop :=
  Forall (fun sc => (0 < snd sc)%Q /\ (0 <= fst sc / snd sc)%Q)
         (take (S j) (zip (reverse fsum) (reverse fnorm))).

(** One star observed in a single portion of 90 days whose 68% cutoff is at
    log ED = 0, with the same rate in every energy bin. *)
Definition ex_star : list condor_row :=
  [mk_condor 9726699 0 90 0 30 1000 (replicate 51 (1 # 10))].





(** ** More of the scalar helpers *)

(** [c], the speed of light in A/s *)
Definition c_light : R := 2.99792458e18%R.

Definition _ABmag2flux (mag zeropt wave0 fwhm : R) : R :=
  let f_nu := Rpower 10 ((mag + zeropt) / (-2.5)) in
  let f_lambda := (f_nu * c_light / (wave0 ^ 2))%R in
  let flux := (f_lambda * fwhm)%R in
  flux.

(** the keyword defaults of [_ABmag2flux] *)
Definition zeropt_default : R := 48.60%R.
Definition wave0_default : R := 6400.0%R.
Definition fwhm_default : R := 4000.0%R.

Definition pc2cm : R := 3.08568025e18%R.

(** [energies] from the point where the two interpolations on the isochrone
    have given [Mkp_o] and [Mk_o]: the pair [(np.log10(L_kp), dist)] that
    [return_dist=True] returns; without it the first component alone is
    returned. *)
Definition energies_after_interp (kmag Mkp_o Mk_o : R) : R * R :=
  let dist := _DistModulus kmag Mk_o in
  let dm := (kmag - Mk_o)%R in
  let F_kp := _ABmag2flux (Mkp_o + dm) zeropt_default wave0_default
                          fwhm_default in
  let L_kp := (F_kp * (4.0 * PI * (dist * pc2cm) ^ 2))%R in
  (log10 L_kp, dist).

(** ** What the time statistics of [benchmark] count *)

(** The time samples inside some appaloosa flare. *)
Definition ap_covered (time : list Q) (apdata : list ap_flare) : list Q :=
  filter (fun t => existsb (fun ap => in_interval (t_start ap) (t_stop ap) t)
                           apdata = true) time.

(** The time samples inside an FBEYE interval and an appaloosa flare. *)
Definition both_covered (time : list Q) (apdata : list ap_flare)
    (fbdata : list fb_flare) : list Q :=
  filter (fun t =>
            existsb (fun fb => in_interval (fb_i_start fb) (fb_i_stop fb) t)
                    fbdata
            && existsb (fun ap => in_interval (t_start ap) (t_stop ap) t)
                       apdata = true) time.

(** ** What the loop of [k2_mtg_plots] stores for a star *)

(** The value the loop stores from a table with an id column: the entry of
    the one row that names the star, nothing when no row does. *)
Definition matched (ids : list string) (vals : list Q) (name : string)
  : option Q :=
  match np_where_eq ids name with
  | [x] => vals !! x
  | _ => None
  end.

(** The colour [a - b] from the one KIC row that names the star. *)
Definition color_of (ids : list string) (a b : list Q) (name : string)
  : option Q :=
  match np_where_eq ids name with
  | [x] =>
      match a !! x, b !! x with
      | Some p, Some q => Some (p - q)%Q
      | _, _ => None
      end
  | _ => None
  end.

(** The counts the loop stores from a flare file, when it stores any. *)
Definition counted (good : list ap_flare -> list nat)
    (fs : gmap string (list ap_flare)) (name : string) : option Q :=
  match fs !! apfile_of name with
  | Some data =>
      if decide (ndim data = 2%nat)
      then Some (float_of_nat (length (good data))) else None
  | None => None
  end.

(** What one pass of the loop prints for star [i]: the warning when its
    flare file is missing, then the progress line every thousandth star. *)
Definition k2_prints (fs : gmap string (list ap_flare)) (nkid : nat)
    (ik : nat * string) : list output :=
  (match fs !! apfile_of (snd ik) with
   | Some _ => []
   | None => [not_found (snd ik)]
   end)
  ++ (if decide (fst ik mod 1000 = 0)%nat
      then [PrintProgress (fst ik) nkid] else []).

(** A star is named by two rows or more of the KIC or of the period table. *)
Definition listed_twice (inp : k2_inputs) (name : string) : Prop :=
  (1 < length (np_where_eq (kicnum inp) name))%nat
  \/ (1 < length (np_where_eq (pnum inp) name))%nat.

(** [np.loadtxt(outfile, delimiter=',', unpack=True)] of a table of two rows
    or more, all of one length: its columns. *)
Definition loadtxt_unpack (rows : list (list Q)) : list (list Q) :=
  match rows with
  | [] => []
  | r0 :: _ => map (fun c => omap (fun row => row !! c) rows)
                   (seq 0 (length r0))
  end.

(** ** k2_mtg_plots after the loop: the colour scale *)

Definition Rltb (a b : R) : bool := if Rlt_dec a b then true else false.

(** [x < y]; false when either is NaN *)
Definition np_ltb (x y : npfloat R) : bool :=
  match x, y with
  | NaN, _ | _, NaN => false
  | Fin a, Fin b => Rltb a b
  | PInf, _ | _, NInf => false
  | NInf, _ | _, PInf => true
  end.

(** [np.log10]: minus infinity at zero, NaN below *)
Definition np_log10 (x : npfloat R) : npfloat R :=
  match x with
  | Fin a =>
      match Rsgn a with
      | Lt => NaN
      | Eq => NInf
      | Gt => Fin (log10 a)
      end
  | PInf => PInf
  | NInf | NaN => NaN
  end.

(** [clr = np.log10(n_flares4); clr[np.where((clr > hi))] = hi;
     clr[np.where((clr < 1))] = 1], with [hi] 3 for the scatter plot and 2.2
    for the binned one *)
Definition k2_clr (hi : R) (n_flares4 : list Q) : list (npfloat R) :=
  let clr := map (fun q => np_log10 (Fin (Q2R q))) n_flares4 in
  let clr := map (fun c => if np_ltb (Fin hi) c then Fin hi else c) clr in
  map (fun c => if np_ltb c (Fin 1%R) then Fin 1%R else c) clr.

(** ** paper1_plots: what [fnorm] counts *)

(** The portions of a star whose 68% cutoff is at or below the energy [e]. *)
Definition portions_above (star : list condor_row) (e : Q)
  : list condor_row :=
  filter (fun r => Qle_bool (c_loged68 r) e = true) star.

(** ** paper1_plots: the order of the stars *)

(** Row [p] is the first of the column to hold [x]. *)
Definition first_at (col : list Z) (x : Z) (p : nat) : Prop :=
  col !! p = Some x /\ forall q, (q < p)%nat -> col !! q <> Some x.

From Stdlib Require Sorted OrderedTypeEx.

(** ** compare_2_lit *)

(** One step of [np.unique(raw, return_counts=True)]: [x] enters the
    ascending list of distinct values, or the count of its entry grows. *)
Fixpoint unique_insert (x : string) (u : list (string * nat))
  : list (string * nat) :=
  match u with
  | [] => [(x, 1%nat)]
  | (y, n) :: u' =>
      match String.compare x y with
      | Eq => (y, S n) :: u'
      | Lt => (x, 1%nat) :: (y, n) :: u'
      | Gt => (y, n) :: unique_insert x u'
      end
  end.

Definition unique_table (raw : list string) : list (string * nat) :=
  foldr unique_insert [] raw.

(** [np.unique(raw, return_counts=True)] of an array of strings: the distinct
    values in ascending order, and how often each occurs. *)
Definition np_unique_counts (raw : list string) : list string * list Q :=
  (map fst (unique_table raw),
   map (fun p => float_of_nat (snd p)) (unique_table raw)).

(** The three arrays the loop fills. *)
Record c2l_state : Type := mk_c2l {
  p_flares : list Q; b_flares : list Q; s_flares : list Q
}.

(** [x = np.where((kid[i] == ids)); if len(x[0]) > 0: out[i] = num[x]] *)
Definition c2l_match (ids : list string) (num : list Q) (name : string)
    (i : nat) (out : list Q) : result (list Q) :=
  let x := np_where_eq ids name in
  if bool_decide (0 < length x)%nat then
    v <- take_at num x ;; set_item out i v
  else Ok out.

Definition c2l_body (pid : list string) (pnum : list Q)
    (bid : list string) (bnum : list Q) (sid : list string) (snum : list Q)
    (i : nat) (name : string) (st : c2l_state) : result c2l_state :=
  p <- c2l_match pid pnum name i (p_flares st) ;;
  b <- c2l_match bid bnum name i (b_flares st) ;;
  s <- c2l_match sid snum name i (s_flares st) ;;
  Ok (mk_c2l p b s).

(** [for i in range(0, len(kid))] from any starting index and state *)
Definition c2l_loop_from (kid pid : list string) (pnum : list Q)
    (bid : list string) (bnum : list Q) (sid : list string) (snum : list Q)
    (start n : nat) (st : c2l_state) : result c2l_state :=
  for_range
    (fun i st =>
       match kid !! i with
       | Some name => c2l_body pid pnum bid bnum sid snum i name st
       | None => Raise IndexError
       end)
    start n st.

(** [compare_2_lit] from the tables it has read up to the end of its loop:
    the arrays that go to the scatter plot. *)
Definition compare_2_lit_loop (kid pid : list string) (pnum : list Q)
    (bid_raw sid_raw : list string) : result c2l_state :=
  let '(bid, bnum) := np_unique_counts bid_raw in
  let '(sid, snum) := np_unique_counts sid_raw in
  let zeros := replicate (length kid) 0%Q in
  c2l_loop_from kid pid pnum bid bnum sid snum 0 (length kid)
                (mk_c2l zeros zeros zeros).

(** How often [name] is listed in a raw column. *)
Definition occurrences (name : string) (raw : list string) : nat :=
  length (filter (fun x => x = name) raw).

(** What [out[i] = num[x]] leaves in [out] when the match is one row or
    none. *)
Definition c2l_stored (ids : list string) (num : list Q) (name : string)
    (i : nat) (out : list Q) : list Q :=
  match np_where_eq ids name with
  | [k] => match num !! k with
           | Some q => <[i := q]> out
           | None => out
           end
  | _ => out
  end.

(** Array [a'] is [a] after the passes [start .. start + n - 1] of the loop
    over [kid], each storing at its own index. *)
Definition c2l_filled (kid ids : list string) (num : list Q)
    (start n : nat) (a a' : list Q) : Prop :=
  length a' = length a
  /\ forall j,
       a' !! j
       = if decide (start <= j < start + n)%nat
         then match kid !! j with
              | Some name => c2l_stored ids num name j a !! j
              | None => a !! j
              end
         else a !! j.

(** The tables as [np.loadtxt] gives them to the loop: one-dimensional
    arrays (two rows or more), the two Pitkin columns of one length. *)
Definition c2l_tables_ok (kid pid : list string) (pnum : list Q) : Prop :=
  (2 <= length kid)%nat /\ (2 <= length pid)%nat
  /\ length pid = length pnum.

Definition ex_c2l_kid : list string := ["100200"; "200300"; "300400"].
Definition ex_c2l_pid : list string := ["200300"; "555555"].
Definition ex_c2l_pnum : list Q := [7; 3]%Q.
Definition ex_c2l_bid_raw : list string :=
  ["300400"; "100200"; "300400"; "300400"].
Definition ex_c2l_sid_raw : list string := ["999999"; "100200"].
(** * Properties *)

(** [lra] over the reals and over the rationals *)
Ltac rlra := Lra.lra.
Ltac qlra := Lqa.lra.


(** ** Signs of reals *)

Lemma Rsgn_pos (r : R) : (0 < r)%R -> Rsgn r = Gt.
Proof.
  intros Hr. unfold Rsgn.
  destruct (total_order_T 0 r) as [[Hlt | Heq] | Hgt]; [reflexivity | rlra | rlra].
Qed.

Lemma Rsgn_zero (r : R) : r = 0%R -> Rsgn r = Eq.
Proof.
  intros Hr. unfold Rsgn.
  destruct (total_order_T 0 r) as [[Hlt | Heq] | Hgt]; [rlra | reflexivity | rlra].
Qed.

Lemma Rsgn_neg (r : R) : (r < 0)%R -> Rsgn r = Lt.
Proof.
  intros Hr. unfold Rsgn.
  destruct (total_order_T 0 r) as [[Hlt | Heq] | Hgt]; [rlra | rlra | reflexivity].
Qed.

(** ** numpy arithmetic on finite reals *)

Section NumpyReal.
Local Open Scope R_scope.

Lemma np_div_real (a b : R) : b <> 0 -> np_div (Fin a) (Fin b) = Fin (a / b).
Proof.
  intros Hb. cbn [np_div sc_sgn sc_div R_scalar].
  destruct (Rtotal_order b 0) as [Hlt | [Heq | Hgt]].
  - rewrite (Rsgn_neg b Hlt). reflexivity.
  - contradiction.
  - rewrite (Rsgn_pos b Hgt). reflexivity.
Qed.

Lemma np_div_pos_zero (a b : R) :
  0 < a -> b = 0 -> np_div (Fin a) (Fin b) = PInf.
Proof.
  intros Ha Hb. cbn [np_div sc_sgn sc_div R_scalar].
  rewrite (Rsgn_zero b Hb), (Rsgn_pos a Ha). reflexivity.
Qed.

Lemma np_sqrt_real (a : R) : 0 <= a -> np_sqrt (Fin a) = Fin (sqrt a).
Proof.
  intros Ha. unfold np_sqrt.
  destruct Ha as [Hlt | Heq].
  - rewrite (Rsgn_pos a Hlt). reflexivity.
  - rewrite (Rsgn_zero a) by (symmetry; exact Heq). reflexivity.
Qed.

End NumpyReal.

(** unfold the arithmetic of finite and infinite values, leaving the real
    numbers alone *)
Ltac np_step :=
  cbn [np_sub np_pow3 np_add np_opp np_mul np_abs signed_inf CompOpp
       sc_add sc_opp sc_mul sc_abs sc_zero R_scalar].

Section Perror.
Local Open Scope R_scope.

Lemma Perror_err_dn_pos (n : R) :
  0 < n -> Perror_err_dn (Fin n) = Fin (gehrels_dn n).
Proof.
  intros Hn.
  assert (Hs : 0 < sqrt n) by (apply sqrt_lt_R0; exact Hn).
  unfold Perror_err_dn, gehrels_dn.
  rewrite np_sqrt_real by rlra. np_step.
  rewrite !np_div_real by rlra. np_step.
  f_equal. f_equal. ring.
Qed.

Lemma Perror_err_up_nonneg (n : R) :
  0 <= n -> Perror_err_up (Fin n) = Fin (gehrels_up n).
Proof.
  intros Hn. unfold Perror_err_up, gehrels_up. np_step.
  rewrite np_sqrt_real by rlra. np_step.
  f_equal. ring.
Qed.

Lemma Perror_err_dn_zero : Perror_err_dn (Fin 0) = NaN.
Proof.
  unfold Perror_err_dn.
  rewrite np_sqrt_real by rlra. rewrite sqrt_0. np_step.
  rewrite !np_div_pos_zero by rlra. np_step.
  cbn [sc_sgn R_scalar]. rewrite (Rsgn_zero 0) by reflexivity.
  reflexivity.
Qed.
End Perror.

Section Powers.
Local Open Scope R_scope.

Lemma ln10_pos : 0 < ln 10.
Proof. rewrite <- ln_1. apply ln_increasing; rlra. Qed.

Lemma log10_Rpower (y : R) : log10 (Rpower 10 y) = y.
Proof.
  unfold log10, Rpower. rewrite ln_exp. field.
  apply Rgt_not_eq, ln10_pos.
Qed.

Lemma Rpower_log10 (b : R) : 0 < b -> Rpower 10 (log10 b) = b.
Proof.
  intros Hb. unfold log10, Rpower.
  replace (ln b / ln 10 * ln 10) with (ln b)
    by (field; apply Rgt_not_eq, ln10_pos).
  apply exp_ln, Hb.
Qed.

Lemma plaw_linfunc (x m b : R) :
  0 < b -> _plaw x m b = Rpower 10 (_linfunc x m (log10 b)).
Proof.
  intros Hb. unfold _plaw, _linfunc.
  rewrite Rpower_plus, Rpower_log10 by exact Hb.
  rewrite Rpower_mult. rewrite (Rmult_comm x m). ring.
Qed.
End Powers.

(** C5: [_DistModulus] returns [10^((m_app - M_abs)/5 + 1)], a strictly
    positive distance that satisfies the distance-modulus equation
    [m_app - M_abs = 5 log10(dist) - 5]. *)
Theorem DistModulus_inverts_modulus (m_app M_abs : R) :
  _DistModulus m_app M_abs = Rpower 10 ((m_app - M_abs) / 5 + 1)
  /\ (0 < _DistModulus m_app M_abs)%R
  /\ (m_app - M_abs = 5 * log10 (_DistModulus m_app M_abs) - 5)%R.
Proof.
  unfold _DistModulus. split; [reflexivity |]. split.
  - unfold Rpower. apply exp_pos.
  - rewrite log10_Rpower. field.
Qed.

(** C6: for [b > 0] the power law [_plaw(x, m, b)] is ten to the line
    [_linfunc(x, m, log10(b))], and the fit evaluation
    [10^(_linfunc(Epoint, m, b))] is [_plaw(Epoint, m, 10^b)]. *)
Theorem plaw_linfunc_interchangeable (x m b : R) (Hb : (0 < b)%R) :
  _plaw x m b = Rpower 10 (_linfunc x m (log10 b))
  /\ forall m' b' : R, fit_E_of (m', b') = _plaw Epoint m' (Rpower 10 b').
Proof.
  split; [apply plaw_linfunc, Hb |].
  intros m' b'. unfold fit_E_of. cbn [fst snd].
  rewrite plaw_linfunc by (unfold Rpower; apply exp_pos).
  rewrite log10_Rpower. reflexivity.
Qed.

Lemma plaw_linfunc_interchangeable_witness :
  (0 < 1)%R
  /\ _plaw 0 0 1 = Rpower 10 (_linfunc 0 0 (log10 1))
  /\ forall m' b' : R, fit_E_of (m', b') = _plaw Epoint m' (Rpower 10 b').
Proof.
  split; [rlra |]. apply (plaw_linfunc_interchangeable 0 0 1). rlra.
Defined.

(** C4: for a count [n > 0] the pair [_Perror(n, full=True)] is Gehrels'
    lower and upper bound, [down=True] returns the first component and the
    defaults return the second; for any input the single values are the
    components of the pair. *)
Theorem Perror_full_and_single_agree (n : R) (Hn : (0 < n)%R) :
  _Perror (Fin n) true false = Both (Fin (gehrels_dn n)) (Fin (gehrels_up n))
  /\ _Perror (Fin n) false true = One (Fin (gehrels_dn n))
  /\ _Perror (Fin n) false false = One (Fin (gehrels_up n))
  /\ _Perror (Fin 0%R) false false = One (Fin (gehrels_up 0))
  /\ forall (x dn up : npfloat R) (down : bool),
       _Perror x true down = Both dn up ->
       _Perror x false true = One dn /\ _Perror x false false = One up.
Proof.
  unfold _Perror.
  rewrite (Perror_err_dn_pos n Hn).
  rewrite (Perror_err_up_nonneg n) by rlra.
  rewrite (Perror_err_up_nonneg 0) by rlra.
  repeat split; inversion H; reflexivity.
Qed.

Lemma Perror_full_and_single_agree_witness :
  (0 < 1)%R
  /\ _Perror (Fin 1%R) true false
     = Both (Fin (gehrels_dn 1)) (Fin (gehrels_up 1)).
Proof.
  split; [rlra |].
  apply (Perror_full_and_single_agree 1). rlra.
Defined.

(** C9: at [n = 0] both divisors [9*n] and [3*sqrt(n)] are zero, the lower
    bound is NaN, and [_Perror] returns it with [full=True] and with
    [down=True]. *)
Theorem Perror_zero_is_nan :
  np_mul (Fin 9%R) (Fin 0%R) = Fin 0%R
  /\ np_mul (Fin 3%R) (np_sqrt (Fin 0%R)) = Fin 0%R
  /\ np_div (Fin 1%R) (np_mul (Fin 9%R) (Fin 0%R)) = PInf
  /\ np_div (Fin 1%R) (np_mul (Fin 3%R) (np_sqrt (Fin 0%R))) = PInf
  /\ (exists up, _Perror (Fin 0%R) true false = Both NaN up)
  /\ _Perror (Fin 0%R) false true = One NaN.
Proof.
  assert (H9 : np_mul (Fin 9%R) (Fin 0%R) = Fin 0%R).
  { np_step. f_equal. rlra. }
  assert (H3 : np_mul (Fin 3%R) (np_sqrt (Fin 0%R)) = Fin 0%R).
  { rewrite np_sqrt_real by rlra. rewrite sqrt_0. np_step. f_equal. rlra. }
  rewrite H9, H3. unfold _Perror. rewrite Perror_err_dn_zero.
  repeat split; try (apply np_div_pos_zero; rlra).
  eexists. reflexivity.
Qed.

(** ** Arrays *)

Section Arrays.
Local Open Scope Q_scope.

Lemma zeros_like_as_map {B : Type} (a : list B) :
  np_zeros_like a = map (fun _ => 0) a.
Proof.
  unfold np_zeros_like. induction a as [| x a IH]; [reflexivity |].
  cbn. f_equal. exact IH.
Qed.

(** the positions [np.where] returns, counted from [k] *)
Lemma where_from_length (k : nat) (mask : list bool) :
  length (omap (fun '(i, b) => if b : bool then Some i else None)
               (zip (seq k (length mask)) mask))
  = count_true mask.
Proof.
  revert k. induction mask as [| b mask IH]; intros k; [reflexivity |].
  unfold count_true in *. cbn [length seq zip zip_with omap].
  destruct b.
  - rewrite filter_cons_True by reflexivity. cbn. f_equal. apply IH.
  - rewrite filter_cons_False by discriminate. apply IH.
Qed.

Lemma np_where_length (mask : list bool) :
  length (np_where mask) = count_true mask.
Proof. apply where_from_length. Qed.

Lemma count_true_map {B : Type} (p : B -> bool) (l : list B) :
  count_true (map p l) = length (filter (fun x => p x = true) l).
Proof.
  unfold count_true. induction l as [| x l IH]; [reflexivity |].
  cbn [map]. destruct (p x) eqn:Hp.
  - rewrite !filter_cons_True by done. cbn. f_equal. exact IH.
  - rewrite !filter_cons_False by congruence. exact IH.
Qed.

Lemma filter_pos_exists {B : Type} (p : B -> bool) (l : list B) :
  (0 < length (filter (fun x => p x = true) l))%nat
  <-> exists k x, l !! k = Some x /\ p x = true.
Proof.
  split.
  - intros Hlen.
    destruct (filter (fun x => p x = true) l) as [| x f] eqn:Hf;
      [cbn in Hlen; lia |].
    assert (Hx : x ∈ filter (fun x => p x = true) l)
      by (rewrite Hf; apply list_elem_of_here).
    apply list_elem_of_filter in Hx as [Hpx Hin].
    apply list_elem_of_lookup in Hin as [k Hk]. eauto.
  - intros (k & x & Hk & Hpx).
    assert (Hx : x ∈ filter (fun x => p x = true) l).
    { apply list_elem_of_filter. split; [exact Hpx |].
      apply list_elem_of_lookup. eauto. }
    destruct (filter (fun x => p x = true) l); [inversion Hx | cbn; lia].
Qed.

Lemma filter_existsb_length {B C : Type} (p : B -> C -> bool)
    (l : list B) (y : C) :
  (0 < length (filter (fun x => p x y = true) l))%nat
  <-> existsb (fun x => p x y) l = true.
Proof.
  rewrite filter_pos_exists, existsb_exists. split.
  - intros (k & x & Hk & Hp). exists x. split; [| exact Hp].
    apply list_elem_of_In, list_elem_of_lookup. eauto.
  - intros (x & Hin & Hp).
    apply list_elem_of_In, list_elem_of_lookup in Hin as [k Hk]. eauto.
Qed.

(** a loop that sets [acc[i] = v1] for the rows that pass a test leaves
    [v0] at the others *)
Lemma foldl_insert_from {B : Type} (f : list Q -> nat * B -> list Q)
    (p : B -> bool) (v0 v1 : Q) (l : list B) (pre : list Q) :
  (forall acc i x, f acc (i, x) = if p x then <[i := v1]> acc else acc) ->
  foldl f (pre ++ replicate (length l) v0)
        (zip (seq (length pre) (length l)) l)
  = pre ++ map (fun x => if p x then v1 else v0) l.
Proof.
  intros Hf. revert pre.
  induction l as [| x l IH]; intros pre; [reflexivity |].
  cbn [length seq zip zip_with foldl replicate map]. rewrite Hf.
  replace (if p x then <[length pre := v1]> (pre ++ v0 :: replicate (length l) v0)
           else pre ++ v0 :: replicate (length l) v0)
    with ((pre ++ [if p x then v1 else v0]) ++ replicate (length l) v0).
  - specialize (IH (pre ++ [if p x then v1 else v0])).
    rewrite length_app in IH. cbn [length] in IH.
    replace (length pre + 1)%nat with (S (length pre)) in IH by lia.
    rewrite IH, <- app_assoc. reflexivity.
  - rewrite <- app_assoc. cbn [app]. destruct (p x); [| reflexivity].
    rewrite insert_app_r_alt by lia.
    replace (length pre - length pre)%nat with 0%nat by lia. reflexivity.
Qed.

Lemma np_sum_indicator_from {B : Type} (p : B -> bool) (a : Q) (l : list B) :
  foldl Qplus a (map (fun x => if p x then 1 else 0) l)
  == a + float_of_nat (length (filter (fun x => p x = true) l)).
Proof.
  revert a. induction l as [| x l IH]; intros a.
  - cbn. unfold float_of_nat. cbn. ring.
  - cbn [map foldl]. rewrite IH. unfold float_of_nat.
    destruct (p x) eqn:Hp.
    + rewrite filter_cons_True by assumption. cbn [length].
      rewrite Nat2Z.inj_succ, <- Z.add_1_r, inject_Z_plus. ring.
    + rewrite filter_cons_False by congruence. ring.
Qed.

Lemma np_sum_indicator {B : Type} (p : B -> bool) (l : list B) :
  np_sum (map (fun x => if p x then 1 else 0) l)
  == float_of_nat (length (filter (fun x => p x = true) l)).
Proof. unfold np_sum. rewrite np_sum_indicator_from. ring. Qed.

Lemma float_of_nat_zero (n : nat) : float_of_nat n == 0 <-> n = 0%nat.
Proof.
  unfold float_of_nat. change 0 with (inject_Z 0).
  rewrite inject_Z_injective. lia.
Qed.

Lemma float_of_nat_le (n m : nat) :
  (n <= m)%nat -> float_of_nat n <= float_of_nat m.
Proof.
  intros Hnm. unfold float_of_nat. rewrite <- Zle_Qle. lia.
Qed.

Lemma py_div_ok (a b : Q) :
  ~ b == 0 -> py_div a b = Ok (a / b).
Proof.
  intros Hb. unfold py_div.
  destruct (Qeq_bool b 0) eqn:Hq; [| reflexivity].
  apply Qeq_bool_iff in Hq. contradiction.
Qed.

Lemma py_div_zero (a b : Q) :
  b == 0 -> py_div a b = Raise ZeroDivisionError.
Proof.
  intros Hb. unfold py_div.
  apply Qeq_bool_iff in Hb. rewrite Hb. reflexivity.
Qed.

Lemma py_div_inv (a b q : Q) :
  py_div a b = Ok q -> ~ b == 0 /\ q = a / b.
Proof.
  unfold py_div. destruct (Qeq_bool b 0) eqn:Hq; [discriminate |].
  intros [= <-]. split; [| reflexivity].
  intros Hb. apply Qeq_bool_iff in Hb. congruence.
Qed.
End Arrays.

(** ** The overlap test *)

Section Overlap.
Local Open Scope Q_scope.

(** turn the boolean comparisons of a goal or hypothesis into orders *)
Ltac qbool :=
  repeat rewrite ?orb_true_iff, ?andb_true_iff, ?Qle_bool_iff in *.

Lemma overlap3_spec (a0 a1 f2 f3 : Q) :
  a0 <= a1 -> f2 <= f3 ->
  (overlap3 a0 a1 f2 f3 = true <-> a0 <= f3 /\ f2 <= a1).
Proof.
  intros Ha Hf. unfold overlap3. qbool. split.
  - intros [[[H1 H2] | [H1 H2]] | [H1 H2]]; split; qlra.
  - intros [H1 H2].
    destruct (Qlt_le_dec a0 f2) as [Hlt | Hge].
    + destruct (Qlt_le_dec f3 a1) as [Hlt' | Hge'].
      * left. left. split; qlra.
      * right. split; qlra.
    + left. right. split; qlra.
Qed.

Lemma intervals_meet_spec (a0 a1 f2 f3 : Q) :
  a0 <= a1 -> f2 <= f3 ->
  (intervals_meet a0 a1 f2 f3 <-> a0 <= f3 /\ f2 <= a1).
Proof.
  intros Ha Hf. unfold intervals_meet. split.
  - intros (t & H1 & H2 & H3 & H4). split; qlra.
  - intros [H1 H2].
    destruct (Qlt_le_dec a0 f2) as [Hlt | Hge].
    + exists f2. repeat split; qlra.
    + exists a0. repeat split; qlra.
Qed.

Lemma overlap3_intersectsb (ap : ap_flare) (fb : fb_flare) :
  t_start ap <= t_stop ap -> fb_t_start fb <= fb_t_stop fb ->
  overlap3 (t_start ap) (t_stop ap) (fb_t_start fb) (fb_t_stop fb)
  = intersectsb ap fb.
Proof.
  intros Ha Hf. apply eq_true_iff_eq.
  rewrite overlap3_spec by assumption.
  unfold intersectsb. qbool. reflexivity.
Qed.

Lemma intersectsb_meet (ap : ap_flare) (fb : fb_flare) :
  t_start ap <= t_stop ap -> fb_t_start fb <= fb_t_stop fb ->
  (intersectsb ap fb = true
   <-> intervals_meet (t_start ap) (t_stop ap)
                      (fb_t_start fb) (fb_t_stop fb)).
Proof.
  intros Ha Hf. rewrite intervals_meet_spec by assumption.
  unfold intersectsb. qbool. reflexivity.
Qed.
End Overlap.

(** ** benchmark *)

Section Benchmark.
Local Open Scope Q_scope.

Lemma x_any_nonempty (apdata : list ap_flare) (fb : fb_flare) :
  bool_decide (0 < length (x_any apdata fb))%nat = any_overlap apdata fb.
Proof.
  apply eq_true_iff_eq. rewrite bool_decide_eq_true.
  unfold x_any, any_overlap.
  rewrite np_where_length, count_true_map.
  apply (filter_existsb_length
           (fun ap fb => overlap3 (t_start ap) (t_stop ap)
                                  (fb_t_start fb) (fb_t_stop fb))).
Qed.

Lemma n4_i_of_map (apdata : list ap_flare) (fbdata : list fb_flare) :
  n4_i_of apdata fbdata
  = map (fun fb => if any_overlap apdata fb then 1 else 0) fbdata.
Proof.
  unfold n4_i_of, enumerate, np_zeros_like.
  apply (foldl_insert_from _ (any_overlap apdata) 0 1 fbdata []).
  intros acc i fb. rewrite x_any_nonempty. reflexivity.
Qed.

Lemma any_overlap_recovered (apdata : list ap_flare) (fbdata : list fb_flare) :
  Forall (fun ap => t_start ap <= t_stop ap) apdata ->
  Forall (fun fb => fb_t_start fb <= fb_t_stop fb) fbdata ->
  filter (fun fb => any_overlap apdata fb = true) fbdata
  = recovered apdata fbdata.
Proof.
  intros Hap Hfb. unfold recovered.
  induction Hfb as [| fb fbdata Hw Hfb IH]; [reflexivity |].
  assert (Heq : any_overlap apdata fb
                = existsb (fun ap => intersectsb ap fb) apdata).
  { unfold any_overlap. clear -Hap Hw.
    induction Hap as [| ap apdata Ha Hap IH]; [reflexivity |].
    cbn [existsb]. rewrite IH, overlap3_intersectsb by assumption.
    reflexivity. }
  rewrite !filter_cons, IH.
  repeat case_decide; congruence.
Qed.

Lemma mark_map (time : list Q) (lo hi : Q) (g : Q -> bool) :
  mark time lo hi (map (fun t => if g t then 1 else 0) time)
  = map (fun t => if g t || in_interval lo hi t then 1 else 0) time.
Proof.
  unfold mark. induction time as [| t time IH]; [reflexivity |].
  cbn [map zip_with]. rewrite IH. f_equal.
  destruct (g t), (in_interval lo hi t); reflexivity.
Qed.

Lemma fbtime_from (time : list Q) (fbdata : list fb_flare) (g : Q -> bool) :
  foldl (fun flags r => mark time (fb_i_start r) (fb_i_stop r) flags)
        (map (fun t => if g t then 1 else 0) time) fbdata
  = map (fun t =>
           if g t || existsb (fun fb => in_interval (fb_i_start fb)
                                          (fb_i_stop fb) t) fbdata
           then 1 else 0) time.
Proof.
  revert g. induction fbdata as [| fb fbdata IH]; intros g.
  - cbn [foldl existsb]. apply map_ext. intros t.
    rewrite orb_false_r. reflexivity.
  - cbn [foldl existsb]. rewrite mark_map, IH. apply map_ext. intros t.
    rewrite orb_assoc. reflexivity.
Qed.

(** [fbtime] flags the samples inside the interval of some FBEYE row *)
Lemma fbtime_of_map (time : list Q) (fbdata : list fb_flare) :
  fbtime_of time fbdata
  = map (fun t =>
           if existsb (fun fb => in_interval (fb_i_start fb)
                                   (fb_i_stop fb) t) fbdata
           then 1 else 0) time.
Proof.
  unfold fbtime_of. rewrite zeros_like_as_map.
  apply (fbtime_from time fbdata (fun _ => false)).
Qed.

Lemma np_sum_fbtime (time : list Q) (fbdata : list fb_flare) :
  np_sum (fbtime_of time fbdata)
  == float_of_nat (length (fb_covered time fbdata)).
Proof. rewrite fbtime_of_map. apply np_sum_indicator. Qed.

Lemma count_fbtime (time : list Q) (fbdata : list fb_flare) :
  count_true (map (fun f => Qeq_bool f 1) (fbtime_of time fbdata))
  = length (fb_covered time fbdata).
Proof.
  rewrite fbtime_of_map, map_map, count_true_map. unfold fb_covered.
  f_equal. apply list_filter_iff. intros t.
  destruct (existsb _ fbdata); split; intros Hc;
    vm_compute in Hc |- *; congruence.
Qed.
End Benchmark.

Section BenchmarkClaims.
Local Open Scope Q_scope.

Lemma any_overlap_exists (apdata : list ap_flare) (fb : fb_flare) :
  Forall (fun ap => t_start ap <= t_stop ap) apdata ->
  fb_t_start fb <= fb_t_stop fb ->
  (any_overlap apdata fb = true
   <-> exists k ap, apdata !! k = Some ap
                    /\ t_start ap <= fb_t_stop fb
                    /\ fb_t_start fb <= t_stop ap).
Proof.
  intros Hap Hfb. unfold any_overlap. rewrite existsb_exists.
  rewrite Forall_forall in Hap. split.
  - intros (ap & Hin & Hov).
    apply list_elem_of_In in Hin.
    apply overlap3_spec in Hov; [| apply Hap, Hin | exact Hfb].
    apply list_elem_of_lookup in Hin as [k Hk]. eauto.
  - intros (k & ap & Hk & Hov).
    assert (Hin : ap ∈ apdata) by (apply list_elem_of_lookup; eauto).
    exists ap. split; [apply list_elem_of_In, Hin |].
    apply overlap3_spec; [apply Hap, Hin | exact Hfb | exact Hov].
Qed.

Lemma n4_i_lookup (apdata : list ap_flare) (fbdata : list fb_flare)
    (i : nat) (fb : fb_flare) :
  fbdata !! i = Some fb ->
  n4_i_of apdata fbdata !! i = Some (if any_overlap apdata fb then 1 else 0).
Proof.
  intros Hi. rewrite n4_i_of_map, list_lookup_fmap, Hi. reflexivity.
Qed.

Lemma benchmark_ok (apdata : list ap_flare) (fbdata : list fb_flare)
    (time : list Q) :
  fbdata <> [] -> fb_covered time fbdata <> [] ->
  exists r, benchmark_arrays apdata fbdata time = Ok r.
Proof.
  intros Hfb Hcov.
  assert (Hlen : ~ float_of_nat (length fbdata) == 0).
  { rewrite float_of_nat_zero. destruct fbdata; [congruence | discriminate]. }
  assert (Hc : length (fb_covered time fbdata) <> 0%nat).
  { destruct (fb_covered time fbdata); [congruence | discriminate]. }
  unfold benchmark_arrays.
  rewrite (py_div_ok _ _ Hlen). cbn [bind].
  rewrite py_div_ok by (rewrite np_sum_fbtime, float_of_nat_zero; exact Hc).
  cbn [bind].
  rewrite py_div_ok by (rewrite count_fbtime, float_of_nat_zero; exact Hc).
  cbn [bind]. rewrite (py_div_ok _ _ Hlen). cbn [bind].
  eexists. reflexivity.
Qed.

Lemma benchmark_n4 (apdata : list ap_flare) (fbdata : list fb_flare)
    (time : list Q) (r : benchmark_stats) :
  benchmark_arrays apdata fbdata time = Ok r ->
  ~ float_of_nat (length fbdata) == 0
  /\ n4 r = np_sum (n4_i_of apdata fbdata) / float_of_nat (length fbdata).
Proof.
  unfold benchmark_arrays.
  destruct (py_div (float_of_nat (length apdata)) _) as [q1 |]; [| discriminate].
  cbn [bind].
  destruct (py_div (np_sum _) _) as [q2 |]; [| discriminate]. cbn [bind].
  destruct (py_div (float_of_nat (count_true _)) _) as [q3 |]; [| discriminate].
  cbn [bind].
  destruct (py_div (np_sum _) _) as [q4 |] eqn:H4; [| discriminate].
  cbn [bind]. intros [= <-]. cbn [n4].
  apply py_div_inv in H4. exact H4.
Qed.

(** with arrays of the right dimensions the loops and divisions are reached *)
Lemma benchmark_shape (apdata : list ap_flare) (fbdata : list fb_flare)
    (time : list Q) :
  (2 <= length apdata)%nat -> length time <> 1%nat ->
  (2 <= length fbdata)%nat ->
  benchmark apdata fbdata time = benchmark_arrays apdata fbdata time.
Proof.
  intros Hap Ht Hfb. unfold benchmark.
  rewrite !decide_False by lia. reflexivity.
Qed.

(** and with any other they are not: [IndexError] *)
Lemma benchmark_short (apdata : list ap_flare) (fbdata : list fb_flare)
    (time : list Q) :
  (length apdata < 2)%nat \/ length time = 1%nat \/ (length fbdata < 2)%nat ->
  benchmark apdata fbdata time = Raise IndexError.
Proof.
  intros Hshort. unfold benchmark.
  repeat (case_decide; [reflexivity |]). lia.
Qed.

Lemma benchmark_reached (apdata : list ap_flare) (fbdata : list fb_flare)
    (time : list Q) :
  benchmark apdata fbdata time <> Raise IndexError ->
  (2 <= length apdata)%nat /\ length time <> 1%nat
  /\ (2 <= length fbdata)%nat
  /\ benchmark apdata fbdata time = benchmark_arrays apdata fbdata time.
Proof.
  intros Hne. unfold benchmark in *.
  repeat (case_decide; [congruence |]).
  repeat split; try lia.
Qed.

(** C1: with well-formed intervals the three-clause test marks an FBEYE
    flare exactly when some appaloosa interval meets it, that is when
    [apdata[k,0] <= fbdata[i,3]] and [apdata[k,1] >= fbdata[i,2]] for some
    [k]; the statistic [n4] is the number of FBEYE flares so recovered over
    the number of FBEYE flares, and lies between 0 and 1. *)
Theorem benchmark_n4_any_overlap (apdata : list ap_flare)
    (fbdata : list fb_flare) (time : list Q)
    (Hap : Forall (fun ap => t_start ap <= t_stop ap) apdata) :
  (forall i fb,
      fbdata !! i = Some fb -> fb_t_start fb <= fb_t_stop fb ->
      (n4_i_of apdata fbdata !! i = Some 1
       <-> exists k ap, apdata !! k = Some ap
                        /\ intervals_meet (t_start ap) (t_stop ap)
                                          (fb_t_start fb) (fb_t_stop fb))
      /\ (n4_i_of apdata fbdata !! i = Some 1
          <-> exists k ap, apdata !! k = Some ap
                           /\ t_start ap <= fb_t_stop fb
                           /\ fb_t_start fb <= t_stop ap)
      /\ (n4_i_of apdata fbdata !! i = Some 1
          \/ n4_i_of apdata fbdata !! i = Some 0))
  /\ (Forall (fun fb => fb_t_start fb <= fb_t_stop fb) fbdata ->
      (forall r, benchmark apdata fbdata time = Ok r ->
                 n4 r == float_of_nat (length (recovered apdata fbdata))
                         / float_of_nat (length fbdata)
                 /\ 0 <= n4 r /\ n4 r <= 1)
      /\ ((2 <= length apdata)%nat -> (2 <= length fbdata)%nat ->
          (2 <= length time)%nat -> fb_covered time fbdata <> [] ->
          exists r, benchmark apdata fbdata time = Ok r)).
Proof.
  split.
  - intros i fb Hi Hfb.
    rewrite (n4_i_lookup apdata fbdata i fb Hi).
    pose proof (any_overlap_exists apdata fb Hap Hfb) as Hex.
    assert (Hone : Some (if any_overlap apdata fb then 1 else 0) = Some 1
                   <-> any_overlap apdata fb = true).
    { destruct (any_overlap apdata fb); split; congruence. }
    repeat split.
    + intros H1. apply Hone, Hex in H1 as (k & ap & Hk & Hov).
      exists k, ap. split; [exact Hk |].
      apply intervals_meet_spec; [| exact Hfb | exact Hov].
      rewrite Forall_forall in Hap. apply Hap.
      apply list_elem_of_lookup. eauto.
    + intros (k & ap & Hk & Hm). apply Hone, Hex.
      exists k, ap. split; [exact Hk |].
      apply intervals_meet_spec in Hm; [exact Hm | | exact Hfb].
      rewrite Forall_forall in Hap. apply Hap.
      apply list_elem_of_lookup. eauto.
    + intros H1. apply Hex, Hone, H1.
    + intros H1. apply Hone, Hex, H1.
    + destruct (any_overlap apdata fb); [left | right]; reflexivity.
  - intros Hfb. split.
    2:{ intros Hrows Hfrows Htime Hcov.
        rewrite benchmark_shape by lia. apply benchmark_ok; [| exact Hcov].
        destruct fbdata; [cbn in Hfrows; lia | discriminate]. }
    intros r Hr.
    assert (Hreach : benchmark apdata fbdata time <> Raise IndexError)
      by (rewrite Hr; discriminate).
    apply benchmark_reached in Hreach as (_ & _ & _ & Harr).
    rewrite Harr in Hr. apply benchmark_n4 in Hr as [Hlen Hn4].
    assert (Hsum : np_sum (n4_i_of apdata fbdata)
                   == float_of_nat (length (recovered apdata fbdata))).
    { rewrite n4_i_of_map, np_sum_indicator.
      rewrite any_overlap_recovered by assumption. reflexivity. }
    assert (Hpos : 0 < float_of_nat (length fbdata)).
    { assert (0 <= float_of_nat (length fbdata))
        by (apply (float_of_nat_le 0); lia).
      apply Qle_lt_or_eq in H as [Hlt | Heq]; [exact Hlt |].
      symmetry in Heq. contradiction. }
    rewrite Hn4, Hsum. split; [reflexivity |]. split.
    + apply Qle_shift_div_l; [exact Hpos |].
      rewrite Qmult_0_l. apply (float_of_nat_le 0). lia.
    + apply Qle_shift_div_r; [exact Hpos |].
      rewrite Qmult_1_l. apply float_of_nat_le.
      unfold recovered. apply length_filter.
Qed.

Lemma benchmark_n4_any_overlap_witness :
  Forall (fun ap => t_start ap <= t_stop ap) ex_apdata
  /\ Forall (fun fb => fb_t_start fb <= fb_t_stop fb) ex_fbdata
  /\ exists r, benchmark ex_apdata ex_fbdata ex_time = Ok r
               /\ n4 r == 1 # 4.
Proof.
  assert (Hap : Forall (fun ap => t_start ap <= t_stop ap) ex_apdata).
  { repeat constructor; discriminate. }
  assert (Hfb : Forall (fun fb => fb_t_start fb <= fb_t_stop fb) ex_fbdata).
  { repeat constructor; discriminate. }
  split; [exact Hap |]. split; [exact Hfb |].
  destruct (benchmark_n4_any_overlap ex_apdata ex_fbdata ex_time Hap)
    as [_ Hn4].
  destruct (Hn4 Hfb) as [Hval Hok].
  destruct Hok as [r Hr]; [cbn; lia | cbn; lia | cbn; lia | discriminate |].
  exists r. split; [exact Hr |].
  destruct (Hval r Hr) as [Heq _]. rewrite Heq. reflexivity.
Defined.

(** C10, as it holds: [benchmark] divides by [len(fbdata[:,0])],
    [np.sum(fbtime)] and [np.sum(fbtime == 1)] without a check.  With no
    time sample inside any FBEYE interval the last two are zero and the
    division for [n2] raises [ZeroDivisionError]; this is the one way to a
    division by zero.  The divisor [len(fbdata[:,0])] is at least 2 whenever
    a division is reached: a catalog of fewer than two rows, the empty one
    included, ends the run with [IndexError] at [fbdata[:,0]]. *)
Theorem benchmark_zero_denominators (apdata : list ap_flare)
    (fbdata : list fb_flare) (time : list Q) :
  ((length fbdata < 2)%nat ->
   benchmark apdata fbdata time = Raise IndexError)
  /\ (benchmark apdata fbdata time <> Raise IndexError ->
      (2 <= length fbdata)%nat /\ ~ float_of_nat (length fbdata) == 0)
  /\ ((2 <= length apdata)%nat -> (2 <= length fbdata)%nat ->
      length time <> 1%nat -> fb_covered time fbdata = [] ->
      np_sum (fbtime_of time fbdata) == 0
      /\ float_of_nat
           (count_true (map (fun f => Qeq_bool f 1) (fbtime_of time fbdata)))
         == 0
      /\ benchmark apdata fbdata time = Raise ZeroDivisionError)
  /\ (benchmark apdata fbdata time = Raise ZeroDivisionError
      <-> (2 <= length apdata)%nat /\ (2 <= length fbdata)%nat
          /\ length time <> 1%nat /\ fb_covered time fbdata = []).
Proof.
  assert (Hsum : fb_covered time fbdata = [] ->
                 np_sum (fbtime_of time fbdata) == 0).
  { intros Hc. rewrite np_sum_fbtime, Hc. reflexivity. }
  assert (Hnone : (2 <= length fbdata)%nat -> fb_covered time fbdata = [] ->
                  benchmark_arrays apdata fbdata time
                  = Raise ZeroDivisionError).
  { intros Hfb Hc. unfold benchmark_arrays. rewrite py_div_ok; [cbn [bind] |].
    - rewrite py_div_zero by (apply Hsum, Hc). reflexivity.
    - rewrite float_of_nat_zero. lia. }
  split; [| split; [| split]].
  - intros Hfb. apply benchmark_short. right; right. exact Hfb.
  - intros Hne. apply benchmark_reached in Hne as (_ & _ & Hfb & _).
    split; [exact Hfb |]. rewrite float_of_nat_zero. lia.
  - intros Hap Hfb Ht Hc. split; [apply Hsum, Hc |]. split.
    + rewrite count_fbtime, Hc. reflexivity.
    + rewrite benchmark_shape by assumption. apply Hnone; assumption.
  - split.
    + intros Hraise.
      assert (Hne : benchmark apdata fbdata time <> Raise IndexError)
        by (rewrite Hraise; discriminate).
      apply benchmark_reached in Hne as (Hap & Ht & Hfb & Heq).
      repeat (split; [assumption |]).
      destruct (fb_covered time fbdata) as [| t cov] eqn:Hc; [reflexivity |].
      destruct (benchmark_ok apdata fbdata time) as [r Hr].
      * destruct fbdata; [cbn in Hfb; lia | discriminate].
      * rewrite Hc. discriminate.
      * congruence.
    + intros (Hap & Hfb & Ht & Hc). rewrite benchmark_shape by assumption.
      apply Hnone; assumption.
Qed.

Lemma benchmark_zero_denominators_witness :
  (2 <= length ex_apdata)%nat /\ (2 <= length ex_fbdata)%nat
  /\ length [100; 101] <> 1%nat
  /\ fb_covered [100; 101] ex_fbdata = []
  /\ benchmark ex_apdata ex_fbdata [100; 101] = Raise ZeroDivisionError.
Proof.
  assert (Hap : (2 <= length ex_apdata)%nat) by (cbn; lia).
  assert (Hfb : (2 <= length ex_fbdata)%nat) by (cbn; lia).
  assert (Ht : length [100; 101] <> 1%nat) by (cbn; lia).
  assert (Hc : fb_covered [100; 101] ex_fbdata = []) by reflexivity.
  repeat (split; [assumption |]).
  destruct (benchmark_zero_denominators ex_apdata ex_fbdata [100; 101])
    as (_ & _ & Hnone & _).
  apply (Hnone Hap Hfb Ht Hc).
Defined.

(** C10, as stated, fails: with an empty FBEYE catalog no division by zero
    takes place.  [np.loadtxt] gives a one-dimensional array, [fbdata[:,0]]
    raises [IndexError] in the head of the second loop, and no statistic is
    computed. *)
Theorem benchmark_empty_catalog_index_error :
  length ([] : list fb_flare) = 0%nat
  /\ benchmark ex_apdata [] ex_time = Raise IndexError
  /\ benchmark ex_apdata [] ex_time <> Raise ZeroDivisionError.
Proof.
  split; [reflexivity |].
  assert (Hrun : benchmark ex_apdata [] ex_time = Raise IndexError)
    by reflexivity.
  split; [exact Hrun |]. rewrite Hrun. discriminate.
Qed.
End BenchmarkClaims.

(** ** fbeye_compare *)

Section FbeyeCompare.

(** the loop makes one pass per cell of the first FBEYE row: fifteen, however
    many FBEYE flares there are *)
Lemma x_ap_trace_length (apdata fbdata : matrix) (n start : nat)
    (found found' : list (list nat)) :
  for_range
    (fun i found => x_ap <- fbeye_x_ap apdata fbdata i ;; Ok (found ++ [x_ap]))
    start n found = Ok found' ->
  length found' = (length found + n)%nat.
Proof.
  revert start found. induction n as [| n IH]; intros start found Hrun.
  - cbn in Hrun. injection Hrun as <-. lia.
  - cbn [for_range] in Hrun.
    destruct (fbeye_x_ap apdata fbdata start) as [x_ap |]; [| discriminate].
    cbn [bind] in Hrun. apply IH in Hrun.
    rewrite Hrun, length_app. cbn. lia.
Qed.

Lemma fbeye_compare_passes (apdata : list ap_flare) (fbdata : list fb_flare)
    (found : list (list nat)) :
  fbeye_compare_x_ap (map ap_cells apdata) (map fb_cells fbdata) = Ok found ->
  length found = 15%nat.
Proof.
  unfold fbeye_compare_x_ap. destruct fbdata as [| fb fbdata]; [discriminate |].
  cbn [map mrow lookup list_lookup bind]. intros Hrun.
  apply x_ap_trace_length in Hrun. exact Hrun.
Qed.

(** a catalog of fewer than four FBEYE flares makes it raise *)
Lemma fbeye_compare_few_flares (apdata : list ap_flare)
    (fbdata : list fb_flare) :
  (length fbdata < 4)%nat ->
  fbeye_compare_x_ap (map ap_cells apdata) (map fb_cells fbdata)
  = Raise IndexError.
Proof.
  intros Hlen.
  destruct fbdata as [| f0 [| f1 [| f2 [| f3 fbdata]]]];
    [| | | | cbn in Hlen; lia];
    destruct apdata as [| a0 [| a1 apdata]]; reflexivity.
Qed.
End FbeyeCompare.

(** C2 (the code departs from it): on a table of two appaloosa flares and
    four FBEYE flares the loop runs once per column, fifteen times, and
    compares the cells of the first two appaloosa rows with cells of the
    third and fourth FBEYE rows; the arrays it finds are not the flares that
    overlap each FBEYE flare.  With three FBEYE flares it raises. *)
Theorem fbeye_compare_transposed :
  fbeye_compare_x_ap (map ap_cells ex_apdata) (map fb_cells ex_fbdata)
  = Ok [[0; 1; 2; 6]; [0; 1; 2; 6]; [0; 1; 2; 6]; [0; 1; 2; 6]; [0; 1; 2; 6];
        []; [5; 14]; [3; 8; 11; 13]; [5; 14]; []; [5; 14]; [5; 14]; [5; 14];
        [5; 14]; [5; 14]]%nat
  /\ fbeye_expected ex_apdata ex_fbdata = [[0]; []; []; []]%nat
  /\ fbeye_compare_x_ap (map ap_cells ex_apdata)
                        (map fb_cells (take 3 ex_fbdata))
     = Raise IndexError
  /\ fbeye_expected ex_apdata (take 3 ex_fbdata) = [[0]; []; []]%nat
  /\ fbeye_compare (map ap_cells ex_apdata) (map fb_cells ex_fbdata) = Ok tt.
Proof. repeat split; vm_compute; reflexivity. Qed.

(** ** k2_mtg_plots *)

(** split a hypothesis [x <- c ;; k = Ok _] on the outcome of [c] *)
Ltac bind_inv H :=
  repeat match type of H with
         | bind ?c _ = Ok _ =>
             let x := fresh "x" in
             let E := fresh "E" in
             destruct c as [x |] eqn:E; cbn [bind] in H; [| discriminate H]
         end.

Section K2Frame.
Context (inp : k2_inputs).

(** the [try] statement never raises: [IOError] is the one exception
    [np.loadtxt] has in the model, and it is caught *)
Lemma k2_try_total (i : nat) (name : string) (st : k2_state) :
  k2_try inp i (apfile_of name) st
  = Ok match k2_fs inp !! apfile_of name with
       | Some data =>
           if decide (ndim data = 2%nat) then k2_set_counts i data st else st
       | None => k2_print (not_found name) st
       end.
Proof.
  unfold k2_try, loadtxt, not_found.
  destruct (k2_fs inp !! apfile_of name) as [data |]; cbn.
  - destruct (decide (ndim data = 2%nat)); reflexivity.
  - reflexivity.
Qed.

Lemma k2_colors_frame (i : nat) (name : string) (st st' : k2_state) :
  k2_colors inp i name st = Ok st' ->
  n_flares1 st' = n_flares1 st /\ n_flares2 st' = n_flares2 st
  /\ n_flares3 st' = n_flares3 st /\ n_flares4 st' = n_flares4 st
  /\ stdout st' = stdout st.
Proof.
  unfold k2_colors. intros H. case_bool_decide.
  - bind_inv H. injection H as H; subst st'. repeat split.
  - injection H as H; subst st'. repeat split.
Qed.

Lemma k2_periods_frame (i : nat) (name : string) (st st' : k2_state) :
  k2_periods inp i name st = Ok st' ->
  n_flares1 st' = n_flares1 st /\ n_flares2 st' = n_flares2 st
  /\ n_flares3 st' = n_flares3 st /\ n_flares4 st' = n_flares4 st
  /\ stdout st' = stdout st.
Proof.
  unfold k2_periods. intros H. case_bool_decide.
  - bind_inv H. injection H as H; subst st'. repeat split.
  - injection H as H; subst st'. repeat split.
Qed.

(** what one pass of the loop does to the four counts and to the output *)
Lemma k2_body_inv (nkid i : nat) (name : string) (st st' : k2_state) :
  k2_body inp nkid i name st = Ok st' ->
  exists st1 more,
    k2_try inp i (apfile_of name) st = Ok st1
    /\ n_flares1 st' = n_flares1 st1 /\ n_flares2 st' = n_flares2 st1
    /\ n_flares3 st' = n_flares3 st1 /\ n_flares4 st' = n_flares4 st1
    /\ stdout st' = stdout st1 ++ more.
Proof.
  unfold k2_body. intros H. bind_inv H.
  apply k2_colors_frame in E0 as (C1 & C2 & C3 & C4 & C5).
  apply k2_periods_frame in E1 as (P1 & P2 & P3 & P4 & P5).
  exists x. destruct (decide (i mod 1000 = 0)%nat); injection H as H; subst st'.
  - exists [PrintProgress i nkid]. cbn. split; [reflexivity |].
    repeat split; congruence.
  - exists []. rewrite app_nil_r. split; [reflexivity |].
    repeat split; congruence.
Qed.
End K2Frame.

Section K2Loop.
Context (inp : k2_inputs) (kid : list string).

(** One of the four count arrays, with the cut that feeds it: what a pass
    of the loop does to it. *)
Context (proj : k2_state -> list Q) (good : list ap_flare -> list nat).
Hypothesis proj_try : forall i name st st1,
  k2_try inp i (apfile_of name) st = Ok st1 ->
  proj st1 = match k2_fs inp !! apfile_of name with
             | Some data =>
                 if decide (ndim data = 2%nat)
                 then <[i := float_of_nat (length (good data))]> (proj st)
                 else proj st
             | None => proj st
             end.
Hypothesis proj_body : forall i name st st',
  k2_body inp (length kid) i name st = Ok st' ->
  exists st1, k2_try inp i (apfile_of name) st = Ok st1 /\ proj st' = proj st1.

Lemma proj_body_lookup (i j : nat) (name : string) (st st' : k2_state) (old : Q) :
  k2_body inp (length kid) i name st = Ok st' ->
  proj st !! j = Some old ->
  length (proj st') = length (proj st)
  /\ proj st' !! j
     = Some (if decide (j = i) then settled good (k2_fs inp) name old else old).
Proof.
  intros Hbody Hold.
  destruct (proj_body _ _ _ _ Hbody) as (st1 & Htry & ->).
  rewrite (proj_try _ _ _ _ Htry). unfold settled.
  destruct (k2_fs inp !! apfile_of name) as [data |].
  - destruct (decide (ndim data = 2%nat)).
    + rewrite length_insert. split; [reflexivity |].
      destruct (decide (j = i)) as [-> | Hne].
      * apply list_lookup_insert_eq. apply lookup_lt_Some in Hold. exact Hold.
      * rewrite list_lookup_insert_ne by congruence. exact Hold.
    + split; [reflexivity |]. rewrite Hold. destruct (decide (j = i)); reflexivity.
  - split; [reflexivity |]. rewrite Hold. destruct (decide (j = i)); reflexivity.
Qed.

(** the loop settles the stars it passes and leaves the others alone *)
Lemma proj_loop_lookup (n start j : nat) (name : string)
    (st st' : k2_state) (old : Q) :
  k2_loop_from inp kid start n st = Ok st' ->
  kid !! j = Some name ->
  proj st !! j = Some old ->
  proj st' !! j
  = Some (if decide (start <= j < start + n)%nat
          then settled good (k2_fs inp) name old else old).
Proof.
  revert start st old. induction n as [| n IH]; intros start st old Hloop Hj Hold.
  - cbn in Hloop. injection Hloop as <-. rewrite Hold.
    destruct (decide (start <= j < start + 0)%nat); [lia | reflexivity].
  - unfold k2_loop_from in Hloop. cbn [for_range] in Hloop.
    destruct (kid !! start) as [name0 |] eqn:Hstart; [| discriminate Hloop].
    destruct (k2_body inp (length kid) start name0 st) as [st1 |] eqn:Hbody;
      [| discriminate Hloop].
    cbn [bind] in Hloop.
    destruct (proj_body_lookup start j name0 st st1 old Hbody Hold) as [_ Hj1].
    rewrite (IH (S start) st1 _ Hloop Hj Hj1).
    f_equal.
    destruct (decide (j = start)) as [-> | Hne].
    + assert (name0 = name) as -> by congruence.
      destruct (decide (S start <= start < S start + n)%nat); [lia |].
      destruct (decide (start <= start < start + S n)%nat); [reflexivity | lia].
    + destruct (decide (S start <= j < S start + n)%nat),
               (decide (start <= j < start + S n)%nat); (reflexivity || lia).
Qed.
End K2Loop.

Section K2Counts.
Context (inp : k2_inputs) (kid : list string).

(** instantiate the loop lemma at one of the four arrays *)
Ltac count_loop proj good :=
  intros Hloop Hj Hold;
  apply (proj_loop_lookup inp kid proj good) with (st := _) (3 := Hloop);
  [ intros i0 name0 s0 s1 Htry; rewrite k2_try_total in Htry;
    injection Htry as <-;
    destruct (k2_fs inp !! apfile_of name0) as [data |];
    [destruct (decide (ndim data = 2%nat)) |]; reflexivity
  | intros i0 name0 s0 s1 Hbody;
    destruct (k2_body_inv inp _ _ _ _ _ Hbody)
      as (st1 & more & Htry & C1 & C2 & C3 & C4 & _);
    exists st1; split; [exact Htry | assumption]
  | exact Hj | exact Hold ].

Lemma n_flares1_loop (n start j : nat) (name : string)
    (st st' : k2_state) (old : Q) :
  k2_loop_from inp kid start n st = Ok st' ->
  kid !! j = Some name -> n_flares1 st !! j = Some old ->
  n_flares1 st' !! j
  = Some (if decide (start <= j < start + n)%nat
          then settled good1 (k2_fs inp) name old else old).
Proof. count_loop n_flares1 good1. Qed.

Lemma n_flares2_loop (n start j : nat) (name : string)
    (st st' : k2_state) (old : Q) :
  k2_loop_from inp kid start n st = Ok st' ->
  kid !! j = Some name -> n_flares2 st !! j = Some old ->
  n_flares2 st' !! j
  = Some (if decide (start <= j < start + n)%nat
          then settled good2 (k2_fs inp) name old else old).
Proof. count_loop n_flares2 good2. Qed.

Lemma n_flares3_loop (n start j : nat) (name : string)
    (st st' : k2_state) (old : Q) :
  k2_loop_from inp kid start n st = Ok st' ->
  kid !! j = Some name -> n_flares3 st !! j = Some old ->
  n_flares3 st' !! j
  = Some (if decide (start <= j < start + n)%nat
          then settled good3 (k2_fs inp) name old else old).
Proof. count_loop n_flares3 good3. Qed.

Lemma n_flares4_loop (n start j : nat) (name : string)
    (st st' : k2_state) (old : Q) :
  k2_loop_from inp kid start n st = Ok st' ->
  kid !! j = Some name -> n_flares4 st !! j = Some old ->
  n_flares4 st' !! j
  = Some (if decide (start <= j < start + n)%nat
          then settled good4 (k2_fs inp) name old else old).
Proof. count_loop n_flares4 good4. Qed.

(** a pass of the loop only adds to what has been printed, and it adds the
    warning when the star's file is missing *)
Lemma k2_body_stdout (i : nat) (name : string) (st st' : k2_state) :
  k2_body inp (length kid) i name st = Ok st' ->
  exists more,
    stdout st' = stdout st ++ more
    /\ (k2_fs inp !! apfile_of name = None -> not_found name ∈ more).
Proof.
  intros Hbody.
  destruct (k2_body_inv inp _ _ _ _ _ Hbody)
    as (st1 & more & Htry & _ & _ & _ & _ & Hout).
  rewrite k2_try_total in Htry. injection Htry as <-.
  destruct (k2_fs inp !! apfile_of name) as [data |].
  - exists more. split; [| discriminate].
    rewrite Hout. destruct (decide (ndim data = 2%nat)); reflexivity.
  - exists (not_found name :: more). split.
    + rewrite Hout. cbn. rewrite <- app_assoc. reflexivity.
    + intros _. apply list_elem_of_here.
Qed.

Lemma k2_loop_stdout (n start : nat) (st st' : k2_state) :
  k2_loop_from inp kid start n st = Ok st' ->
  exists more,
    stdout st' = stdout st ++ more
    /\ forall i name,
         (start <= i < start + n)%nat -> kid !! i = Some name ->
         k2_fs inp !! apfile_of name = None -> not_found name ∈ more.
Proof.
  revert start st. induction n as [| n IH]; intros start st Hloop.
  - cbn in Hloop. injection Hloop as <-. exists []. rewrite app_nil_r.
    split; [reflexivity |]. intros i name Hi. lia.
  - unfold k2_loop_from in Hloop. cbn [for_range] in Hloop.
    destruct (kid !! start) as [name0 |] eqn:Hstart; [| discriminate Hloop].
    destruct (k2_body inp (length kid) start name0 st) as [st1 |] eqn:Hbody;
      [| discriminate Hloop].
    cbn [bind] in Hloop.
    destruct (k2_body_stdout _ _ _ _ Hbody) as (m1 & Hm1 & Hw1).
    destruct (IH (S start) st1 Hloop) as (m2 & Hm2 & Hw2).
    exists (m1 ++ m2). split.
    + rewrite Hm2, Hm1, app_assoc. reflexivity.
    + intros i name Hi Hname Hmiss. apply elem_of_app.
      destruct (decide (i = start)) as [-> | Hne].
      * left. assert (name0 = name) as -> by congruence. apply Hw1, Hmiss.
      * right. apply (Hw2 i name); [lia | exact Hname | exact Hmiss].
Qed.
End K2Counts.

Section K2Returns.
Context (inp : k2_inputs) (kid : list string).

Lemma where_from_bound (k : nat) (mask : list bool) :
  Forall (fun x => k <= x < k + length mask)%nat
         (omap (fun '(i, b) => if b : bool then Some i else None)
               (zip (seq k (length mask)) mask)).
Proof.
  revert k. induction mask as [| b mask IH]; intros k; [constructor |].
  cbn [length seq zip zip_with omap].
  assert (Htail : Forall (fun x => k <= x < k + S (length mask))%nat
            (omap (fun '(i, b) => if b : bool then Some i else None)
                  (zip (seq (S k) (length mask)) mask))).
  { eapply Forall_impl; [apply IH |]. cbn. intros x Hx. lia. }
  destruct b; [constructor; [lia | exact Htail] | exact Htail].
Qed.

Lemma np_where_eq_bound (ids : list string) (name : string) :
  Forall (fun x => x < length ids)%nat (np_where_eq ids name).
Proof.
  unfold np_where_eq, np_where.
  eapply Forall_impl; [apply where_from_bound |].
  cbn. intros x Hx. rewrite length_map in Hx. lia.
Qed.

Lemma take_at_single (a : list Q) (x : nat) :
  (x < length a)%nat -> exists q, take_at a [x] = Ok [q].
Proof.
  intros Hx. apply lookup_lt_is_Some in Hx as [q Hq].
  exists q. cbn. rewrite Hq. reflexivity.
Qed.

(** a column of a table that is not a single row is an array *)
Lemma index_column_arrays (a : list Q) (idx : list nat) :
  length a <> 1%nat -> index_column a idx = take_at a idx.
Proof. intros Ha. unfold index_column. rewrite decide_False by exact Ha. reflexivity. Qed.

Lemma index_column_scalar (a : list Q) (idx : list nat) :
  length a = 1%nat -> index_column a idx = Raise IndexError.
Proof. intros Ha. unfold index_column. rewrite decide_True by exact Ha. reflexivity. Qed.

Lemma k2_colors_ok (i : nat) (name : string) (st : k2_state) :
  k2_tables_ok inp kid -> name ∈ kid ->
  exists st', k2_colors inp i name st = Ok st'.
Proof.
  intros ((Hrows & _ & _) & (Hg & Hr & Hi & _) & Huniq) Hname.
  destruct (Huniq name Hname) as [Hkm _].
  pose proof (np_where_eq_bound (kicnum inp) name) as Hb.
  unfold k2_colors. case_bool_decide as Hlen; [| eauto].
  rewrite !index_column_arrays by lia.
  destruct (np_where_eq (kicnum inp) name) as [| x [| y km]];
    cbn [length] in *; [lia | | lia].
  apply Forall_cons in Hb as [Hx _].
  destruct (take_at_single (kic_g inp) x) as [g Eg]; [lia |].
  destruct (take_at_single (kic_i inp) x) as [i1 Ei]; [lia |].
  destruct (take_at_single (kic_r inp) x) as [r Er]; [lia |].
  rewrite Eg. cbn [bind]. rewrite Ei. cbn [bind zip_with set_item].
  rewrite Er. cbn [bind zip_with set_item].
  eauto.
Qed.

Lemma k2_periods_ok (i : nat) (name : string) (st : k2_state) :
  k2_tables_ok inp kid -> name ∈ kid ->
  exists st', k2_periods inp i name st = Ok st'.
Proof.
  intros ((_ & Hrows & _) & (_ & _ & _ & Hp) & Huniq) Hname.
  destruct (Huniq name Hname) as [_ Hpm].
  pose proof (np_where_eq_bound (pnum inp) name) as Hb.
  unfold k2_periods. case_bool_decide as Hlen; [| eauto].
  rewrite !index_column_arrays by lia.
  destruct (np_where_eq (pnum inp) name) as [| x [| y pm]];
    cbn [length] in *; [lia | | lia].
  apply Forall_cons in Hb as [Hx _].
  destruct (take_at_single (prot inp) x) as [p Ep]; [lia |].
  rewrite Ep. cbn [bind set_item]. eauto.
Qed.

Lemma k2_body_ok (i : nat) (name : string) (st : k2_state) :
  k2_tables_ok inp kid -> name ∈ kid ->
  exists st', k2_body inp (length kid) i name st = Ok st'.
Proof.
  intros Hok Hname. unfold k2_body. rewrite k2_try_total. cbn [bind].
  match goal with
  | |- context [k2_colors inp i name ?s] =>
      destruct (k2_colors_ok i name s Hok Hname) as [st2 ->]
  end.
  cbn [bind].
  destruct (k2_periods_ok i name st2 Hok Hname) as [st3 ->]. cbn [bind].
  destruct (decide (i mod 1000 = 0)%nat); eauto.
Qed.

Lemma k2_loop_ok (n start : nat) (st : k2_state) :
  k2_tables_ok inp kid -> (start + n <= length kid)%nat ->
  exists st', k2_loop_from inp kid start n st = Ok st'.
Proof.
  intros Hok. revert start st. induction n as [| n IH]; intros start st Hn.
  - cbn. eauto.
  - unfold k2_loop_from. cbn [for_range].
    destruct (lookup_lt_is_Some_2 kid start) as [name Hname]; [lia |].
    rewrite Hname.
    destruct (k2_body_ok start name st Hok) as [st1 ->].
    { apply list_elem_of_lookup. eauto. }
    cbn [bind]. apply IH. lia.
Qed.

(** ** No [IOError] leaves the loop *)

Lemma bind_not_io {A B : Type} (c : result A) (k : A -> result B) :
  c <> Raise IOError -> (forall a, k a <> Raise IOError) ->
  bind c k <> Raise IOError.
Proof.
  intros Hc Hk. destruct c as [a | e]; cbn; [apply Hk |].
  intros [= ->]. apply Hc. reflexivity.
Qed.

Lemma take_at_not_io (a : list Q) (idx : list nat) :
  take_at a idx <> Raise IOError.
Proof.
  induction idx as [| i idx IH]; cbn; [discriminate |].
  destruct (a !! i); [| discriminate].
  apply bind_not_io; [exact IH | discriminate].
Qed.

Lemma index_column_not_io (a : list Q) (idx : list nat) :
  index_column a idx <> Raise IOError.
Proof.
  unfold index_column. case_decide; [discriminate | apply take_at_not_io].
Qed.

Lemma set_item_not_io (a : list Q) (i : nat) (v : list Q) :
  set_item a i v <> Raise IOError.
Proof. destruct v as [| q [| q' v]]; cbn; discriminate. Qed.

Lemma k2_body_not_io (i : nat) (name : string) (st : k2_state) :
  k2_body inp (length kid) i name st <> Raise IOError.
Proof.
  unfold k2_body. rewrite k2_try_total. cbn [bind].
  apply bind_not_io.
  - unfold k2_colors. case_bool_decide; [| discriminate].
    repeat (apply bind_not_io;
            [first [apply index_column_not_io | apply set_item_not_io] | intros ?]).
    discriminate.
  - intros st2. apply bind_not_io.
    + unfold k2_periods. case_bool_decide; [| discriminate].
      repeat (apply bind_not_io;
              [first [apply index_column_not_io | apply set_item_not_io] | intros ?]).
      discriminate.
    + intros st3. destruct (decide (i mod 1000 = 0)%nat); discriminate.
Qed.

Lemma k2_loop_not_io (n start : nat) (st : k2_state) :
  k2_loop_from inp kid start n st <> Raise IOError.
Proof.
  revert start st. induction n as [| n IH]; intros start st; [discriminate |].
  unfold k2_loop_from. cbn [for_range].
  destruct (kid !! start) as [name |]; [| discriminate].
  apply bind_not_io; [apply k2_body_not_io | intros st1; apply IH].
Qed.
End K2Returns.

Section K2Claim.
Local Open Scope Q_scope.

Lemma k2_rerun_inv (inp : k2_inputs) (kid : list string) (st' : k2_state) :
  k2_mtg_rerun inp kid = Ok st' ->
  exists st, k2_loop_from inp kid 0 (length kid) (k2_init kid) = Ok st
             /\ st' = k2_save st.
Proof.
  unfold k2_mtg_rerun. intros H.
  repeat (case_decide; [discriminate H |]).
  bind_inv H. injection H as <-. eauto.
Qed.

(** ** The run ends the same way whatever files are on disk *)

Lemma same_outcome_bind {A A' B B' : Type} (c : result A) (c' : result A')
    (k : A -> result B) (k' : A' -> result B') :
  same_outcome c c' -> (forall a a', same_outcome (k a) (k' a')) ->
  same_outcome (bind c k) (bind c' k').
Proof.
  destruct c as [a | e], c' as [a' | e']; cbn; intros Hc Hk;
    try contradiction; [apply Hk | exact Hc].
Qed.

Lemma same_outcome_bind_same {A B B' : Type} (c : result A)
    (k : A -> result B) (k' : A -> result B') :
  (forall a, same_outcome (k a) (k' a)) ->
  same_outcome (bind c k) (bind c k').
Proof. destruct c as [a | e]; cbn; intros Hk; [apply Hk | reflexivity]. Qed.

Lemma set_item_outcome (a a' : list Q) (i : nat) (v : list Q) :
  same_outcome (set_item a i v) (set_item a' i v).
Proof. destruct v as [| q [| q' v]]; cbn; trivial. Qed.

Lemma k2_colors_same (inp inp' : k2_inputs) (i : nat) (name : string)
    (st st' : k2_state) :
  same_tables inp inp' ->
  same_outcome (k2_colors inp i name st) (k2_colors inp' i name st').
Proof.
  intros (Hn & Hg & Hr & Hi & _). unfold k2_colors.
  rewrite <- Hn, <- Hg, <- Hr, <- Hi.
  case_bool_decide; [| exact I].
  repeat first [ apply same_outcome_bind_same; intros ?
               | apply same_outcome_bind;
                 [apply set_item_outcome | intros ? ?] ].
  exact I.
Qed.

Lemma k2_periods_same (inp inp' : k2_inputs) (i : nat) (name : string)
    (st st' : k2_state) :
  same_tables inp inp' ->
  same_outcome (k2_periods inp i name st) (k2_periods inp' i name st').
Proof.
  intros (_ & _ & _ & _ & Hn & Hp). unfold k2_periods.
  rewrite <- Hn, <- Hp.
  case_bool_decide; [| exact I].
  apply same_outcome_bind_same; intros p.
  apply same_outcome_bind; [apply set_item_outcome | intros ? ?].
  exact I.
Qed.

Lemma k2_body_same (inp inp' : k2_inputs) (nkid i : nat) (name : string)
    (st st' : k2_state) :
  same_tables inp inp' ->
  same_outcome (k2_body inp nkid i name st) (k2_body inp' nkid i name st').
Proof.
  intros Hsame. unfold k2_body. rewrite !k2_try_total. cbn [bind].
  apply same_outcome_bind; [apply k2_colors_same, Hsame | intros st2 st2'].
  apply same_outcome_bind; [apply k2_periods_same, Hsame | intros st3 st3'].
  destruct (decide (i mod 1000 = 0)%nat); exact I.
Qed.

(** the pass of a star raises what its colour and period matching raise *)
Lemma k2_body_matching (inp : k2_inputs) (nkid i : nat) (name : string)
    (st : k2_state) :
  same_outcome (k2_body inp nkid i name st)
               (st2 <- k2_colors inp i name st ;; k2_periods inp i name st2).
Proof.
  assert (Hsame : same_tables inp inp) by (repeat split).
  unfold k2_body. rewrite k2_try_total. cbn [bind].
  apply same_outcome_bind; [apply k2_colors_same, Hsame | intros st2 st2'].
  destruct (k2_periods inp i name st2) as [st3 |] eqn:E3;
    destruct (k2_periods inp i name st2') as [st3' |] eqn:E3';
    pose proof (k2_periods_same inp inp i name st2 st2' Hsame) as Hp;
    rewrite E3, E3' in Hp; cbn [bind]; try contradiction.
  - destruct (decide (i mod 1000 = 0)%nat); exact I.
  - exact Hp.
Qed.

Lemma k2_loop_same (inp inp' : k2_inputs) (kid : list string)
    (n start : nat) (st st' : k2_state) :
  same_tables inp inp' ->
  same_outcome (k2_loop_from inp kid start n st)
               (k2_loop_from inp' kid start n st').
Proof.
  intros Hsame. revert start st st'.
  induction n as [| n IH]; intros start st st'; [exact I |].
  unfold k2_loop_from. cbn [for_range].
  destruct (kid !! start) as [name |]; [| reflexivity].
  apply same_outcome_bind; [apply k2_body_same, Hsame |].
  intros st1 st1'. apply IH.
Qed.

Lemma k2_rerun_same (inp inp' : k2_inputs) (kid : list string) :
  same_tables inp inp' ->
  same_outcome (k2_mtg_rerun inp kid) (k2_mtg_rerun inp' kid).
Proof.
  intros Hsame. pose proof Hsame as (_ & Hg & _).
  unfold k2_mtg_rerun. rewrite <- Hg.
  case_decide; [reflexivity |]. case_decide; [reflexivity |].
  apply same_outcome_bind; [apply k2_loop_same, Hsame | intros ? ?; exact I].
Qed.

Lemma with_files_same_tables (inp : k2_inputs)
    (fs : gmap string (list ap_flare)) :
  same_tables inp (with_files inp fs).
Proof. repeat split. Qed.

(** C3: when the flare file of star [i] is missing, the [try] statement
    prints the warning that names the file and leaves the counts alone.  No
    exception comes of it: the pass of the star raises only what its colour
    and period matching raise, the whole run ends as it would with any other
    files on disk, and never with [IOError].  After the loop the four counts
    of star [i] are still 0, the warning is in the output, and every star,
    the later ones too, has the counts its own file gives.  With tables read
    as arrays in which no star is listed twice the run returns. *)
Theorem k2_missing_file_skipped (inp : k2_inputs) (kid : list string)
    (i : nat) (name : string)
    (Hi : kid !! i = Some name)
    (Hmiss : k2_fs inp !! apfile_of name = None) :
  (forall st, exists st1,
      k2_try inp i (apfile_of name) st = Ok st1
      /\ n_flares1 st1 = n_flares1 st /\ n_flares2 st1 = n_flares2 st
      /\ n_flares3 st1 = n_flares3 st /\ n_flares4 st1 = n_flares4 st
      /\ stdout st1
         = stdout st ++ [PrintStr (apfile_of name +:+ " was not found!")])
  /\ (forall st,
        same_outcome (k2_body inp (length kid) i name st)
                     (st2 <- k2_colors inp i name st ;;
                      k2_periods inp i name st2))
  /\ (forall fs,
        same_outcome (k2_mtg_rerun inp kid)
                     (k2_mtg_rerun (with_files inp fs) kid))
  /\ k2_mtg_rerun inp kid <> Raise IOError
  /\ (forall st', k2_mtg_rerun inp kid = Ok st' ->
        n_flares1 st' !! i = Some 0 /\ n_flares2 st' !! i = Some 0
        /\ n_flares3 st' !! i = Some 0 /\ n_flares4 st' !! i = Some 0
        /\ PrintStr (apfile_of name +:+ " was not found!") ∈ stdout st'
        /\ forall j name_j,
            kid !! j = Some name_j ->
            n_flares1 st' !! j = Some (settled good1 (k2_fs inp) name_j 0)
            /\ n_flares2 st' !! j = Some (settled good2 (k2_fs inp) name_j 0)
            /\ n_flares3 st' !! j = Some (settled good3 (k2_fs inp) name_j 0)
            /\ n_flares4 st' !! j = Some (settled good4 (k2_fs inp) name_j 0))
  /\ (k2_tables_ok inp kid -> exists st', k2_mtg_rerun inp kid = Ok st').
Proof.
  split; [| split; [| split; [| split; [| split]]]].
  - intros st. eexists. rewrite k2_try_total, Hmiss.
    split; [reflexivity |]. repeat split.
  - intros st. apply k2_body_matching.
  - intros fs. apply k2_rerun_same, with_files_same_tables.
  - unfold k2_mtg_rerun.
    repeat (case_decide; [discriminate |]).
    apply bind_not_io; [apply k2_loop_not_io |]. discriminate.
  - intros st' Hrun.
    apply k2_rerun_inv in Hrun as (st & Hloop & ->).
    assert (Hall : forall j name_j,
               kid !! j = Some name_j ->
               n_flares1 st !! j = Some (settled good1 (k2_fs inp) name_j 0)
               /\ n_flares2 st !! j = Some (settled good2 (k2_fs inp) name_j 0)
               /\ n_flares3 st !! j = Some (settled good3 (k2_fs inp) name_j 0)
               /\ n_flares4 st !! j = Some (settled good4 (k2_fs inp) name_j 0)).
    { intros j name_j Hj.
      assert (Hlt : (j < length kid)%nat) by (eapply lookup_lt_Some; eauto).
      assert (Hz : replicate (length kid) 0 !! j = Some 0)
        by (apply lookup_replicate_2; exact Hlt).
      pose proof (n_flares1_loop inp kid _ _ j name_j _ _ 0 Hloop Hj Hz) as H1.
      pose proof (n_flares2_loop inp kid _ _ j name_j _ _ 0 Hloop Hj Hz) as H2.
      pose proof (n_flares3_loop inp kid _ _ j name_j _ _ 0 Hloop Hj Hz) as H3.
      pose proof (n_flares4_loop inp kid _ _ j name_j _ _ 0 Hloop Hj Hz) as H4.
      destruct (decide (0 <= j < 0 + length kid)%nat); [| lia].
      repeat split; assumption. }
    cbn [k2_save n_flares1 n_flares2 n_flares3 n_flares4 stdout].
    destruct (Hall i name Hi) as (H1 & H2 & H3 & H4).
    unfold settled in H1, H2, H3, H4. rewrite Hmiss in H1, H2, H3, H4.
    repeat (split; [assumption |]). split; [| exact Hall].
    destruct (k2_loop_stdout inp kid _ _ _ _ Hloop) as (more & -> & Hw).
    apply elem_of_app. right.
    apply (Hw i name); [| exact Hi | exact Hmiss].
    apply lookup_lt_Some in Hi. lia.
  - intros Hok. pose proof Hok as ((Hrows & _ & Hkid) & (Hg & _) & _).
    unfold k2_mtg_rerun. rewrite !decide_False by lia.
    destruct (k2_loop_ok inp kid (length kid) 0 (k2_init kid) Hok) as [st ->];
      [lia |].
    cbn [bind]. eauto.
Qed.

Lemma k2_missing_file_skipped_witness :
  ex_kid !! 0%nat = Some "100200"
  /\ k2_fs ex_k2_inputs !! apfile_of "100200" = None
  /\ k2_tables_ok ex_k2_inputs ex_kid
  /\ exists st', k2_mtg_rerun ex_k2_inputs ex_kid = Ok st'
                 /\ n_flares1 st' = [0; 2]
                 /\ periods st' = [12; -99]
                 /\ PrintStr "aprun/100/100200.flare was not found!"
                    ∈ stdout st'.
Proof.
  assert (Hi : ex_kid !! 0%nat = Some "100200") by reflexivity.
  assert (Hmiss : k2_fs ex_k2_inputs !! apfile_of "100200" = None)
    by (vm_compute; reflexivity).
  assert (Hok : k2_tables_ok ex_k2_inputs ex_kid).
  { split; [repeat split; cbn; lia |]. split; [repeat split |].
    intros name Hin. unfold ex_kid in Hin.
    repeat (apply elem_of_cons in Hin as [-> | Hin]);
      [vm_compute; lia .. | inversion Hin]. }
  split; [exact Hi |]. split; [exact Hmiss |]. split; [exact Hok |].
  destruct (k2_missing_file_skipped ex_k2_inputs ex_kid 0 "100200" Hi Hmiss)
    as (_ & _ & _ & _ & Hafter & Hret).
  destruct (Hret Hok) as [st' Hrun]. exists st'. split; [exact Hrun |].
  destruct (Hafter st' Hrun) as (_ & _ & _ & _ & Hw & _).
  assert (Hval : k2_mtg_rerun ex_k2_inputs ex_kid
                 = Ok st' -> n_flares1 st' = [0; 2] /\ periods st' = [12; -99]).
  { intros Hr. vm_compute in Hr. injection Hr as <-. split; reflexivity. }
  destruct (Hval Hrun) as [Hn Hp].
  split; [exact Hn |]. split; [exact Hp | exact Hw].
Defined.
End K2Claim.

(** ** paper1_plots: the cumulative flare frequency distribution *)

Section Cumsum.
Local Open Scope Q_scope.

Lemma np_div_pos (s c : Q) : 0 < c -> np_div (Fin s) (Fin c) = Fin (s / c).
Proof.
  intros Hc. cbn [np_div sc_sgn sc_div Q_scalar].
  assert (Hgt : (c ?= 0) = Gt) by (apply Qgt_alt; exact Hc).
  rewrite Hgt. reflexivity.
Qed.

Lemma np_div_zero_zero (s c : Q) :
  s == 0 -> c == 0 -> np_div (Fin s) (Fin c) = NaN.
Proof.
  intros Hs Hc. cbn [np_div sc_sgn sc_div Q_scalar].
  apply Qeq_alt in Hs, Hc. rewrite Hs, Hc. reflexivity.
Qed.

(** every entry of the running sum is the one before plus the next term *)
Lemma cumsum_from_step (l : list (npfloat Q)) (acc x y : npfloat Q) (j : nat) :
  (acc :: cumsum_from acc l) !! j = Some x ->
  l !! j = Some y ->
  cumsum_from acc l !! j = Some (np_add x y).
Proof.
  revert acc j. induction l as [| z l IH]; intros acc j Hx Hy;
    [destruct j; discriminate |].
  destruct j as [| j]; cbn in *.
  - injection Hx as <-. injection Hy as <-. reflexivity.
  - apply (IH (np_add acc z) j); assumption.
Qed.

Lemma np_cumsum_step (l : list (npfloat Q)) (x y : npfloat Q) (j : nat) :
  np_cumsum l !! j = Some x ->
  l !! S j = Some y ->
  np_cumsum l !! S j = Some (np_add x y).
Proof.
  destruct l as [| z l]; [discriminate |]. cbn [np_cumsum].
  intros Hx Hy. apply cumsum_from_step; assumption.
Qed.

Lemma np_cumsum_length (l : list (npfloat Q)) :
  length (np_cumsum l) = length l.
Proof.
  destruct l as [| z l]; [reflexivity |]. cbn. f_equal.
  generalize z. induction l as [| y l IH]; intros acc; [reflexivity |].
  cbn. f_equal. apply IH.
Qed.

(** a rate of the reversed arrays, and the bin it comes from *)
Lemma ffd_rates_lookup (fsum fnorm : list Q) (i : nat) (x : npfloat Q) :
  ffd_rates fsum fnorm !! i = Some x ->
  exists s c, zip (reverse fsum) (reverse fnorm) !! i = Some (s, c)
              /\ x = np_div (Fin s) (Fin c).
Proof.
  unfold ffd_rates. intros Hx.
  apply lookup_zip_with_Some in Hx as (s & c & -> & Hs & Hc).
  exists s, c. split; [| reflexivity].
  apply lookup_zip_with_Some. eauto.
Qed.

Lemma defined_rate (fsum fnorm : list Q) (j i : nat) (x : npfloat Q) :
  rates_defined_upto fsum fnorm j -> (i <= j)%nat ->
  ffd_rates fsum fnorm !! i = Some x ->
  exists r, x = Fin r /\ 0 <= r.
Proof.
  unfold rates_defined_upto. intros Hdef Hi Hx.
  apply ffd_rates_lookup in Hx as (s & c & Hsc & ->).
  rewrite Forall_lookup in Hdef.
  destruct (Hdef i (s, c)) as [Hc Hr].
  { rewrite lookup_take_lt by lia. exact Hsc. }
  cbn [fst snd] in Hc, Hr. exists (s / c). split; [| exact Hr].
  apply np_div_pos, Hc.
Qed.

(** while the rates are defined, the running sum is finite *)
Lemma ffd_y_defined (fsum fnorm : list Q) (j : nat) :
  rates_defined_upto fsum fnorm j ->
  (j < length (ffd_y_of fsum fnorm))%nat ->
  exists a, ffd_y_of fsum fnorm !! j = Some (Fin a).
Proof.
  unfold ffd_y_of. rewrite np_cumsum_length.
  induction j as [| j IH]; intros Hdef Hlen.
  - destruct (lookup_lt_is_Some_2 _ _ Hlen) as [x Hx].
    destruct (defined_rate fsum fnorm 0 0 x Hdef (le_n _) Hx) as (r & -> & _).
    exists r. destruct (ffd_rates fsum fnorm); [discriminate |].
    cbn in *. exact Hx.
  - destruct IH as [a Ha]; [| lia |].
    { unfold rates_defined_upto in *. rewrite Forall_lookup in *.
      intros i sc Hi. apply (Hdef i).
      apply lookup_take_Some in Hi as [Hi Hlt].
      rewrite lookup_take_lt by lia. exact Hi. }
    destruct (lookup_lt_is_Some_2 _ _ Hlen) as [x Hx].
    destruct (defined_rate fsum fnorm (S j) (S j) x Hdef (le_n _) Hx)
      as (r & -> & _).
    exists (a + r). apply (np_cumsum_step _ _ _ _ Ha Hx).
Qed.
End Cumsum.

Section FFDClaim.
Local Open Scope Q_scope.

Lemma rates_defined_weaken (fsum fnorm : list Q) (j : nat) :
  rates_defined_upto fsum fnorm (S j) -> rates_defined_upto fsum fnorm j.
Proof.
  unfold rates_defined_upto. rewrite !Forall_lookup.
  intros Hdef i sc Hi. apply (Hdef i).
  apply lookup_take_Some in Hi as [Hi Hlt].
  rewrite lookup_take_lt by lia. exact Hi.
Qed.

(** C8, as amended: when the averaged rates of the bins up to and including
    [j+1] are defined and not negative, [ffd_y[j] <= ffd_y[j+1]]. *)
Theorem ffd_y_cumulative (fsum fnorm : list Q) (j : nat)
    (Hdef : rates_defined_upto fsum fnorm (S j))
    (Hlen : (S j < length (ffd_y_of fsum fnorm))%nat) :
  exists a b,
    ffd_y_of fsum fnorm !! j = Some (Fin a)
    /\ ffd_y_of fsum fnorm !! S j = Some (Fin b)
    /\ a <= b
    /\ np_leb (Fin a) (Fin b) = true.
Proof.
  destruct (ffd_y_defined fsum fnorm j) as [a Ha];
    [apply rates_defined_weaken, Hdef | lia |].
  assert (Hlen' : (S j < length (ffd_rates fsum fnorm))%nat).
  { unfold ffd_y_of in Hlen. rewrite np_cumsum_length in Hlen. exact Hlen. }
  destruct (lookup_lt_is_Some_2 _ _ Hlen') as [x Hx].
  destruct (defined_rate fsum fnorm (S j) (S j) x Hdef (le_n _) Hx)
    as (r & -> & Hr).
  exists a, (a + r). split; [exact Ha |]. split.
  - unfold ffd_y_of in *. apply (np_cumsum_step _ _ _ _ Ha Hx).
  - assert (Hle : a <= a + r) by qlra.
    split; [exact Hle |]. cbn. apply Qle_bool_iff, Hle.
Qed.

Lemma ffd_y_cumulative_witness :
  rates_defined_upto (fst (ffd_sums ex_star)) (snd (ffd_sums ex_star)) 1
  /\ (1 < length (ffd_y_of (fst (ffd_sums ex_star)) (snd (ffd_sums ex_star))))%nat
  /\ exists a b,
       ffd_y_of (fst (ffd_sums ex_star)) (snd (ffd_sums ex_star)) !! 0%nat
       = Some (Fin a)
       /\ ffd_y_of (fst (ffd_sums ex_star)) (snd (ffd_sums ex_star)) !! 1%nat
          = Some (Fin b)
       /\ a <= b
       /\ np_leb (Fin a) (Fin b) = true.
Proof.
  assert (Hdef : rates_defined_upto (fst (ffd_sums ex_star))
                                    (snd (ffd_sums ex_star)) 1).
  { unfold rates_defined_upto. vm_compute.
    repeat (constructor; [split; [reflexivity | discriminate] |]).
    constructor. }
  assert (Hlen : (1 < length (ffd_y_of (fst (ffd_sums ex_star))
                                       (snd (ffd_sums ex_star))))%nat).
  { vm_compute. lia. }
  split; [exact Hdef |]. split; [exact Hlen |].
  exact (ffd_y_cumulative _ _ 0 Hdef Hlen).
Defined.

(** C8, as stated, fails: with the rates of the bins up to [j = 25] defined
    and not negative, bin 26 of the sample star was never counted
    ([fnorm = 0]), its rate [0/0] is NaN, so is [ffd_y[26]], and
    [ffd_y[25] <= ffd_y[26]] is false. *)
Lemma ffd_y_nan_past_counted_bins :
  rates_defined_upto (fst (ffd_sums ex_star)) (snd (ffd_sums ex_star)) 25
  /\ (26 < length (ffd_y_of (fst (ffd_sums ex_star)) (snd (ffd_sums ex_star))))%nat
  /\ reverse (snd (ffd_sums ex_star)) !! 26%nat = Some 0
  /\ (exists a,
        ffd_y_of (fst (ffd_sums ex_star)) (snd (ffd_sums ex_star)) !! 25%nat
        = Some (Fin a))
  /\ ffd_y_of (fst (ffd_sums ex_star)) (snd (ffd_sums ex_star)) !! 26%nat
     = Some NaN
  /\ ~ (exists a b,
          ffd_y_of (fst (ffd_sums ex_star)) (snd (ffd_sums ex_star)) !! 25%nat
          = Some a
          /\ ffd_y_of (fst (ffd_sums ex_star)) (snd (ffd_sums ex_star)) !! 26%nat
             = Some b
          /\ np_leb a b = true).
Proof.
  assert (Hnan : ffd_y_of (fst (ffd_sums ex_star)) (snd (ffd_sums ex_star))
                   !! 26%nat = Some NaN) by (vm_compute; reflexivity).
  split.
  { unfold rates_defined_upto. vm_compute.
    repeat (constructor; [split; [reflexivity | discriminate] |]).
    constructor. }
  split; [vm_compute; lia |].
  split; [vm_compute; reflexivity |].
  split; [eexists; vm_compute; reflexivity |].
  split; [exact Hnan |].
  intros (a & b & Ha & Hb & Hle).
  rewrite Hnan in Hb. injection Hb as <-.
  destruct a; discriminate Hle.
Qed.
End FFDClaim.

(** ** paper1_plots: the per-star arrays and the output table *)

Section IndexedFold.
Context {St B V : Type} (f : St -> nat * B -> St) (proj : St -> list V)
        (v : B -> option V).
Hypothesis proj_step : forall st i x,
  proj (f st (i, x)) = match v x with
                       | Some y => <[i := y]> (proj st)
                       | None => proj st
                       end.

Lemma indexed_fold_length (l : list B) (start : nat) (st : St) :
  length (proj (foldl f st (zip (seq start (length l)) l))) = length (proj st).
Proof.
  revert start st. induction l as [| x l IH]; intros start st; [reflexivity |].
  cbn [length seq zip zip_with foldl].
  rewrite IH, proj_step. destruct (v x); [apply length_insert | reflexivity].
Qed.

(** a loop that writes entry [i] in pass [i] leaves, at every index, what
    the pass of that index wrote *)
Lemma indexed_fold_lookup (l : list B) (start j : nat) (st : St) (old : V) :
  proj st !! j = Some old ->
  proj (foldl f st (zip (seq start (length l)) l)) !! j
  = Some match (if decide (start <= j) then l !! (j - start) else None) with
         | Some x => default old (v x)
         | None => old
         end.
Proof.
  revert start st old. induction l as [| x l IH]; intros start st old Hold.
  - cbn. rewrite Hold. destruct (decide (start <= j)); reflexivity.
  - cbn [length seq zip zip_with foldl].
    assert (Hj : proj (f st (start, x)) !! j
                 = Some (if decide (j = start) then default old (v x) else old)).
    { rewrite proj_step. destruct (v x) as [y |]; cbn.
      - destruct (decide (j = start)) as [-> | Hne].
        + apply list_lookup_insert_eq. apply lookup_lt_Some in Hold. exact Hold.
        + rewrite list_lookup_insert_ne by congruence. exact Hold.
      - rewrite Hold. destruct (decide (j = start)); reflexivity. }
    rewrite (IH (S start) _ _ Hj). f_equal.
    destruct (decide (j = start)) as [-> | Hne].
    + destruct (decide (S start <= start)); [lia |].
      destruct (decide (start <= start)); [| lia].
      replace (start - start)%nat with 0%nat by lia. reflexivity.
    + destruct (decide (S start <= j)), (decide (start <= j)); try lia;
        [| reflexivity].
      replace (j - start)%nat with (S (j - S start)) by lia. reflexivity.
Qed.
End IndexedFold.

Section LflareClaim.
Local Open Scope Q_scope.
Context (fdata : list condor_row) (kicdata : list kic_row).

Let kicnum_c := kicnum_c_of fdata.
Let bigdata := bigdata_of kicdata kicnum_c.





End LflareClaim.


Section StarLists.
Local Open Scope Q_scope.

Lemma unique_from_spec (seen l : list Z) :
  NoDup (unique_from seen l)
  /\ (forall x, x ∈ unique_from seen l <-> x ∈ l /\ x ∉ seen)
  /\ unique_from seen l `sublist_of` l.
Proof.
  revert seen. induction l as [| y l IH]; intros seen.
  - cbn. split; [constructor |]. split; [| constructor].
    intros x. split; [intros H; inversion H | intros [H _]; inversion H].
  - cbn [unique_from]. destruct (decide (y ∈ seen)) as [Hin | Hnot].
    + destruct (IH seen) as (Hnd & Hmem & Hsub). split; [exact Hnd |]. split.
      * intros x. rewrite Hmem, elem_of_cons. split; [tauto |].
        intros [[-> | Hx] Hs]; [contradiction | tauto].
      * apply sublist_cons, Hsub.
    + destruct (IH (y :: seen)) as (Hnd & Hmem & Hsub). split; [| split].
      * constructor; [| exact Hnd]. rewrite Hmem, elem_of_cons. tauto.
      * intros x. rewrite !elem_of_cons, Hmem, elem_of_cons. split.
        -- intros [-> | [Hx Hs]]; [tauto |]. tauto.
        -- intros [[-> | Hx] Hs]; [tauto |].
           destruct (decide (x = y)); [tauto |]. tauto.
      * apply sublist_skip, Hsub.
Qed.

(** sums of rationals *)
Lemma foldl_Qplus (a : Q) (l : list Q) : foldl Qplus a l == a + np_sum l.
Proof.
  unfold np_sum. revert a. induction l as [| x l IH]; intros a.
  - cbn. ring.
  - cbn [foldl]. rewrite (IH (a + x)), (IH (0 + x)). ring.
Qed.

Lemma np_sum_cons (x : Q) (l : list Q) : np_sum (x :: l) == x + np_sum l.
Proof. unfold np_sum at 1. cbn [foldl]. rewrite foldl_Qplus. ring. Qed.


End StarLists.





(** * Further properties of the code *)

(** [nra] over the reals *)
Ltac rnra := Lra.nra.

(** ** The scalar helpers *)

Section ScalarHelpers.
Local Open Scope R_scope.

Lemma Rpower10_pos (y : R) : 0 < Rpower 10 y.
Proof. unfold Rpower. apply exp_pos. Qed.

Lemma Rpower10_lt (y z : R) : y < z -> Rpower 10 y < Rpower 10 z.
Proof. intros Hyz. apply Rpower_lt; [rlra | exact Hyz]. Qed.

Lemma Rpower10_1 : Rpower 10 1 = 10.
Proof. apply Rpower_1. rlra. Qed.

Lemma log10_mult (a b : R) : 0 < a -> 0 < b -> log10 (a * b) = log10 a + log10 b.
Proof.
  intros Ha Hb. unfold log10. rewrite ln_mult by assumption.
  field. apply Rgt_not_eq, ln10_pos.
Qed.

Lemma pow2_gt_0 (x : R) : x <> 0 -> 0 < x ^ 2.
Proof.
  intros Hx. replace (x ^ 2) with (x * x) by ring.
  destruct (Rtotal_order x 0) as [Hlt | [Heq | Hgt]]; [| contradiction |]; rnra.
Qed.

Lemma c_light_pos : 0 < c_light.
Proof. unfold c_light. rlra. Qed.
End ScalarHelpers.

Section ScalarExtras.
Local Open Scope R_scope.

(** X1: with a non-zero reference wavelength and a positive band width the
    flux [_ABmag2flux] returns is positive, it falls by a factor ten for
    every 2.5 magnitudes, and a fainter magnitude gives a strictly smaller
    flux. *)
Theorem ABmag2flux_pogson (mag zeropt wave0 fwhm : R)
    (Hw : wave0 <> 0) (Hf : 0 < fwhm) :
  0 < _ABmag2flux mag zeropt wave0 fwhm
  /\ _ABmag2flux (mag + 2.5) zeropt wave0 fwhm
     = _ABmag2flux mag zeropt wave0 fwhm / 10
  /\ forall mag' : R,
       mag < mag' ->
       _ABmag2flux mag' zeropt wave0 fwhm < _ABmag2flux mag zeropt wave0 fwhm.
Proof.
  assert (Hw2 : 0 < wave0 ^ 2) by (apply pow2_gt_0; exact Hw).
  assert (Hk : 0 < c_light / wave0 ^ 2 * fwhm).
  { apply Rmult_lt_0_compat; [| exact Hf].
    apply Rdiv_lt_0_compat; [apply c_light_pos | exact Hw2]. }
  assert (Hshape : forall m, _ABmag2flux m zeropt wave0 fwhm
                             = Rpower 10 ((m + zeropt) / (-2.5))
                               * (c_light / wave0 ^ 2 * fwhm)).
  { intros m. unfold _ABmag2flux. field. exact Hw. }
  rewrite !Hshape. split; [| split].
  - apply Rmult_lt_0_compat; [apply Rpower10_pos | exact Hk].
  - replace ((mag + 2.5 + zeropt) / -2.5)
      with ((mag + zeropt) / -2.5 + - (1)) by rlra.
    rewrite Rpower_plus, Rpower_Ropp, Rpower10_1. field. exact Hw.
  - intros mag' Hlt. rewrite Hshape.
    apply Rmult_lt_compat_r; [exact Hk |].
    apply Rpower10_lt. rlra.
Qed.

Lemma ABmag2flux_pogson_witness :
  wave0_default <> 0 /\ 0 < fwhm_default
  /\ 0 < _ABmag2flux 12 zeropt_default wave0_default fwhm_default.
Proof.
  assert (Hw : wave0_default <> 0) by (unfold wave0_default; rlra).
  assert (Hf : 0 < fwhm_default) by (unfold fwhm_default; rlra).
  split; [exact Hw |]. split; [exact Hf |].
  apply (ABmag2flux_pogson 12 zeropt_default wave0_default fwhm_default Hw Hf).
Defined.

(** X2: a star whose apparent and absolute magnitudes are equal is put at
    10 pc, five magnitudes more of apparent magnitude multiply the distance
    by ten, and the distance grows strictly with the apparent magnitude. *)
Theorem DistModulus_scale (m_app m_app' M_abs : R) (Hlt : m_app < m_app') :
  _DistModulus M_abs M_abs = 10
  /\ _DistModulus (m_app + 5) M_abs = 10 * _DistModulus m_app M_abs
  /\ _DistModulus m_app M_abs < _DistModulus m_app' M_abs.
Proof.
  unfold _DistModulus. split; [| split].
  - replace ((M_abs - M_abs) / 5 + 1) with 1 by rlra. apply Rpower10_1.
  - replace ((m_app + 5 - M_abs) / 5 + 1)
      with (1 + ((m_app - M_abs) / 5 + 1)) by rlra.
    rewrite Rpower_plus, Rpower10_1. reflexivity.
  - apply Rpower10_lt. rlra.
Qed.

Lemma DistModulus_scale_witness :
  0 < 1 /\ _DistModulus 0 4 < _DistModulus 1 4.
Proof.
  split; [rlra |].
  apply (DistModulus_scale 0 1 4). rlra.
Defined.

(** X3: the luminosity [energies] returns depends on its inputs through the
    interpolated absolute Kepler magnitude alone: the distance modulus that
    enters the flux is undone by the squared distance, leaving
    [log10 L = 2 - 0.4 (Mkp_o + 48.6) + log10 (4 pi pc2cm^2 c fwhm / wave0^2)];
    the distance returned with it is [_DistModulus(kmag, Mk_o)]. *)
Theorem energies_distance_cancels (kmag Mkp_o Mk_o : R) :
  fst (energies_after_interp kmag Mkp_o Mk_o)
  = 2 - 0.4 * (Mkp_o + zeropt_default)
    + log10 (4 * PI * pc2cm ^ 2 * (c_light / wave0_default ^ 2 * fwhm_default))
  /\ snd (energies_after_interp kmag Mkp_o Mk_o) = _DistModulus kmag Mk_o
  /\ forall kmag' Mk_o' : R,
       fst (energies_after_interp kmag' Mkp_o Mk_o')
       = fst (energies_after_interp kmag Mkp_o Mk_o).
Proof.
  assert (Hval : forall k Mk,
             fst (energies_after_interp k Mkp_o Mk)
             = 2 - 0.4 * (Mkp_o + zeropt_default)
               + log10 (4 * PI * pc2cm ^ 2
                        * (c_light / wave0_default ^ 2 * fwhm_default))).
  { intros k Mk. unfold energies_after_interp. cbn [fst].
    unfold _ABmag2flux, _DistModulus.
    set (dm := k - Mk).
    assert (Hconst : 0 < 4 * PI * pc2cm ^ 2
                         * (c_light / wave0_default ^ 2 * fwhm_default)).
    { pose proof PI_RGT_0 as Hpi. pose proof c_light_pos as Hc.
      assert (0 < pc2cm ^ 2) by (apply pow2_gt_0; unfold pc2cm; rlra).
      assert (0 < wave0_default ^ 2)
        by (apply pow2_gt_0; unfold wave0_default; rlra).
      assert (0 < fwhm_default) by (unfold fwhm_default; rlra).
      assert (0 < 4 * PI) by rlra.
      assert (0 < c_light / wave0_default ^ 2)
        by (apply Rdiv_lt_0_compat; assumption).
      apply Rmult_lt_0_compat; apply Rmult_lt_0_compat; assumption. }
    replace (Rpower 10 ((Mkp_o + dm + zeropt_default) / -2.5) * c_light
             / wave0_default ^ 2 * fwhm_default
             * (4.0 * PI * (Rpower 10 (dm / 5 + 1) * pc2cm) ^ 2))
      with (Rpower 10 ((Mkp_o + dm + zeropt_default) / -2.5
                       + ((dm / 5 + 1) + (dm / 5 + 1)))
            * (4 * PI * pc2cm ^ 2
               * (c_light / wave0_default ^ 2 * fwhm_default))).
    - rewrite log10_mult by (apply Rpower10_pos || exact Hconst).
      rewrite log10_Rpower. unfold dm. rlra.
    - rewrite !Rpower_plus.
      set (P := Rpower 10 ((Mkp_o + dm + zeropt_default) / -2.5)).
      set (D := Rpower 10 (dm / 5)). set (T := Rpower 10 1).
      replace 4.0 with 4 by rlra. field.
      unfold wave0_default. rlra. }
  split; [apply Hval |]. split; [reflexivity |].
  intros kmag' Mk_o'. rewrite !Hval. reflexivity.
Qed.

(** X4: for a count [n >= 1] the lower Poisson error is a positive number
    below [n], so the lower limit [n - err_dn] stays positive; the upper
    error exceeds 1. *)
Theorem Perror_bounds_of_a_count (n : R) (Hn : 1 <= n) :
  exists dn up : R,
    _Perror (Fin n) true false = Both (Fin dn) (Fin up)
    /\ 0 < dn /\ dn < n /\ 1 < up.
Proof.
  exists (gehrels_dn n), (gehrels_up n).
  unfold _Perror. rewrite Perror_err_dn_pos, Perror_err_up_nonneg by rlra.
  split; [reflexivity |].
  assert (Hs : 1 <= sqrt n).
  { rewrite <- sqrt_1. apply sqrt_le_1_alt. exact Hn. }
  assert (Hss : sqrt n * sqrt n = n) by (apply sqrt_sqrt; rlra).
  set (s := sqrt n) in *.
  assert (Ha : 0 < / (9 * n) <= / 9).
  { split; [apply Rinv_0_lt_compat; rlra |].
    apply Rinv_le_contravar; rlra. }
  assert (Hb : 0 < / (3 * s) <= / 3).
  { split; [apply Rinv_0_lt_compat; rlra |].
    apply Rinv_le_contravar; rlra. }
  unfold gehrels_dn, gehrels_up. fold s.
  unfold Rdiv. rewrite !Rmult_1_l.
  set (a := / (9 * n)) in *. set (b := / (3 * s)) in *.
  assert (Hx : 5 / 9 <= 1 - a - b < 1) by rlra.
  set (x := 1 - a - b) in *.
  assert (Hx3 : 0 < x ^ 3 < 1).
  { assert (Hx2 : 0 < x * x < 1) by rnra.
    replace (x ^ 3) with (x * (x * x)) by ring. rnra. }
  assert (Hneg : n * x ^ 3 - n < 0) by rnra.
  rewrite Rabs_left by exact Hneg.
  assert (Hroot : 0 < sqrt (n + 0.75)) by (apply sqrt_lt_R0; rlra).
  repeat split; rnra.
Qed.

Lemma Perror_bounds_of_a_count_witness :
  1 <= 4
  /\ exists dn up : R,
       _Perror (Fin 4) true false = Both (Fin dn) (Fin up)
       /\ 0 < dn /\ dn < 4 /\ 1 < up.
Proof.
  split; [rlra |].
  apply (Perror_bounds_of_a_count 4). rlra.
Defined.

(** X5: nothing guards a negative input: for [n < 0] the square root makes
    the lower error NaN in both modes that return it, and below -0.75 the
    upper error is NaN as well. *)
Theorem Perror_negative_is_nan (n : R) (Hn : n < 0) :
  _Perror (Fin n) false true = One NaN
  /\ (exists up, _Perror (Fin n) true false = Both NaN up)
  /\ (n < -0.75 -> _Perror (Fin n) false false = One NaN)
  /\ (-0.75 <= n -> _Perror (Fin n) false false = One (Fin (gehrels_up n))).
Proof.
  assert (Hdn : Perror_err_dn (Fin n) = NaN).
  { unfold Perror_err_dn. unfold np_sqrt at 1.
    rewrite (Rsgn_neg n Hn). np_step.
    rewrite np_div_real by rlra. reflexivity. }
  unfold _Perror. rewrite Hdn.
  split; [reflexivity |]. split; [eexists; reflexivity |]. split.
  - intros Hlow. unfold Perror_err_up. np_step. unfold np_sqrt.
    rewrite (Rsgn_neg (n + 0.75)) by rlra. reflexivity.
  - intros Hhigh. unfold Perror_err_up, gehrels_up. np_step.
    rewrite np_sqrt_real by rlra. np_step. do 2 f_equal. ring.
Qed.

Lemma Perror_negative_is_nan_witness :
  -1 < 0 /\ _Perror (Fin (-1)) false true = One NaN.
Proof.
  split; [rlra |].
  apply (Perror_negative_is_nan (-1)). rlra.
Defined.
End ScalarExtras.

(** ** benchmark: the statistics *)

Section BenchmarkExtras.
Local Open Scope Q_scope.

Lemma aptime_from (time : list Q) (apdata : list ap_flare) (g : Q -> bool) :
  foldl (fun flags r => mark time (t_start r) (t_stop r) flags)
        (map (fun t => if g t then 1 else 0) time) apdata
  = map (fun t =>
           if g t || existsb (fun ap => in_interval (t_start ap) (t_stop ap) t)
                             apdata
           then 1 else 0) time.
Proof.
  revert g. induction apdata as [| ap apdata IH]; intros g.
  - cbn [foldl existsb]. apply map_ext. intros t.
    rewrite orb_false_r. reflexivity.
  - cbn [foldl existsb]. rewrite mark_map, IH. apply map_ext. intros t.
    rewrite orb_assoc. reflexivity.
Qed.

(** [aptime] flags the samples inside some appaloosa flare *)
Lemma aptime_of_map (time : list Q) (apdata : list ap_flare) :
  aptime_of time apdata
  = map (fun t =>
           if existsb (fun ap => in_interval (t_start ap) (t_stop ap) t) apdata
           then 1 else 0) time.
Proof.
  unfold aptime_of. rewrite zeros_like_as_map.
  apply (aptime_from time apdata (fun _ => false)).
Qed.

Lemma zip_with_map_same {B C D E : Type} (f : C -> D -> E) (g : B -> C)
    (h : B -> D) (l : list B) :
  zip_with f (map g l) (map h l) = map (fun x => f (g x) (h x)) l.
Proof.
  induction l as [| x l IH]; [reflexivity |]. cbn. f_equal. exact IH.
Qed.

Lemma count_both (time : list Q) (apdata : list ap_flare)
    (fbdata : list fb_flare) :
  count_true (zip_with (fun f a => Qeq_bool f 1 && Qeq_bool a 1)
                       (fbtime_of time fbdata) (aptime_of time apdata))
  = length (both_covered time apdata fbdata).
Proof.
  rewrite fbtime_of_map, aptime_of_map, zip_with_map_same, count_true_map.
  unfold both_covered. f_equal. apply list_filter_iff. intros t.
  destruct (existsb _ fbdata), (existsb _ apdata); split; intros Hc;
    vm_compute in Hc |- *; congruence.
Qed.

Lemma np_sum_aptime (time : list Q) (apdata : list ap_flare) :
  np_sum (aptime_of time apdata)
  == float_of_nat (length (ap_covered time apdata)).
Proof. rewrite aptime_of_map. apply np_sum_indicator. Qed.

Lemma filter_length_mono {B : Type} (P P' : B -> Prop)
    `{forall x, Decision (P x)} `{forall x, Decision (P' x)} (l : list B) :
  (forall x, P x -> P' x) ->
  (length (filter P l) <= length (filter P' l))%nat.
Proof.
  intros Himp. induction l as [| x l IH]; [reflexivity |].
  rewrite !filter_cons.
  destruct (decide (P x)) as [Hp | Hn], (decide (P' x)) as [Hp' | Hn'];
    cbn; try lia.
  exfalso. apply Hn', Himp, Hp.
Qed.

(** the four quotients of a run that returns *)
Lemma benchmark_values (apdata : list ap_flare) (fbdata : list fb_flare)
    (time : list Q) (r : benchmark_stats) :
  benchmark apdata fbdata time = Ok r ->
  fbdata <> [] /\ fb_covered time fbdata <> []
  /\ n_ap r = length apdata /\ n_fb r = length fbdata
  /\ n1 r == float_of_nat (length apdata) / float_of_nat (length fbdata)
  /\ n2 r == float_of_nat (length (ap_covered time apdata))
             / float_of_nat (length (fb_covered time fbdata))
  /\ n3 r == float_of_nat (length (both_covered time apdata fbdata))
             / float_of_nat (length (fb_covered time fbdata))
  /\ n4 r == float_of_nat
               (length (filter (fun fb => any_overlap apdata fb = true) fbdata))
             / float_of_nat (length fbdata).
Proof.
  intros Hrun.
  assert (Hne : benchmark apdata fbdata time <> Raise IndexError)
    by (rewrite Hrun; discriminate).
  apply benchmark_reached in Hne as (_ & _ & _ & Harr).
  rewrite Harr in Hrun. revert Hrun. unfold benchmark_arrays.
  destruct (py_div (float_of_nat (length apdata)) _) as [q1 |] eqn:H1;
    [| discriminate].
  cbn [bind].
  destruct (py_div (np_sum _) _) as [q2 |] eqn:H2; [| discriminate].
  cbn [bind].
  destruct (py_div (float_of_nat (count_true _)) _) as [q3 |] eqn:H3;
    [| discriminate].
  cbn [bind].
  destruct (py_div (np_sum (n4_i_of _ _)) _) as [q4 |] eqn:H4;
    [| discriminate].
  cbn [bind]. intros Hr. injection Hr as Hr. subst r. cbn.
  apply py_div_inv in H1 as [N1 ->], H2 as [N2 ->], H3 as [N3 ->],
        H4 as [N4 ->].
  rewrite float_of_nat_zero in N1.
  rewrite np_sum_fbtime, float_of_nat_zero in N2.
  split; [destruct fbdata; [contradiction | discriminate] |].
  split; [destruct (fb_covered time fbdata); [contradiction | discriminate] |].
  repeat split; try reflexivity.
  - rewrite np_sum_aptime, np_sum_fbtime. reflexivity.
  - rewrite count_both, count_fbtime. reflexivity.
  - rewrite n4_i_of_map, np_sum_indicator. reflexivity.
Qed.

Lemma float_of_nat_pos (n : nat) : n <> 0%nat -> 0 < float_of_nat n.
Proof.
  intros Hn. unfold float_of_nat. change 0 with (inject_Z 0).
  rewrite <- Zlt_Qlt. lia.
Qed.

Lemma ratio_bounds (a b : nat) :
  b <> 0%nat -> (a <= b)%nat ->
  0 <= float_of_nat a / float_of_nat b /\ float_of_nat a / float_of_nat b <= 1.
Proof.
  intros Hb Hab. pose proof (float_of_nat_pos b Hb) as Hpos. split.
  - apply Qle_shift_div_l; [exact Hpos |].
    rewrite Qmult_0_l. apply (float_of_nat_le 0). lia.
  - apply Qle_shift_div_r; [exact Hpos |].
    rewrite Qmult_1_l. apply float_of_nat_le, Hab.
Qed.

Lemma ratio_mono (a a' b : nat) :
  b <> 0%nat -> (a <= a')%nat ->
  float_of_nat a / float_of_nat b <= float_of_nat a' / float_of_nat b.
Proof.
  intros Hb Haa. pose proof (float_of_nat_pos b Hb) as Hpos.
  unfold Qdiv. apply Qmult_le_compat_r.
  - apply float_of_nat_le, Haa.
  - apply Qlt_le_weak, Qinv_lt_0_compat, Hpos.
Qed.
End BenchmarkExtras.

Section BenchmarkProperties.
Local Open Scope Q_scope.

(** X6: when [benchmark] returns, [n1] is the ratio of the two flare
    counts, [n2] the number of time samples inside an appaloosa flare over the
    number inside an FBEYE interval, and [n3] the fraction of the latter that
    are also inside an appaloosa flare; [n1] and [n2] are not negative and
    [n3] lies between 0 and 1. *)
Theorem benchmark_time_fractions (apdata : list ap_flare)
    (fbdata : list fb_flare) (time : list Q) (r : benchmark_stats)
    (Hr : benchmark apdata fbdata time = Ok r) :
  n_ap r = length apdata /\ n_fb r = length fbdata
  /\ n1 r == float_of_nat (length apdata) / float_of_nat (length fbdata)
  /\ n2 r == float_of_nat (length (ap_covered time apdata))
             / float_of_nat (length (fb_covered time fbdata))
  /\ n3 r == float_of_nat (length (both_covered time apdata fbdata))
             / float_of_nat (length (fb_covered time fbdata))
  /\ 0 <= n1 r /\ 0 <= n2 r /\ 0 <= n3 r /\ n3 r <= 1.
Proof.
  destruct (benchmark_values _ _ _ _ Hr)
    as (Hfb & Hcov & Ha & Hf & H1 & H2 & H3 & _).
  assert (Nfb : length fbdata <> 0%nat) by (destruct fbdata; [congruence | discriminate]).
  assert (Ncov : length (fb_covered time fbdata) <> 0%nat)
    by (destruct (fb_covered time fbdata); [congruence | discriminate]).
  assert (Hboth : (length (both_covered time apdata fbdata)
                   <= length (fb_covered time fbdata))%nat).
  { unfold both_covered, fb_covered. apply filter_length_mono.
    intros t Ht. apply andb_true_iff in Ht. tauto. }
  repeat (split; [assumption |]).
  rewrite H1, H2, H3.
  pose proof (float_of_nat_pos _ Nfb) as Pfb.
  pose proof (float_of_nat_pos _ Ncov) as Pcov.
  split; [| split].
  - apply Qle_shift_div_l; [exact Pfb |].
    rewrite Qmult_0_l. apply (float_of_nat_le 0). lia.
  - apply Qle_shift_div_l; [exact Pcov |].
    rewrite Qmult_0_l. apply (float_of_nat_le 0). lia.
  - apply ratio_bounds; assumption.
Qed.

Lemma benchmark_time_fractions_witness :
  exists r, benchmark ex_apdata ex_fbdata ex_time = Ok r
            /\ n3 r == float_of_nat
                         (length (both_covered ex_time ex_apdata ex_fbdata))
                       / float_of_nat (length (fb_covered ex_time ex_fbdata))
            /\ 0 <= n3 r /\ n3 r <= 1.
Proof.
  assert (Hr : benchmark ex_apdata ex_fbdata ex_time
               = Ok (mk_stats 2 4 (2 # 4) (2 # 8) (1 # 8) (1 # 4)))
    by (vm_compute; reflexivity).
  eexists. split; [exact Hr |].
  destruct (benchmark_time_fractions _ _ _ _ Hr)
    as (_ & _ & _ & _ & H3 & _ & _ & Hlo & Hhi).
  split; [exact H3 |]. split; [exact Hlo | exact Hhi].
Defined.

Lemma existsb_perm {B : Type} (f : B -> bool) (l l' : list B) :
  l ≡ₚ l' -> existsb f l = existsb f l'.
Proof.
  induction 1 as [| x l l' _ IH | x y l | l l1 l2 _ IH1 _ IH2]; cbn.
  - reflexivity.
  - rewrite IH. reflexivity.
  - destruct (f x), (f y); reflexivity.
  - congruence.
Qed.

(** X7: the outcome of [benchmark] does not depend on the order of the
    flares in the appaloosa table. *)
Theorem benchmark_ap_order (apdata apdata' : list ap_flare)
    (fbdata : list fb_flare) (time : list Q)
    (Hperm : apdata ≡ₚ apdata') :
  benchmark apdata' fbdata time = benchmark apdata fbdata time.
Proof.
  assert (Hap : aptime_of time apdata' = aptime_of time apdata).
  { rewrite !aptime_of_map. apply map_ext. intros t.
    rewrite (existsb_perm _ _ _ Hperm). reflexivity. }
  assert (Hn4 : n4_i_of apdata' fbdata = n4_i_of apdata fbdata).
  { rewrite !n4_i_of_map. apply map_ext. intros fb. unfold any_overlap.
    rewrite (existsb_perm _ _ _ Hperm). reflexivity. }
  unfold benchmark, benchmark_arrays.
  rewrite Hap, Hn4, (Permutation_length Hperm).
  reflexivity.
Qed.

Lemma benchmark_ap_order_witness :
  [ex_ap 2 3; ex_ap 40 41] ≡ₚ [ex_ap 40 41; ex_ap 2 3]
  /\ benchmark [ex_ap 40 41; ex_ap 2 3] ex_fbdata ex_time
     = benchmark [ex_ap 2 3; ex_ap 40 41] ex_fbdata ex_time.
Proof.
  assert (Hperm : [ex_ap 2 3; ex_ap 40 41] ≡ₚ [ex_ap 40 41; ex_ap 2 3])
    by apply perm_swap.
  split; [exact Hperm |].
  apply (benchmark_ap_order _ _ ex_fbdata ex_time Hperm).
Defined.

Lemma existsb_mono {B : Type} (f : B -> bool) (l l' : list B) :
  l ⊆ l' -> existsb f l = true -> existsb f l' = true.
Proof.
  intros Hsub. rewrite !existsb_exists. intros (x & Hin & Hf).
  exists x. split; [| exact Hf].
  apply list_elem_of_In, Hsub, list_elem_of_In, Hin.
Qed.

(** X8: more detections never lower the recovery statistics: when every flare
    of [apdata] is also in [apdata'], a table of two rows or more, and
    [benchmark] returns for [apdata], it returns for [apdata'] with [n2],
    [n3] and [n4] at least as large. *)
Theorem benchmark_more_detections (apdata apdata' : list ap_flare)
    (fbdata : list fb_flare) (time : list Q) (r : benchmark_stats)
    (Hsub : apdata ⊆ apdata')
    (Hrows : (2 <= length apdata')%nat)
    (Hr : benchmark apdata fbdata time = Ok r) :
  exists r', benchmark apdata' fbdata time = Ok r'
             /\ n2 r <= n2 r' /\ n3 r <= n3 r' /\ n4 r <= n4 r'.
Proof.
  destruct (benchmark_values _ _ _ _ Hr)
    as (Hfb & Hcov & _ & _ & _ & H2 & H3 & H4).
  assert (Hne : benchmark apdata fbdata time <> Raise IndexError)
    by (rewrite Hr; discriminate).
  apply benchmark_reached in Hne as (_ & Htime & Hfrows & _).
  destruct (benchmark_ok apdata' fbdata time Hfb Hcov) as [r' Hr'].
  rewrite <- (benchmark_shape apdata' fbdata time Hrows Htime Hfrows) in Hr'.
  exists r'. split; [exact Hr' |].
  destruct (benchmark_values _ _ _ _ Hr')
    as (_ & _ & _ & _ & _ & H2' & H3' & H4').
  assert (Nfb : length fbdata <> 0%nat) by (destruct fbdata; [congruence | discriminate]).
  assert (Ncov : length (fb_covered time fbdata) <> 0%nat)
    by (destruct (fb_covered time fbdata); [congruence | discriminate]).
  rewrite H2, H3, H4, H2', H3', H4'.
  split; [| split]; apply ratio_mono; try assumption;
    apply filter_length_mono.
  - intros t. apply existsb_mono, Hsub.
  - intros t Ht. apply andb_true_iff in Ht as [Hf Ha].
    apply andb_true_iff. split; [exact Hf |].
    revert Ha. apply existsb_mono, Hsub.
  - intros fb. unfold any_overlap. apply existsb_mono, Hsub.
Qed.

Lemma benchmark_more_detections_witness :
  [ex_ap 40 41; ex_ap 50 51] ⊆ [ex_ap 2 3; ex_ap 40 41; ex_ap 50 51]
  /\ (2 <= length [ex_ap 2 3; ex_ap 40 41; ex_ap 50 51])%nat
  /\ exists r r',
       benchmark [ex_ap 40 41; ex_ap 50 51] ex_fbdata ex_time = Ok r
       /\ benchmark [ex_ap 2 3; ex_ap 40 41; ex_ap 50 51] ex_fbdata ex_time
          = Ok r'
       /\ n4 r <= n4 r'.
Proof.
  assert (Hsub : [ex_ap 40 41; ex_ap 50 51]
                 ⊆ [ex_ap 2 3; ex_ap 40 41; ex_ap 50 51]).
  { intros x Hx. apply list_elem_of_further, Hx. }
  assert (Hrows : (2 <= length [ex_ap 2 3; ex_ap 40 41; ex_ap 50 51])%nat)
    by (cbn; lia).
  assert (Hr : benchmark [ex_ap 40 41; ex_ap 50 51] ex_fbdata ex_time
               = Ok (mk_stats 2 4 (2 # 4) (0 # 8) (0 # 8) (0 # 4)))
    by (vm_compute; reflexivity).
  split; [exact Hsub |]. split; [exact Hrows |].
  destruct (benchmark_more_detections _ _ _ _ _ Hsub Hrows Hr)
    as (r' & Hr' & _ & _ & H4).
  eexists. exists r'. split; [exact Hr |]. split; [exact Hr' | exact H4].
Defined.
End BenchmarkProperties.

(** ** fbeye_compare: when it returns *)

(** X9: [fbeye_compare] returns exactly when the appaloosa table has at
    least two rows and the FBEYE table at least four; otherwise it raises
    [IndexError].  When it returns it has made fifteen passes, one per
    column. *)
Theorem fbeye_compare_returns_iff (apdata : list ap_flare)
    (fbdata : list fb_flare) :
  (fbeye_compare (map ap_cells apdata) (map fb_cells fbdata) = Ok tt
   <-> (2 <= length apdata)%nat /\ (4 <= length fbdata)%nat)
  /\ (fbeye_compare (map ap_cells apdata) (map fb_cells fbdata) = Ok tt
      \/ fbeye_compare (map ap_cells apdata) (map fb_cells fbdata)
         = Raise IndexError)
  /\ forall found,
       fbeye_compare_x_ap (map ap_cells apdata) (map fb_cells fbdata)
       = Ok found ->
       length found = 15%nat.
Proof.
  assert (Hcases :
      ((2 <= length apdata)%nat /\ (4 <= length fbdata)%nat
       /\ fbeye_compare (map ap_cells apdata) (map fb_cells fbdata) = Ok tt)
      \/ (~ ((2 <= length apdata)%nat /\ (4 <= length fbdata)%nat)
          /\ fbeye_compare (map ap_cells apdata) (map fb_cells fbdata)
             = Raise IndexError)).
  { destruct apdata as [| a0 [| a1 apdata]];
      destruct fbdata as [| f0 [| f1 [| f2 [| f3 fbdata]]]];
      cbn [length];
      first [ right; split; [lia | reflexivity]
            | left; split; [lia | split; [lia | reflexivity]] ]. }
  split; [| split].
  - destruct Hcases as [(Ha & Hf & Hok) | (Hn & Herr)].
    + split; [intros _; split; assumption | intros _; exact Hok].
    + split; [rewrite Herr; discriminate | intros H; contradiction].
  - destruct Hcases as [(_ & _ & Hok) | (_ & Herr)]; [left | right]; assumption.
  - intros found Hrun. unfold fbeye_compare_x_ap in Hrun.
    destruct fbdata as [| fb fbdata]; [discriminate |].
    cbn [map mrow lookup list_lookup bind] in Hrun.
    apply x_ap_trace_length in Hrun. exact Hrun.
Qed.

(** ** k2_mtg_plots: the arrays after the loop *)

(** a returning pass has indexed arrays, not scalars *)
Ltac arrays_in H :=
  unfold index_column in H;
  repeat match type of H with
         | context [decide (length ?a = 1%nat)] =>
             destruct (decide (length a = 1%nat));
             [exfalso; cbn [bind] in H; bind_inv H; discriminate H |]
         end.

Section K2Arrays.
Context (inp : k2_inputs) (kid : list string).

(** what one pass of the loop does to each of the seven arrays *)
Lemma k2_body_arrays (i : nat) (name : string) (st st' : k2_state) :
  k2_body inp (length kid) i name st = Ok st' ->
  let upd (v : option Q) (a : list Q) :=
    match v with Some y => <[i := y]> a | None => a end in
  n_flares1 st' = upd (counted good1 (k2_fs inp) name) (n_flares1 st)
  /\ n_flares2 st' = upd (counted good2 (k2_fs inp) name) (n_flares2 st)
  /\ n_flares3 st' = upd (counted good3 (k2_fs inp) name) (n_flares3 st)
  /\ n_flares4 st' = upd (counted good4 (k2_fs inp) name) (n_flares4 st)
  /\ gi_color st'
     = upd (color_of (kicnum inp) (kic_g inp) (kic_i inp) name) (gi_color st)
  /\ ri_color st'
     = upd (color_of (kicnum inp) (kic_r inp) (kic_i inp) name) (ri_color st)
  /\ periods st' = upd (matched (pnum inp) (prot inp) name) (periods st).
Proof.
  intros Hbody upd. unfold k2_body in Hbody.
  rewrite k2_try_total in Hbody. cbn [bind] in Hbody.
  set (st1 := match k2_fs inp !! apfile_of name with
              | Some data =>
                  if decide (ndim data = 2%nat)
                  then k2_set_counts i data st else st
              | None => k2_print (not_found name) st
              end) in Hbody.
  assert (Htry : n_flares1 st1 = upd (counted good1 (k2_fs inp) name) (n_flares1 st)
                 /\ n_flares2 st1 = upd (counted good2 (k2_fs inp) name) (n_flares2 st)
                 /\ n_flares3 st1 = upd (counted good3 (k2_fs inp) name) (n_flares3 st)
                 /\ n_flares4 st1 = upd (counted good4 (k2_fs inp) name) (n_flares4 st)
                 /\ gi_color st1 = gi_color st /\ ri_color st1 = ri_color st
                 /\ periods st1 = periods st).
  { unfold st1, counted, upd.
    destruct (k2_fs inp !! apfile_of name) as [data |];
      [destruct (decide (ndim data = 2%nat)) |]; repeat split. }
  destruct Htry as (T1 & T2 & T3 & T4 & T5 & T6 & T7).
  destruct (k2_colors inp i name st1) as [st2 |] eqn:Hcol;
    [| discriminate Hbody].
  cbn [bind] in Hbody.
  destruct (k2_periods inp i name st2) as [st3 |] eqn:Hper;
    [| discriminate Hbody].
  cbn [bind] in Hbody.
  assert (Hc : n_flares1 st2 = n_flares1 st1 /\ n_flares2 st2 = n_flares2 st1
               /\ n_flares3 st2 = n_flares3 st1 /\ n_flares4 st2 = n_flares4 st1
               /\ gi_color st2
                  = upd (color_of (kicnum inp) (kic_g inp) (kic_i inp) name)
                        (gi_color st1)
               /\ ri_color st2
                  = upd (color_of (kicnum inp) (kic_r inp) (kic_i inp) name)
                        (ri_color st1)
               /\ periods st2 = periods st1).
  { unfold k2_colors in Hcol. unfold color_of, upd.
    destruct (np_where_eq (kicnum inp) name) as [| x [| y km]].
    - cbn in Hcol. injection Hcol as <-. repeat split.
    - rewrite bool_decide_eq_true_2 in Hcol by (cbn; lia).
      arrays_in Hcol.
      cbn [take_at] in Hcol.
      destruct (kic_g inp !! x) as [g |]; [| discriminate Hcol].
      cbn [bind] in Hcol.
      destruct (kic_i inp !! x) as [i1 |]; [| discriminate Hcol].
      cbn [bind zip_with set_item] in Hcol.
      destruct (kic_r inp !! x) as [r |]; [| discriminate Hcol].
      cbn [bind zip_with set_item] in Hcol.
      injection Hcol as <-. repeat split.
    - rewrite bool_decide_eq_true_2 in Hcol by (cbn; lia).
      arrays_in Hcol.
      cbn [take_at] in Hcol.
      destruct (kic_g inp !! x) as [g |]; [| discriminate Hcol].
      destruct (kic_g inp !! y) as [g' |]; [| discriminate Hcol].
      destruct (take_at (kic_g inp) km) as [gs |]; [| discriminate Hcol].
      cbn [bind] in Hcol.
      destruct (kic_i inp !! x) as [i1 |]; [| discriminate Hcol].
      destruct (kic_i inp !! y) as [i1' |]; [| discriminate Hcol].
      destruct (take_at (kic_i inp) km) as [ivs |]; [| discriminate Hcol].
      cbn in Hcol. discriminate Hcol. }
  assert (Hp : n_flares1 st3 = n_flares1 st2 /\ n_flares2 st3 = n_flares2 st2
               /\ n_flares3 st3 = n_flares3 st2 /\ n_flares4 st3 = n_flares4 st2
               /\ gi_color st3 = gi_color st2 /\ ri_color st3 = ri_color st2
               /\ periods st3
                  = upd (matched (pnum inp) (prot inp) name) (periods st2)).
  { unfold k2_periods in Hper. unfold matched, upd.
    destruct (np_where_eq (pnum inp) name) as [| x [| y pm]].
    - cbn in Hper. injection Hper as <-. repeat split.
    - rewrite bool_decide_eq_true_2 in Hper by (cbn; lia).
      arrays_in Hper.
      cbn [take_at] in Hper.
      destruct (prot inp !! x) as [p |]; [| discriminate Hper].
      cbn [bind set_item] in Hper. injection Hper as <-. repeat split.
    - rewrite bool_decide_eq_true_2 in Hper by (cbn; lia).
      arrays_in Hper.
      cbn [take_at] in Hper.
      destruct (prot inp !! x) as [p |]; [| discriminate Hper].
      destruct (prot inp !! y) as [p' |]; [| discriminate Hper].
      destruct (take_at (prot inp) pm) as [ps |]; [| discriminate Hper].
      cbn in Hper. discriminate Hper. }
  destruct Hc as (C1 & C2 & C3 & C4 & C5 & C6 & C7).
  destruct Hp as (P1 & P2 & P3 & P4 & P5 & P6 & P7).
  assert (Hfin : n_flares1 st' = n_flares1 st3 /\ n_flares2 st' = n_flares2 st3
                 /\ n_flares3 st' = n_flares3 st3 /\ n_flares4 st' = n_flares4 st3
                 /\ gi_color st' = gi_color st3 /\ ri_color st' = ri_color st3
                 /\ periods st' = periods st3).
  { destruct (decide (i mod 1000 = 0)%nat); injection Hbody as <-;
      repeat split. }
  destruct Hfin as (F1 & F2 & F3 & F4 & F5 & F6 & F7).
  repeat split; congruence.
Qed.
End K2Arrays.

Section K2GenLoop.
Context (inp : k2_inputs) (kid : list string).
Context (proj : k2_state -> list Q) (v : string -> option Q).
Hypothesis proj_body : forall i name st st',
  k2_body inp (length kid) i name st = Ok st' ->
  proj st' = match v name with
             | Some y => <[i := y]> (proj st)
             | None => proj st
             end.

Lemma k2_loop_proj_length (n start : nat) (st st' : k2_state) :
  k2_loop_from inp kid start n st = Ok st' ->
  length (proj st') = length (proj st).
Proof.
  revert start st. induction n as [| n IH]; intros start st Hloop.
  - cbn in Hloop. injection Hloop as <-. reflexivity.
  - unfold k2_loop_from in Hloop. cbn [for_range] in Hloop.
    destruct (kid !! start) as [name0 |]; [| discriminate Hloop].
    destruct (k2_body inp (length kid) start name0 st) as [st1 |] eqn:Hbody;
      [| discriminate Hloop].
    cbn [bind] in Hloop. rewrite (IH _ _ Hloop), (proj_body _ _ _ _ Hbody).
    destruct (v name0); [apply length_insert | reflexivity].
Qed.

Lemma k2_loop_proj_lookup (n start j : nat) (name : string)
    (st st' : k2_state) (old : Q) :
  k2_loop_from inp kid start n st = Ok st' ->
  kid !! j = Some name ->
  proj st !! j = Some old ->
  proj st' !! j
  = Some (if decide (start <= j < start + n)%nat
          then default old (v name) else old).
Proof.
  revert start st old. induction n as [| n IH]; intros start st old Hloop Hj Hold.
  - cbn in Hloop. injection Hloop as <-. rewrite Hold.
    destruct (decide (start <= j < start + 0)%nat); [lia | reflexivity].
  - unfold k2_loop_from in Hloop. cbn [for_range] in Hloop.
    destruct (kid !! start) as [name0 |] eqn:Hstart; [| discriminate Hloop].
    destruct (k2_body inp (length kid) start name0 st) as [st1 |] eqn:Hbody;
      [| discriminate Hloop].
    cbn [bind] in Hloop.
    assert (Hj1 : proj st1 !! j
                  = Some (if decide (j = start) then default old (v name0)
                          else old)).
    { rewrite (proj_body _ _ _ _ Hbody). destruct (v name0) as [y |]; cbn.
      - destruct (decide (j = start)) as [-> | Hne].
        + apply list_lookup_insert_eq. apply lookup_lt_Some in Hold. exact Hold.
        + rewrite list_lookup_insert_ne by congruence. exact Hold.
      - rewrite Hold. destruct (decide (j = start)); reflexivity. }
    rewrite (IH (S start) st1 _ Hloop Hj Hj1). f_equal.
    destruct (decide (j = start)) as [-> | Hne].
    + assert (name0 = name) as -> by congruence.
      destruct (decide (S start <= start < S start + n)%nat); [lia |].
      destruct (decide (start <= start < start + S n)%nat); [reflexivity | lia].
    + destruct (decide (S start <= j < S start + n)%nat),
               (decide (start <= j < start + S n)%nat); (reflexivity || lia).
Qed.
End K2GenLoop.

Section K2Run.
Context (inp : k2_inputs) (kid : list string).

(** the seven arrays after the run: an entry per star, each the value the
    star's pass stored or the initial value *)
Lemma k2_run_arrays (st' : k2_state) (j : nat) (name : string) :
  k2_mtg_rerun inp kid = Ok st' ->
  kid !! j = Some name ->
  n_flares1 st' !! j = Some (default 0%Q (counted good1 (k2_fs inp) name))
  /\ n_flares2 st' !! j = Some (default 0%Q (counted good2 (k2_fs inp) name))
  /\ n_flares3 st' !! j = Some (default 0%Q (counted good3 (k2_fs inp) name))
  /\ n_flares4 st' !! j = Some (default 0%Q (counted good4 (k2_fs inp) name))
  /\ gi_color st' !! j
     = Some (default (-99)%Q
               (color_of (kicnum inp) (kic_g inp) (kic_i inp) name))
  /\ ri_color st' !! j
     = Some (default (-99)%Q
               (color_of (kicnum inp) (kic_r inp) (kic_i inp) name))
  /\ periods st' !! j
     = Some (default (-99)%Q (matched (pnum inp) (prot inp) name)).
Proof.
  intros Hrun Hj. apply k2_rerun_inv in Hrun as (st & Hloop & ->).
  cbn [k2_save n_flares1 n_flares2 n_flares3 n_flares4 gi_color ri_color
       periods].
  assert (Hlt : (j < length kid)%nat) by (eapply lookup_lt_Some; eauto).
  assert (Hz : forall q : Q, replicate (length kid) q !! j = Some q)
    by (intros q; apply lookup_replicate_2; exact Hlt).
  assert (Hin : (0 <= j < 0 + length kid)%nat) by lia.
  repeat split;
    match goal with
    | |- ?p st !! j = Some (default ?q (?v name)) =>
        rewrite (k2_loop_proj_lookup inp kid p v) with (3 := Hj) (old := q)
                (st := k2_init kid) (start := 0%nat) (n := length kid);
        [ destruct (decide (0 <= j < 0 + length kid)%nat); [reflexivity | lia]
        | intros i0 name0 s0 s1 Hb;
          pose proof (k2_body_arrays inp kid i0 name0 s0 s1 Hb) as Harr;
          cbn zeta in Harr; tauto
        | exact Hloop
        | apply Hz ]
    end.
Qed.

Lemma k2_run_lengths (st' : k2_state) :
  k2_mtg_rerun inp kid = Ok st' ->
  length (n_flares1 st') = length kid /\ length (n_flares2 st') = length kid
  /\ length (n_flares3 st') = length kid /\ length (n_flares4 st') = length kid
  /\ length (gi_color st') = length kid /\ length (ri_color st') = length kid
  /\ length (periods st') = length kid.
Proof.
  intros Hrun. apply k2_rerun_inv in Hrun as (st & Hloop & ->).
  cbn [k2_save n_flares1 n_flares2 n_flares3 n_flares4 gi_color ri_color
       periods].
  assert (Hlen : forall (p : k2_state -> list Q) (v : string -> option Q) q,
             (forall i name s s',
                 k2_body inp (length kid) i name s = Ok s' ->
                 p s' = match v name with
                        | Some y => <[i := y]> (p s)
                        | None => p s
                        end) ->
             p (k2_init kid) = replicate (length kid) q ->
             length (p st) = length kid).
  { intros p v q Hb Hinit.
    rewrite (k2_loop_proj_length inp kid p v Hb _ _ _ _ Hloop), Hinit.
    apply length_replicate. }
  assert (Harr : forall i name s s',
             k2_body inp (length kid) i name s = Ok s' -> _)
    by (intros i name s s' Hb; exact (k2_body_arrays inp kid i name s s' Hb)).
  cbn zeta in Harr.
  split; [eapply (Hlen n_flares1); [intros; eapply Harr; eauto | reflexivity] |].
  split; [eapply (Hlen n_flares2); [intros; eapply Harr; eauto | reflexivity] |].
  split; [eapply (Hlen n_flares3); [intros; eapply Harr; eauto | reflexivity] |].
  split; [eapply (Hlen n_flares4); [intros; eapply Harr; eauto | reflexivity] |].
  split; [eapply (Hlen gi_color); [intros; eapply Harr; eauto | reflexivity] |].
  split; [eapply (Hlen ri_color); [intros; eapply Harr; eauto | reflexivity] |].
  eapply (Hlen periods); [intros; eapply Harr; eauto | reflexivity].
Qed.
End K2Run.

Section K2Extras.
Local Open Scope Q_scope.

Lemma np_where_eq_nil (ids : list string) (name : string) :
  name ∉ ids -> np_where_eq ids name = [].
Proof.
  intros Hnot. apply nil_length_inv.
  unfold np_where_eq. rewrite np_where_length, count_true_map.
  destruct (length (filter _ ids)) eqn:Hlen; [reflexivity |].
  assert (Hpos : (0 < length (filter (fun id => bool_decide (id = name) = true)
                                     ids))%nat) by lia.
  apply filter_pos_exists in Hpos as (k & id & Hk & Hid).
  apply bool_decide_eq_true in Hid as ->.
  exfalso. apply Hnot. apply list_elem_of_lookup. eauto.
Qed.

Lemma good_length_le (p p' : ap_flare -> bool) (data : list ap_flare) :
  (forall r, p r = true -> p' r = true) ->
  (length (np_where (map p data)) <= length (np_where (map p' data)))%nat.
Proof.
  intros Himp. rewrite !np_where_length, !count_true_map.
  apply filter_length_mono. exact Himp.
Qed.

Lemma good_length_rows (p : ap_flare -> bool) (data : list ap_flare) :
  (length (np_where (map p data)) <= length data)%nat.
Proof. rewrite np_where_length, count_true_map. apply length_filter. Qed.

(** X10: after the run the colours and the period of a star are those of
    the one KIC row and the one period row that name it; a star no row names
    keeps the initial -99. *)
Theorem k2_colours_of_a_star (inp : k2_inputs) (kid : list string)
    (st' : k2_state) (j : nat) (name : string)
    (Hrun : k2_mtg_rerun inp kid = Ok st')
    (Hj : kid !! j = Some name) :
  gi_color st' !! j
  = Some (default (-99) (color_of (kicnum inp) (kic_g inp) (kic_i inp) name))
  /\ ri_color st' !! j
     = Some (default (-99) (color_of (kicnum inp) (kic_r inp) (kic_i inp) name))
  /\ periods st' !! j = Some (default (-99) (matched (pnum inp) (prot inp) name))
  /\ (name ∉ kicnum inp ->
      gi_color st' !! j = Some (-99) /\ ri_color st' !! j = Some (-99))
  /\ (name ∉ pnum inp -> periods st' !! j = Some (-99))
  /\ (forall x g r i,
         np_where_eq (kicnum inp) name = [x] ->
         kic_g inp !! x = Some g -> kic_r inp !! x = Some r ->
         kic_i inp !! x = Some i ->
         gi_color st' !! j = Some (g - i) /\ ri_color st' !! j = Some (r - i)).
Proof.
  destruct (k2_run_arrays inp kid st' j name Hrun Hj)
    as (_ & _ & _ & _ & Hgi & Hri & Hper).
  repeat (split; [assumption |]). split; [| split].
  - intros Hnot. rewrite Hgi, Hri. unfold color_of.
    rewrite (np_where_eq_nil _ _ Hnot). split; reflexivity.
  - intros Hnot. rewrite Hper. unfold matched.
    rewrite (np_where_eq_nil _ _ Hnot). reflexivity.
  - intros x g r i Hx Hg Hr Hi. rewrite Hgi, Hri. unfold color_of.
    rewrite Hx, Hg, Hr, Hi. split; reflexivity.
Qed.

Lemma k2_colours_of_a_star_witness :
  exists st',
    k2_mtg_rerun ex_k2_inputs ex_kid = Ok st'
    /\ ex_kid !! 1%nat = Some "200300"
    /\ gi_color st' !! 1%nat = Some (15 - 13)
    /\ periods st' !! 1%nat = Some (-99).
Proof.
  destruct (k2_mtg_rerun ex_k2_inputs ex_kid) as [st' |] eqn:Hrun;
    [| vm_compute in Hrun; discriminate Hrun].
  assert (Hj : ex_kid !! 1%nat = Some "200300") by reflexivity.
  exists st'. split; [reflexivity |]. split; [exact Hj |].
  destruct (k2_colours_of_a_star ex_k2_inputs ex_kid st' 1 "200300" Hrun Hj)
    as (_ & _ & _ & _ & Hp & Hc).
  split.
  - apply (Hc 0%nat 15 14 13); reflexivity.
  - apply Hp. cbn. intros Hin.
    repeat (apply elem_of_cons in Hin as [Hin | Hin]; [discriminate Hin |]).
    inversion Hin.
Defined.

(** X11: after the run the four counts of a star are whole numbers with
    [n_flares2 <= n_flares1] and [n_flares4 <= n_flares3]: the second cut is
    the first with higher thresholds, the fourth is the third with one more
    condition.  None exceeds the number of rows of the star's file. *)
Theorem k2_counts_nested (inp : k2_inputs) (kid : list string)
    (st' : k2_state) (j : nat) (name : string)
    (Hrun : k2_mtg_rerun inp kid = Ok st')
    (Hj : kid !! j = Some name) :
  exists c1 c2 c3 c4 : nat,
    n_flares1 st' !! j = Some (float_of_nat c1)
    /\ n_flares2 st' !! j = Some (float_of_nat c2)
    /\ n_flares3 st' !! j = Some (float_of_nat c3)
    /\ n_flares4 st' !! j = Some (float_of_nat c4)
    /\ (c2 <= c1)%nat /\ (c4 <= c3)%nat
    /\ (c1 <= length (default [] (k2_fs inp !! apfile_of name)))%nat
    /\ (c3 <= length (default [] (k2_fs inp !! apfile_of name)))%nat.
Proof.
  destruct (k2_run_arrays inp kid st' j name Hrun Hj)
    as (H1 & H2 & H3 & H4 & _).
  unfold counted in H1, H2, H3, H4.
  destruct (k2_fs inp !! apfile_of name) as [data |];
    [destruct (decide (ndim data = 2%nat)) |].
  - exists (length (good1 data)), (length (good2 data)),
           (length (good3 data)), (length (good4 data)).
    repeat (split; [assumption |]). cbn [default].
    unfold good1, good2, good3, good4. repeat split.
    + apply good_length_le. intros r Hr.
      apply andb_true_iff in Hr as [Ha Hb].
      apply Qle_bool_iff in Ha, Hb.
      apply andb_true_iff. split; apply Qle_bool_iff.
      * apply Qle_trans with 15; [discriminate | exact Ha].
      * apply Qle_trans with (2 # 10); [discriminate | exact Hb].
    + apply good_length_le. intros r Hr.
      apply andb_true_iff in Hr as [Ha _]. exact Ha.
    + apply good_length_rows.
    + apply good_length_rows.
  - exists 0%nat, 0%nat, 0%nat, 0%nat.
    repeat (split; [assumption |]). cbn. lia.
  - exists 0%nat, 0%nat, 0%nat, 0%nat.
    repeat (split; [assumption |]). cbn. lia.
Qed.

Lemma k2_counts_nested_witness :
  exists st' (c1 c2 : nat),
    k2_mtg_rerun ex_k2_inputs ex_kid = Ok st'
    /\ n_flares1 st' !! 1%nat = Some (float_of_nat c1)
    /\ n_flares2 st' !! 1%nat = Some (float_of_nat c2)
    /\ (c2 <= c1)%nat.
Proof.
  destruct (k2_mtg_rerun ex_k2_inputs ex_kid) as [st' |] eqn:Hrun;
    [| vm_compute in Hrun; discriminate Hrun].
  assert (Hj : ex_kid !! 1%nat = Some "200300") by reflexivity.
  destruct (k2_counts_nested ex_k2_inputs ex_kid st' 1 "200300" Hrun Hj)
    as (c1 & c2 & c3 & c4 & H1 & H2 & _ & _ & Hle & _).
  exists st', c1, c2. split; [reflexivity |].
  split; [exact H1 |]. split; [exact H2 | exact Hle].
Defined.

(** X12: a flare file with fewer than two rows is loaded as a
    one-dimensional array and skipped by the test [data.ndim == 2]: a star
    with a single flare, or with none, ends the run with all four counts 0,
    and without the warning of a missing file. *)
Theorem k2_single_row_not_counted (inp : k2_inputs) (kid : list string)
    (st' : k2_state) (j : nat) (name : string) (data : list ap_flare)
    (Hrun : k2_mtg_rerun inp kid = Ok st')
    (Hj : kid !! j = Some name)
    (Hfile : k2_fs inp !! apfile_of name = Some data)
    (Hrows : (length data < 2)%nat) :
  n_flares1 st' !! j = Some 0 /\ n_flares2 st' !! j = Some 0
  /\ n_flares3 st' !! j = Some 0 /\ n_flares4 st' !! j = Some 0
  /\ forall st, k2_try inp j (apfile_of name) st = Ok st.
Proof.
  destruct (k2_run_arrays inp kid st' j name Hrun Hj)
    as (H1 & H2 & H3 & H4 & _).
  unfold counted in H1, H2, H3, H4. rewrite Hfile in H1, H2, H3, H4.
  assert (Hnd : ndim data <> 2%nat).
  { unfold ndim. destruct (decide (2 <= length data)%nat); [lia | discriminate]. }
  destruct (decide (ndim data = 2%nat)); [contradiction |].
  repeat (split; [assumption |]).
  intros st. rewrite k2_try_total, Hfile.
  destruct (decide (ndim data = 2%nat)); [contradiction | reflexivity].
Qed.

Lemma k2_single_row_not_counted_witness :
  exists st',
    k2_mtg_rerun
      (with_files ex_k2_inputs {["aprun/200/200300.flare" := [ex_ap 2 3]]})
      ex_kid = Ok st'
    /\ ex_kid !! 1%nat = Some "200300"
    /\ n_flares1 st' !! 1%nat = Some 0.
Proof.
  set (inp := with_files ex_k2_inputs
                         {["aprun/200/200300.flare" := [ex_ap 2 3]]}).
  destruct (k2_mtg_rerun inp ex_kid) as [st' |] eqn:Hrun;
    [| vm_compute in Hrun; discriminate Hrun].
  exists st'. split; [reflexivity |]. split; [reflexivity |].
  apply (k2_single_row_not_counted inp ex_kid st' 1 "200300" [ex_ap 2 3]
           Hrun).
  - reflexivity.
  - vm_compute. reflexivity.
  - cbn. lia.
Defined.
End K2Extras.

(** ** k2_mtg_plots: what the run prints, and when it fails *)

Section K2Output.
Context (inp : k2_inputs) (kid : list string).

Lemma k2_body_prints (i : nat) (name : string) (st st' : k2_state) :
  k2_body inp (length kid) i name st = Ok st' ->
  stdout st' = stdout st ++ k2_prints (k2_fs inp) (length kid) (i, name).
Proof.
  unfold k2_body. rewrite k2_try_total. cbn [bind]. intros Hbody.
  bind_inv Hbody.
  apply k2_colors_frame in E as (_ & _ & _ & _ & C).
  apply k2_periods_frame in E0 as (_ & _ & _ & _ & P).
  assert (Hout : stdout x0
                 = stdout st ++ match k2_fs inp !! apfile_of name with
                                | Some _ => []
                                | None => [not_found name]
                                end).
  { rewrite P, C. destruct (k2_fs inp !! apfile_of name) as [data |].
    - rewrite app_nil_r. destruct (decide (ndim data = 2%nat)); reflexivity.
    - reflexivity. }
  unfold k2_prints. cbn [fst snd]. rewrite app_assoc, <- Hout.
  destruct (decide (i mod 1000 = 0)%nat); injection Hbody as <-.
  - reflexivity.
  - rewrite app_nil_r. reflexivity.
Qed.

Lemma k2_loop_prints (n start : nat) (st st' : k2_state) :
  k2_loop_from inp kid start n st = Ok st' ->
  stdout st'
  = stdout st
    ++ concat (map (k2_prints (k2_fs inp) (length kid))
                   (zip (seq start n) (drop start kid))).
Proof.
  revert start st. induction n as [| n IH]; intros start st Hloop.
  - cbn in Hloop. injection Hloop as <-. cbn. rewrite app_nil_r. reflexivity.
  - unfold k2_loop_from in Hloop. cbn [for_range] in Hloop.
    destruct (kid !! start) as [name0 |] eqn:Hstart; [| discriminate Hloop].
    destruct (k2_body inp (length kid) start name0 st) as [st1 |] eqn:Hbody;
      [| discriminate Hloop].
    cbn [bind] in Hloop.
    rewrite (IH _ _ Hloop), (k2_body_prints _ _ _ _ Hbody).
    rewrite (drop_S _ _ _ Hstart). cbn [seq zip zip_with map concat].
    rewrite <- app_assoc. reflexivity.
Qed.
End K2Output.

(** X13: what a run that returns has printed, in order: the three lines
    before the loop, then for each star in turn the warning if its flare file
    is missing and the progress line if its index is a multiple of 1000; in
    particular a warning names a star of the list whose file is missing. *)
Theorem k2_output_in_order (inp : k2_inputs) (kid : list string)
    (st' : k2_state)
    (Hrun : k2_mtg_rerun inp kid = Ok st') :
  stdout st'
  = [PrintStr "KIC data ingested"; PrintStr "Period data ingested";
     PrintStr "Starting loop through aprun files"]
    ++ concat (map (k2_prints (k2_fs inp) (length kid)) (enumerate kid))
  /\ forall name,
       not_found name ∈ stdout st' ->
       exists name', name' ∈ kid /\ not_found name' = not_found name
                     /\ k2_fs inp !! apfile_of name' = None.
Proof.
  apply k2_rerun_inv in Hrun as (st & Hloop & ->).
  assert (Hout : stdout (k2_save st)
                 = [PrintStr "KIC data ingested"; PrintStr "Period data ingested";
                    PrintStr "Starting loop through aprun files"]
                   ++ concat (map (k2_prints (k2_fs inp) (length kid))
                                  (enumerate kid))).
  { cbn [k2_save stdout]. rewrite (k2_loop_prints inp kid _ _ _ _ Hloop).
    reflexivity. }
  split; [exact Hout |].
  intros name Hin. rewrite Hout in Hin.
  apply elem_of_app in Hin as [Hin | Hin].
  - unfold not_found in Hin.
    unfold apfile_of in Hin. cbn in Hin.
    repeat (apply elem_of_cons in Hin as [Hin | Hin]; [discriminate Hin |]).
    inversion Hin.
  - apply list_elem_of_In, in_concat in Hin as (outs & Houts & Hin).
    apply list_elem_of_In in Houts, Hin.
    apply list_elem_of_fmap in Houts as ([i name'] & -> & Hik).
    unfold enumerate in Hik. apply elem_of_zip_r in Hik.
    exists name'. split; [exact Hik |].
    unfold k2_prints in Hin. cbn [fst snd] in Hin.
    apply elem_of_app in Hin as [Hin | Hin].
    + destruct (k2_fs inp !! apfile_of name'); [inversion Hin |].
      apply list_elem_of_singleton in Hin. split; [symmetry; exact Hin |].
      reflexivity.
    + destruct (decide (i mod 1000 = 0)%nat);
        [apply list_elem_of_singleton in Hin; discriminate Hin | inversion Hin].
Qed.

Lemma k2_output_in_order_witness :
  exists st',
    k2_mtg_rerun ex_k2_inputs ex_kid = Ok st'
    /\ stdout st'
       = [PrintStr "KIC data ingested"; PrintStr "Period data ingested";
          PrintStr "Starting loop through aprun files";
          PrintStr "aprun/100/100200.flare was not found!";
          PrintProgress 0 2].
Proof.
  destruct (k2_mtg_rerun ex_k2_inputs ex_kid) as [st' |] eqn:Hrun;
    [| vm_compute in Hrun; discriminate Hrun].
  exists st'. split; [reflexivity |].
  destruct (k2_output_in_order ex_k2_inputs ex_kid st' Hrun) as [Hout _].
  rewrite Hout. vm_compute. reflexivity.
Defined.

Section K2Failure.
Context (inp : k2_inputs) (kid : list string).
Hypothesis columns_ok : k2_columns_ok inp.
Hypothesis shapes_ok : k2_shapes_ok inp kid.

Lemma take_at_ok (a : list Q) (idx : list nat) :
  Forall (fun x => x < length a)%nat idx ->
  exists qs, take_at a idx = Ok qs /\ length qs = length idx.
Proof.
  induction 1 as [| x idx Hx _ IH]; [exists []; split; reflexivity |].
  destruct IH as (qs & Hqs & Hlen).
  apply lookup_lt_is_Some in Hx as [q Hq].
  exists (q :: qs). cbn. rewrite Hq, Hqs. cbn. split; [reflexivity | lia].
Qed.

Lemma set_item_long (a : list Q) (i : nat) (v : list Q) :
  (1 < length v)%nat -> set_item a i v = Raise ValueError.
Proof. destruct v as [| q [| q' v]]; cbn; [lia | lia | reflexivity]. Qed.

Lemma k2_colors_twice (i : nat) (name : string) (st : k2_state) :
  (1 < length (np_where_eq (kicnum inp) name))%nat ->
  k2_colors inp i name st = Raise ValueError.
Proof.
  intros Hkm. destruct columns_ok as (Hg & _ & Hi & _).
  pose proof (np_where_eq_bound (kicnum inp) name) as Hb.
  destruct shapes_ok as (Srows & _).
  unfold k2_colors. rewrite bool_decide_eq_true_2 by lia.
  rewrite !index_column_arrays by lia.
  destruct (take_at_ok (kic_g inp) (np_where_eq (kicnum inp) name))
    as (gs & -> & Lg); [rewrite Hg; exact Hb |].
  destruct (take_at_ok (kic_i inp) (np_where_eq (kicnum inp) name))
    as (ivs & -> & Li); [rewrite Hi; exact Hb |].
  cbn [bind]. rewrite set_item_long; [reflexivity |].
  rewrite length_zip_with. lia.
Qed.

Lemma k2_periods_twice (i : nat) (name : string) (st : k2_state) :
  (1 < length (np_where_eq (pnum inp) name))%nat ->
  k2_periods inp i name st = Raise ValueError.
Proof.
  intros Hpm. destruct columns_ok as (_ & _ & _ & Hp).
  pose proof (np_where_eq_bound (pnum inp) name) as Hb.
  destruct shapes_ok as (_ & Srows & _).
  unfold k2_periods. rewrite bool_decide_eq_true_2 by lia.
  rewrite !index_column_arrays by lia.
  destruct (take_at_ok (prot inp) (np_where_eq (pnum inp) name))
    as (ps & -> & Lp); [rewrite Hp; exact Hb |].
  cbn [bind]. rewrite set_item_long; [reflexivity | lia].
Qed.

Lemma k2_colors_once (i : nat) (name : string) (st : k2_state) :
  (length (np_where_eq (kicnum inp) name) <= 1)%nat ->
  exists st', k2_colors inp i name st = Ok st'.
Proof.
  intros Hkm. destruct columns_ok as (Hg & Hr & Hi & _).
  pose proof (np_where_eq_bound (kicnum inp) name) as Hb.
  destruct shapes_ok as (Srows & _).
  unfold k2_colors. case_bool_decide as Hlen; [| eauto].
  rewrite !index_column_arrays by lia.
  destruct (np_where_eq (kicnum inp) name) as [| x [| y km]];
    cbn [length] in *; [lia | | lia].
  apply Forall_cons in Hb as [Hx _].
  destruct (take_at_single (kic_g inp) x) as [g Eg]; [lia |].
  destruct (take_at_single (kic_i inp) x) as [i1 Ei]; [lia |].
  destruct (take_at_single (kic_r inp) x) as [r Er]; [lia |].
  rewrite Eg. cbn [bind]. rewrite Ei. cbn [bind zip_with set_item].
  rewrite Er. cbn [bind zip_with set_item]. eauto.
Qed.

Lemma k2_periods_once (i : nat) (name : string) (st : k2_state) :
  (length (np_where_eq (pnum inp) name) <= 1)%nat ->
  exists st', k2_periods inp i name st = Ok st'.
Proof.
  intros Hpm. destruct columns_ok as (_ & _ & _ & Hp).
  pose proof (np_where_eq_bound (pnum inp) name) as Hb.
  destruct shapes_ok as (_ & Srows & _).
  unfold k2_periods. case_bool_decide as Hlen; [| eauto].
  rewrite !index_column_arrays by lia.
  destruct (np_where_eq (pnum inp) name) as [| x [| y pm]];
    cbn [length] in *; [lia | | lia].
  apply Forall_cons in Hb as [Hx _].
  destruct (take_at_single (prot inp) x) as [p Ep]; [lia |].
  rewrite Ep. cbn [bind set_item]. eauto.
Qed.

(** a pass returns for a star listed at most once in each table, and raises
    [ValueError] otherwise *)
Lemma k2_body_outcome (i : nat) (name : string) (st : k2_state) :
  (~ listed_twice inp name
   /\ exists st', k2_body inp (length kid) i name st = Ok st')
  \/ (listed_twice inp name
      /\ k2_body inp (length kid) i name st = Raise ValueError).
Proof.
  unfold k2_body, listed_twice. rewrite k2_try_total. cbn [bind].
  match goal with
  | |- context [k2_colors inp i name ?s] => set (st1 := s)
  end.
  destruct (le_lt_dec (length (np_where_eq (kicnum inp) name)) 1) as [Hk | Hk].
  - destruct (k2_colors_once i name st1 Hk) as [st2 ->]. cbn [bind].
    destruct (le_lt_dec (length (np_where_eq (pnum inp) name)) 1) as [Hp | Hp].
    + left. split; [lia |].
      destruct (k2_periods_once i name st2 Hp) as [st3 ->]. cbn [bind].
      destruct (decide (i mod 1000 = 0)%nat); eauto.
    + right. split; [right; exact Hp |].
      rewrite (k2_periods_twice i name st2 Hp). reflexivity.
  - right. split; [left; exact Hk |].
    rewrite (k2_colors_twice i name st1 Hk). reflexivity.
Qed.

Lemma k2_loop_outcome (n start : nat) (st : k2_state) :
  (start + n <= length kid)%nat ->
  (Forall (fun name => ~ listed_twice inp name) (take n (drop start kid))
   /\ exists st', k2_loop_from inp kid start n st = Ok st')
  \/ (Exists (listed_twice inp) (take n (drop start kid))
      /\ k2_loop_from inp kid start n st = Raise ValueError).
Proof.
  revert start st. induction n as [| n IH]; intros start st Hn.
  - left. cbn. split; [constructor | eauto].
  - destruct (lookup_lt_is_Some_2 kid start) as [name Hname]; [lia |].
    rewrite (drop_S _ _ _ Hname). cbn [take].
    unfold k2_loop_from. cbn [for_range]. rewrite Hname.
    destruct (k2_body_outcome start name st) as [[Hok [st1 Hb]] | [Hbad Hb]];
      rewrite Hb; cbn [bind].
    + destruct (IH (S start) st1) as [[Hall Hret] | [Hex Herr]]; [lia | |].
      * left. split; [constructor; assumption | exact Hret].
      * right. split; [apply Exists_cons_tl, Hex | exact Herr].
    + right. split; [apply Exists_cons_hd, Hbad | reflexivity].
Qed.
End K2Failure.

(** X14: with tables read as arrays whose columns have equal lengths, the
    run returns exactly when no star of the list is named by two rows of the
    KIC table or of the period table, and raises [ValueError] as soon as one
    is: storing the two matches in one array element fails. *)
Theorem k2_listed_twice_raises (inp : k2_inputs) (kid : list string)
    (Hcols : k2_columns_ok inp)
    (Hshapes : k2_shapes_ok inp kid) :
  ((exists st', k2_mtg_rerun inp kid = Ok st')
   <-> forall name, name ∈ kid -> ~ listed_twice inp name)
  /\ (k2_mtg_rerun inp kid = Raise ValueError
      <-> exists name, name ∈ kid /\ listed_twice inp name).
Proof.
  pose proof (k2_loop_outcome inp kid Hcols Hshapes (length kid) 0
                (k2_init kid)) as Hout.
  rewrite drop_0, firstn_all in Hout.
  pose proof Hcols as (Hg & _). pose proof Hshapes as (Hrows & _ & Hkid).
  unfold k2_mtg_rerun. rewrite !decide_False by lia.
  destruct Hout as [[Hall [st Hret]] | [Hex Herr]]; [lia | |].
  - rewrite Hret. cbn [bind]. rewrite Forall_forall in Hall.
    split; split.
    + intros _. exact Hall.
    + intros _. eauto.
    + discriminate.
    + intros (name & Hin & Hbad). exfalso. exact (Hall name Hin Hbad).
  - rewrite Herr. cbn [bind]. rewrite Exists_exists in Hex.
    split; split.
    + intros [st' Hst']. discriminate Hst'.
    + intros Hall. destruct Hex as (name & Hin & Hbad).
      exfalso. exact (Hall name Hin Hbad).
    + intros _. exact Hex.
    + intros _. reflexivity.
Qed.

Lemma k2_listed_twice_raises_witness :
  k2_columns_ok (mk_k2_inputs ∅ [15; 16]%Q [14; 15]%Q [13; 14]%Q
                              ["200300"; "200300"]
                              ["100200"; "300400"] [12; 7]%Q)
  /\ k2_shapes_ok (mk_k2_inputs ∅ [15; 16]%Q [14; 15]%Q [13; 14]%Q
                                ["200300"; "200300"]
                                ["100200"; "300400"] [12; 7]%Q) ex_kid
  /\ k2_mtg_rerun (mk_k2_inputs ∅ [15; 16]%Q [14; 15]%Q [13; 14]%Q
                                ["200300"; "200300"]
                                ["100200"; "300400"] [12; 7]%Q)
                  ex_kid
     = Raise ValueError.
Proof.
  set (inp := mk_k2_inputs ∅ [15; 16]%Q [14; 15]%Q [13; 14]%Q
                           ["200300"; "200300"]
                           ["100200"; "300400"] [12; 7]%Q).
  assert (Hcols : k2_columns_ok inp) by (repeat split).
  assert (Hshapes : k2_shapes_ok inp ex_kid) by (repeat split; cbn; lia).
  split; [exact Hcols |]. split; [exact Hshapes |].
  apply (k2_listed_twice_raises inp ex_kid Hcols Hshapes).
  exists "200300". split; [apply list_elem_of_further, list_elem_of_here |].
  left. vm_compute. lia.
Defined.

(** ** k2_mtg_plots: the saved table and the colour scale *)

Section K2Saved.

Lemma map_default_lookup (a : list Q) (k : nat) :
  map (fun j => default 0%Q (a !! j)) (seq k (length a - k)) = drop k a.
Proof.
  remember (length a - k)%nat as n eqn:Hn. revert k Hn.
  induction n as [| n IH]; intros k Hn.
  - cbn. symmetry. apply drop_ge. lia.
  - cbn [seq map].
    destruct (lookup_lt_is_Some_2 a k) as [q Hq]; [lia |].
    rewrite (drop_S _ _ _ Hq), Hq. cbn. f_equal. apply IH. lia.
Qed.

Lemma omap_lookup_rows {B : Type} (f : B -> list Q) (c : nat) (g : B -> Q)
    (l : list B) :
  (forall x, f x !! c = Some (g x)) ->
  omap (fun row => row !! c) (map f l) = map g l.
Proof.
  intros Hf. induction l as [| x l IH]; [reflexivity |].
  cbn. rewrite Hf. cbn. f_equal. exact IH.
Qed.

Lemma loadtxt_unpack_rows (rows : list (list Q)) (r0 : list Q)
    (tl : list (list Q)) :
  rows = r0 :: tl ->
  loadtxt_unpack rows
  = map (fun c => omap (fun row => row !! c) rows) (seq 0 (length r0)).
Proof. intros ->. reflexivity. Qed.

(** X15: the table a run that returns leaves in [outfile] has one row of
    seven numbers per star, and reading it back by columns, as the branch
    [rerun=False] does, gives the seven arrays of the run. *)
Theorem k2_outfile_round_trip (inp : k2_inputs) (kid : list string)
    (st' : k2_state)
    (Hrun : k2_mtg_rerun inp kid = Ok st')
    (Hkid : (2 <= length kid)%nat) :
  exists rows,
    outfile st' = Some rows
    /\ length rows = length kid
    /\ Forall (fun row => length row = 7%nat) rows
    /\ loadtxt_unpack rows
       = [n_flares1 st'; n_flares2 st'; n_flares3 st'; n_flares4 st';
          gi_color st'; ri_color st'; periods st'].
Proof.
  destruct (k2_run_lengths inp kid st' Hrun)
    as (L1 & L2 & L3 & L4 & L5 & L6 & L7).
  pose proof Hrun as Hinv. apply k2_rerun_inv in Hinv as (st & _ & Hst).
  assert (Hrows : outfile st' = Some (outdata_T st')).
  { rewrite Hst. reflexivity. }
  exists (outdata_T st'). split; [exact Hrows |].
  unfold outdata_T. rewrite L1. split; [| split].
  - rewrite length_map, length_seq. reflexivity.
  - apply Forall_forall. intros row Hrow.
    apply list_elem_of_fmap in Hrow as (j & -> & _). reflexivity.
  - destruct (length kid) as [| n] eqn:Hn; [lia |].
    set (rowf := fun j => [default 0%Q (n_flares1 st' !! j);
                           default 0%Q (n_flares2 st' !! j);
                           default 0%Q (n_flares3 st' !! j);
                           default 0%Q (n_flares4 st' !! j);
                           default 0%Q (gi_color st' !! j);
                           default 0%Q (ri_color st' !! j);
                           default 0%Q (periods st' !! j)]).
    assert (Hcol : forall (a : list Q) c,
               length a = S n ->
               (forall j, rowf j !! c = Some (default 0%Q (a !! j))) ->
               omap (fun row => row !! c) (map rowf (seq 0 (S n))) = a).
    { intros a c La Hc.
      rewrite (omap_lookup_rows _ c (fun j => default 0%Q (a !! j)) _ Hc).
      pose proof (map_default_lookup a 0) as Hm.
      rewrite Nat.sub_0_r, La, drop_0 in Hm. exact Hm. }
    remember (map rowf (seq 0 (S n))) as rows eqn:Hrows'.
    assert (Htl : exists tl, rows = rowf 0%nat :: tl)
      by (subst rows; cbn; eauto).
    destruct Htl as [tl Htl].
    rewrite (loadtxt_unpack_rows rows (rowf 0%nat) tl Htl).
    change (length (rowf 0%nat)) with 7%nat. cbn [seq map]. subst rows.
    rewrite (Hcol (n_flares1 st') 0%nat L1) by reflexivity.
    rewrite (Hcol (n_flares2 st') 1%nat L2) by reflexivity.
    rewrite (Hcol (n_flares3 st') 2%nat L3) by reflexivity.
    rewrite (Hcol (n_flares4 st') 3%nat L4) by reflexivity.
    rewrite (Hcol (gi_color st') 4%nat L5) by reflexivity.
    rewrite (Hcol (ri_color st') 5%nat L6) by reflexivity.
    rewrite (Hcol (periods st') 6%nat L7) by reflexivity.
    reflexivity.
Qed.

Lemma k2_outfile_round_trip_witness :
  exists st' rows,
    k2_mtg_rerun ex_k2_inputs ex_kid = Ok st'
    /\ (2 <= length ex_kid)%nat
    /\ outfile st' = Some rows
    /\ loadtxt_unpack rows
       = [n_flares1 st'; n_flares2 st'; n_flares3 st'; n_flares4 st';
          gi_color st'; ri_color st'; periods st'].
Proof.
  destruct (k2_mtg_rerun ex_k2_inputs ex_kid) as [st' |] eqn:Hrun;
    [| vm_compute in Hrun; discriminate Hrun].
  assert (Hkid : (2 <= length ex_kid)%nat) by (cbn; lia).
  destruct (k2_outfile_round_trip ex_k2_inputs ex_kid st' Hrun Hkid)
    as (rows & Hrows & _ & _ & Hcols).
  exists st', rows. split; [reflexivity |]. split; [exact Hkid |].
  split; [exact Hrows | exact Hcols].
Defined.
End K2Saved.

Section K2Colour.
Local Open Scope R_scope.

Lemma log10_lt (x y : R) : 0 < x -> x < y -> log10 x < log10 y.
Proof.
  intros Hx Hxy. unfold log10.
  apply Rmult_lt_compat_r; [apply Rinv_0_lt_compat, ln10_pos |].
  apply ln_increasing; assumption.
Qed.

Lemma log10_le (x y : R) : 0 < x -> x <= y -> log10 x <= log10 y.
Proof.
  intros Hx [Hlt | ->]; [left; apply log10_lt; assumption | right; reflexivity].
Qed.

Lemma log10_10 : log10 10 = 1.
Proof. unfold log10. field. apply Rgt_not_eq, ln10_pos. Qed.

Lemma Rltb_true (a b : R) : Rltb a b = true <-> a < b.
Proof. unfold Rltb. destruct (Rlt_dec a b); split; (congruence || tauto). Qed.

Lemma Rltb_false (a b : R) : Rltb a b = false <-> b <= a.
Proof.
  unfold Rltb. destruct (Rlt_dec a b); split; try congruence; intros; rlra.
Qed.

(** use the bounds on the count that a case assumes *)
Ltac finish H :=
  try (let H1 := fresh in let H2 := fresh in destruct H as [H1 H2]);
  repeat match goal with
         | Himp : ?P -> _, Hp : ?P |- _ => specialize (Himp Hp)
         end;
  rlra.

(** X16: the colour value of a star is [log10] of its count cut to the
    range from 1 to the upper limit: a star with ten flares or fewer, one with
    none included ([log10 0 = -inf]), gets 1, one with [10^hi] flares or more
    gets [hi], and the value is [log10] of the count between the two. *)
Theorem k2_clr_range (hi : R) (n_flares4 : list Q) (j : nat) (q : Q)
    (Hhi : 1 <= hi)
    (Hj : n_flares4 !! j = Some q)
    (Hq : 0 <= Q2R q) :
  exists v : R,
    k2_clr hi n_flares4 !! j = Some (Fin v)
    /\ 1 <= v <= hi
    /\ (Q2R q <= 10 -> v = 1)
    /\ (Rpower 10 hi <= Q2R q -> v = hi)
    /\ (10 <= Q2R q <= Rpower 10 hi -> v = log10 (Q2R q)).
Proof.
  unfold k2_clr. rewrite !list_lookup_fmap, Hj. cbn [fmap option_fmap option_map].
  set (x := Q2R q) in *.
  pose proof (Rpower10_pos hi) as Hpow.
  destruct Hq as [Hpos | Hzero].
  - unfold np_log10. rewrite (Rsgn_pos x Hpos). cbn [np_ltb].
    assert (Hx10 : x <= 10 -> log10 x <= 1)
      by (intros H; rewrite <- log10_10; apply log10_le; assumption).
    assert (H10x : 10 <= x -> 1 <= log10 x)
      by (intros H; rewrite <- log10_10; apply log10_le; [rlra | assumption]).
    assert (Hxhi : x <= Rpower 10 hi -> log10 x <= hi)
      by (intros H; rewrite <- (log10_Rpower hi); apply log10_le; assumption).
    assert (Hhix : Rpower 10 hi <= x -> hi <= log10 x)
      by (intros H; rewrite <- (log10_Rpower hi) at 1; apply log10_le;
          assumption).
    destruct (Rltb hi (log10 x)) eqn:Hup.
    + apply Rltb_true in Hup. cbn [np_ltb].
      assert (Hlo : Rltb hi 1 = false) by (apply Rltb_false; exact Hhi).
      rewrite Hlo. exists hi. split; [reflexivity |].
      repeat split; try rlra; intros H; finish H.
    + apply Rltb_false in Hup. cbn [np_ltb].
      destruct (Rltb (log10 x) 1) eqn:Hlo.
      * apply Rltb_true in Hlo. exists 1. split; [reflexivity |].
        repeat split; try rlra; intros H; finish H.
      * apply Rltb_false in Hlo. exists (log10 x). split; [reflexivity |].
        repeat split; try rlra; intros H; finish H.
  - unfold np_log10. rewrite (Rsgn_zero x) by (symmetry; exact Hzero).
    cbn [np_ltb]. exists 1. split; [reflexivity |].
    repeat split; try rlra; intros H; try destruct H as [H H']; rlra.
Qed.

Lemma k2_clr_range_witness :
  1 <= 3 /\ 0 <= Q2R 0
  /\ exists v : R, k2_clr 3 [0%Q; 20%Q] !! 0%nat = Some (Fin v) /\ v = 1.
Proof.
  assert (Hhi : 1 <= 3) by rlra.
  assert (Hq : 0 <= Q2R 0) by (unfold Q2R; cbn; rlra).
  split; [exact Hhi |]. split; [exact Hq |].
  destruct (k2_clr_range 3 [0%Q; 20%Q] 0 0%Q Hhi eq_refl Hq)
    as (v & Hv & _ & Hlow & _).
  exists v. split; [exact Hv |]. apply Hlow. unfold Q2R. cbn. rlra.
Defined.
End K2Colour.

(** ** paper1_plots: the list of stars and the per-star totals *)

Section Stars.
Local Open Scope Q_scope.

Lemma first_occurrence (x : Z) (l : list Z) :
  x ∈ l -> exists p, first_at l x p.
Proof.
  induction l as [| y l IH]; intros Hin; [inversion Hin |].
  destruct (decide (y = x)) as [-> | Hne].
  - exists 0%nat. split; [reflexivity | intros q Hq; lia].
  - apply elem_of_cons in Hin as [-> | Hin]; [contradiction |].
    destruct (IH Hin) as (p & Hp & Hfirst). exists (S p).
    split; [exact Hp |]. intros [| q] Hq; cbn.
    + congruence.
    + apply Hfirst. lia.
Qed.

Lemma first_at_later (y x : Z) (l : list Z) (p : nat) :
  y <> x -> first_at l x p -> first_at (y :: l) x (S p).
Proof.
  intros Hne [Hp Hfirst]. split; [exact Hp |].
  intros [| q] Hq; cbn; [congruence | apply Hfirst; lia].
Qed.

(** two entries of the result stand in the order of their first rows *)
Lemma unique_from_order (seen l : list Z) (i j : nat) (a b : Z) :
  (i < j)%nat ->
  unique_from seen l !! i = Some a -> unique_from seen l !! j = Some b ->
  exists pa pb, first_at l a pa /\ first_at l b pb /\ (pa < pb)%nat.
Proof.
  revert seen i j. induction l as [| y l IH]; intros seen i j Hij Ha Hb;
    [discriminate |].
  cbn [unique_from] in Ha, Hb.
  destruct (decide (y ∈ seen)) as [Hin | Hnot].
  - destruct (unique_from_spec seen l) as (_ & Hmem & _).
    assert (Hya : y <> a).
    { intros ->. apply (proj1 (Hmem a)); [| exact Hin].
      apply list_elem_of_lookup. eauto. }
    assert (Hyb : y <> b).
    { intros ->. apply (proj1 (Hmem b)); [| exact Hin].
      apply list_elem_of_lookup. eauto. }
    destruct (IH seen i j Hij Ha Hb) as (pa & pb & Fa & Fb & Hlt).
    exists (S pa), (S pb).
    split; [apply first_at_later; assumption |].
    split; [apply first_at_later; assumption | lia].
  - destruct (unique_from_spec (y :: seen) l) as (_ & Hmem & _).
    destruct j as [| j]; [lia |]. cbn in Hb.
    assert (Hb' : b ∈ l /\ b ∉ y :: seen).
    { apply Hmem. apply list_elem_of_lookup. eauto. }
    destruct Hb' as [Hbl Hbs].
    assert (Hyb : y <> b).
    { intros ->. apply Hbs, list_elem_of_here. }
    destruct i as [| i]; cbn in Ha.
    + injection Ha as ->. destruct (first_occurrence b l Hbl) as [pb Fb].
      exists 0%nat, (S pb).
      split; [split; [reflexivity | intros q Hq; lia] |].
      split; [apply first_at_later; assumption | lia].
    + assert (Ha' : a ∈ l /\ a ∉ y :: seen).
      { apply Hmem. apply list_elem_of_lookup. eauto. }
      assert (Hya : y <> a).
      { intros ->. apply (proj2 Ha'), list_elem_of_here. }
      destruct (IH (y :: seen) i j) as (pa & pb & Fa & Fb & Hlt);
        [lia | exact Ha | exact Hb |].
      exists (S pa), (S pb).
      split; [apply first_at_later; assumption |].
      split; [apply first_at_later; assumption | lia].
Qed.

(** X17: [kicnum_c], the list of stars the big loop runs over, holds every
    KIC number of [fdata] exactly once, in the order of first appearance: of
    two stars the one whose first row comes earlier in the table is listed
    earlier.  So each star has one entry in every per-star array and at
    least one row. *)
Theorem kicnum_c_each_star_once (fdata : list condor_row) :
  NoDup (kicnum_c_of fdata)
  /\ (forall id, id ∈ kicnum_c_of fdata
                 <-> exists r, r ∈ fdata /\ c_kic r = id)
  /\ (forall i j a b,
         (i < j)%nat ->
         kicnum_c_of fdata !! i = Some a -> kicnum_c_of fdata !! j = Some b ->
         exists pa pb,
           first_at (map c_kic fdata) a pa /\ first_at (map c_kic fdata) b pb
           /\ (pa < pb)%nat)
  /\ kicnum_c_of fdata `sublist_of` map c_kic fdata
  /\ (forall id, id ∈ kicnum_c_of fdata -> star_rows fdata id <> [])
  /\ (length (kicnum_c_of fdata) <= length fdata)%nat.
Proof.
  unfold kicnum_c_of.
  destruct (unique_from_spec [] (map c_kic fdata)) as (Hnd & Hmem & Hsub).
  assert (Hrows : forall id, id ∈ unique_from [] (map c_kic fdata)
                             <-> exists r, r ∈ fdata /\ c_kic r = id).
  { intros id. rewrite Hmem, list_elem_of_fmap. split.
    - intros [(r & -> & Hr) _]. eauto.
    - intros (r & Hr & <-). split; [eauto |]. apply not_elem_of_nil. }
  split; [exact Hnd |]. split; [exact Hrows |].
  split; [intros i j a b; apply unique_from_order |].
  split; [exact Hsub |]. split.
  - intros id Hid. apply Hrows in Hid as (r & Hr & Hid).
    intros Hnil.
    assert (Hin : r ∈ star_rows fdata id)
      by (apply list_elem_of_filter; split; assumption).
    rewrite Hnil in Hin. inversion Hin.
  - apply sublist_length in Hsub. rewrite length_map in Hsub. exact Hsub.
Qed.

Section Totals.
Context (c : condor_row -> Q).

(** the sum over the stars of [ids] of their per-star sums *)
Let per_star (ids : list Z) (rows : list condor_row) : Q :=
  np_sum (map (fun id => np_sum (map c (star_rows rows id))) ids).

Lemma per_star_nil (ids : list Z) : per_star ids [] == 0.
Proof.
  unfold per_star. induction ids as [| id ids IH]; [reflexivity |].
  cbn [map]. rewrite np_sum_cons, IH. reflexivity.
Qed.

Lemma per_star_cons (ids : list Z) (r : condor_row) (rows : list condor_row) :
  NoDup ids ->
  per_star ids (r :: rows)
  == per_star ids rows + (if decide (c_kic r ∈ ids) then c r else 0).
Proof.
  unfold per_star. induction 1 as [| id ids Hnot Hnd IH].
  - reflexivity.
  - cbn [map]. rewrite !np_sum_cons, IH. unfold star_rows.
    rewrite filter_cons.
    destruct (decide (c_kic r = id)) as [Heq | Hne].
    + cbn [map]. rewrite np_sum_cons.
      destruct (decide (c_kic r ∈ ids)) as [Hin | _];
        [rewrite Heq in Hin; contradiction |].
      destruct (decide (c_kic r ∈ id :: ids)) as [_ | Hout];
        [ring | exfalso; apply Hout; rewrite Heq; apply list_elem_of_here].
    + destruct (decide (c_kic r ∈ ids)) as [Hin | Hnin].
      * destruct (decide (c_kic r ∈ id :: ids)) as [_ | Hout];
          [ring | exfalso; apply Hout, list_elem_of_further, Hin].
      * destruct (decide (c_kic r ∈ id :: ids)) as [Hin' | _]; [| ring].
        apply elem_of_cons in Hin' as [Heq | Hin']; [congruence | contradiction].
Qed.

Lemma per_star_total (ids : list Z) (rows : list condor_row) :
  NoDup ids -> (forall r, r ∈ rows -> c_kic r ∈ ids) ->
  per_star ids rows == np_sum (map c rows).
Proof.
  intros Hnd. induction rows as [| r rows IH]; intros Hcover.
  - apply per_star_nil.
  - rewrite (per_star_cons ids r rows Hnd). cbn [map]. rewrite np_sum_cons.
    destruct (decide (c_kic r ∈ ids)) as [_ | Hout].
    + rewrite IH; [ring |]. intros r' Hr'. apply Hcover, list_elem_of_further, Hr'.
    + exfalso. apply Hout, Hcover, list_elem_of_here.
Qed.
End Totals.
End Stars.

Section PerStarTotals.
Local Open Scope Q_scope.
Context (fdata : list condor_row) (kicdata : list kic_row).

(** a per-star array of sums, as the list of the sums of the stars *)
Lemma p1_sum_array (proj : p1_state -> list Q) (c : condor_row -> Q) (q0 : Q) :
  (forall bigdata st i id,
      proj (p1_star fdata bigdata st (i, id))
      = <[i := np_sum (map c (star_rows fdata id))]> (proj st)) ->
  proj (p1_init (length (kicnum_c_of fdata)))
  = replicate (length (kicnum_c_of fdata)) q0 ->
  proj (p1_loop fdata kicdata)
  = map (fun id => np_sum (map c (star_rows fdata id))) (kicnum_c_of fdata).
Proof.
  intros Hstep Hinit.
  set (bigdata := bigdata_of kicdata (kicnum_c_of fdata)).
  assert (Hstep' : forall st i id,
             proj (p1_star fdata bigdata st (i, id))
             = match (fun id => Some (np_sum (map c (star_rows fdata id)))) id with
               | Some y => <[i := y]> (proj st)
               | None => proj st
               end) by (intros; apply Hstep).
  apply (list_eq_same_length _ _ (length (kicnum_c_of fdata))).
  - apply length_map.
  - unfold p1_loop, enumerate. fold bigdata.
    rewrite (indexed_fold_length (p1_star fdata bigdata) proj
               (fun id => Some (np_sum (map c (star_rows fdata id))))
               Hstep'), Hinit.
    apply length_replicate.
  - intros k x y Hk Hx Hy.
    rewrite list_lookup_fmap in Hy.
    destruct (kicnum_c_of fdata !! k) as [id |] eqn:Hid; [| discriminate Hy].
    injection Hy as <-.
    unfold p1_loop, enumerate in Hx. fold bigdata in Hx.
    rewrite (indexed_fold_lookup (p1_star fdata bigdata) proj
               (fun id => Some (np_sum (map c (star_rows fdata id))))
               Hstep' (kicnum_c_of fdata) 0 k _ q0) in Hx.
    + destruct (decide (0 <= k)%nat); [| lia].
      rewrite Nat.sub_0_r, Hid in Hx. cbn in Hx. congruence.
    + rewrite Hinit. apply lookup_replicate_2. exact Hk.
Qed.

Lemma p1_arrays :
  Nflare (p1_loop fdata kicdata)
  = map (fun id => np_sum (map c_nflares (star_rows fdata id)))
        (kicnum_c_of fdata)
  /\ dur_all (p1_loop fdata kicdata)
     = map (fun id => np_sum (map c_dur (star_rows fdata id)))
           (kicnum_c_of fdata)
  /\ ED_all (p1_loop fdata kicdata)
     = map (fun id => np_sum (map c_sumED (star_rows fdata id)))
           (kicnum_c_of fdata).
Proof.
  split; [| split].
  - apply (p1_sum_array Nflare c_nflares 0); [| reflexivity].
    intros bigdata st i id. unfold p1_star.
    destruct (filter _ bigdata); reflexivity.
  - apply (p1_sum_array dur_all c_dur (-99)); [| reflexivity].
    intros bigdata st i id. unfold p1_star.
    destruct (filter _ bigdata); reflexivity.
  - apply (p1_sum_array ED_all c_sumED (-99)); [| reflexivity].
    intros bigdata st i id. unfold p1_star.
    destruct (filter _ bigdata); reflexivity.
Qed.
End PerStarTotals.

(** X18: the per-star aggregation loses nothing and counts nothing twice:
    summed over the stars, [Nflare], [dur_all] and [ED_all] give the totals
    of columns 4, 2 and 5 of [fdata]. *)
Theorem p1_totals_conserved (fdata : list condor_row) (kicdata : list kic_row) :
  (np_sum (Nflare (p1_loop fdata kicdata)) == np_sum (map c_nflares fdata))%Q
  /\ (np_sum (dur_all (p1_loop fdata kicdata)) == np_sum (map c_dur fdata))%Q
  /\ (np_sum (ED_all (p1_loop fdata kicdata)) == np_sum (map c_sumED fdata))%Q.
Proof.
  destruct (p1_arrays fdata kicdata) as (-> & -> & ->).
  destruct (unique_from_spec [] (map c_kic fdata)) as (Hnd & Hmem & _).
  assert (Hcover : forall r, r ∈ fdata -> c_kic r ∈ kicnum_c_of fdata).
  { intros r Hr. unfold kicnum_c_of. apply Hmem.
    split; [apply list_elem_of_fmap; eauto | apply not_elem_of_nil]. }
  repeat split; apply per_star_total; assumption.
Qed.

(** ** paper1_plots: the bins of the flare frequency distribution *)

Section FFDBins.
Local Open Scope Q_scope.

Lemma edbins1_length : length edbins1 = 51%nat.
Proof. reflexivity. Qed.

Lemma edbins1_sorted (j : nat) (e e' : Q) :
  edbins1 !! j = Some e -> edbins1 !! S j = Some e' -> e <= e'.
Proof.
  intros He He'.
  assert (Hall : forallb (fun p => Qle_bool (fst p) (snd p))
                         (zip edbins1 (drop 1 edbins1)) = true)
    by (vm_compute; reflexivity).
  rewrite forallb_forall in Hall.
  apply Qle_bool_iff. apply (Hall (e, e')).
  apply list_elem_of_In, list_elem_of_lookup. exists j.
  apply lookup_zip_with_Some. exists e, e'.
  split; [reflexivity |]. split; [exact He |].
  rewrite lookup_drop. exact He'.
Qed.

Lemma count_true_zero (mask : list bool) (j : nat) (b : bool) :
  count_true mask = 0%nat -> mask !! j = Some b -> b = false.
Proof.
  unfold count_true. intros Hzero Hj. destruct b; [| reflexivity].
  assert (Hin : true ∈ filter (fun b => b = true) mask).
  { apply list_elem_of_filter. split; [reflexivity |].
    apply list_elem_of_lookup. eauto. }
  apply nil_length_inv in Hzero. rewrite Hzero in Hin. inversion Hin.
Qed.

(** one portion adds to the bins at or above its cutoff, and to no other *)
Lemma ffd_add_row_lookup (fs fn : list Q) (r : condor_row) (j : nat) (e : Q) :
  edbins1 !! j = Some e ->
  fst (ffd_add_row (fs, fn) r) !! j
  = (fun s => if Qle_bool (c_loged68 r) e
              then s + default 0 (c_ffd r !! j) else s) <$> fs !! j
  /\ snd (ffd_add_row (fs, fn) r) !! j
     = (fun c => if Qle_bool (c_loged68 r) e then c + 1 else c) <$> fn !! j.
Proof.
  intros He. unfold ffd_add_row.
  assert (Hmask : map (fun e => Qle_bool (c_loged68 r) e) edbins1 !! j
                  = Some (Qle_bool (c_loged68 r) e))
    by (rewrite list_lookup_fmap, He; reflexivity).
  case_bool_decide as Hok; cbn [fst snd].
  - rewrite !list_lookup_imap, Hmask. cbn [default].
    destruct (fs !! j), (fn !! j); split; reflexivity.
  - assert (Hzero : count_true (map (fun e => Qle_bool (c_loged68 r) e) edbins1)
                    = 0%nat)
      by (rewrite <- np_where_length; lia).
    rewrite (count_true_zero _ _ _ Hzero Hmask).
    destruct (fs !! j), (fn !! j); split; reflexivity.
Qed.

Lemma ffd_fold_lookup (star : list condor_row) (fs0 fn0 : list Q)
    (j : nat) (e s0 c0 : Q) :
  edbins1 !! j = Some e -> fs0 !! j = Some s0 -> fn0 !! j = Some c0 ->
  exists s c,
    fst (foldl ffd_add_row (fs0, fn0) star) !! j = Some s
    /\ snd (foldl ffd_add_row (fs0, fn0) star) !! j = Some c
    /\ c == c0 + float_of_nat (length (portions_above star e))
    /\ (portions_above star e = [] -> s = s0 /\ c = c0).
Proof.
  intros He. revert fs0 fn0 s0 c0.
  induction star as [| r star IH]; intros fs0 fn0 s0 c0 Hs Hc.
  - exists s0, c0. cbn. repeat split; try assumption.
    unfold float_of_nat. cbn. ring.
  - cbn [foldl].
    destruct (ffd_add_row_lookup fs0 fn0 r j e He) as [Hs1 Hc1].
    rewrite Hs in Hs1. rewrite Hc in Hc1. cbn in Hs1, Hc1.
    destruct (ffd_add_row (fs0, fn0) r) as [fs1 fn1] eqn:Hacc.
    cbn [fst snd] in Hs1, Hc1.
    destruct (IH fs1 fn1 _ _ Hs1 Hc1) as (s & c & Hfs & Hfn & Hval & Hnone).
    exists s, c. split; [exact Hfs |]. split; [exact Hfn |].
    unfold portions_above in *. rewrite filter_cons.
    destruct (Qle_bool (c_loged68 r) e) eqn:Hb.
    + destruct (decide (true = true)); [| congruence]. split.
      * rewrite Hval. cbn [length]. unfold float_of_nat.
        rewrite Nat2Z.inj_succ, <- Z.add_1_r, inject_Z_plus. ring.
      * discriminate.
    + destruct (decide (false = true)); [discriminate |].
      split; [exact Hval | exact Hnone].
Qed.

Lemma ffd_add_row_length (acc : list Q * list Q) (r : condor_row) :
  length (fst (ffd_add_row acc r)) = length (fst acc)
  /\ length (snd (ffd_add_row acc r)) = length (snd acc).
Proof.
  unfold ffd_add_row.
  destruct (bool_decide _); cbn [fst snd]; rewrite ?length_imap;
    split; reflexivity.
Qed.

Lemma ffd_fold_length (star : list condor_row) (fs0 fn0 : list Q) :
  length (fst (foldl ffd_add_row (fs0, fn0) star)) = length fs0
  /\ length (snd (foldl ffd_add_row (fs0, fn0) star)) = length fn0.
Proof.
  revert fs0 fn0. induction star as [| r star IH]; intros fs0 fn0;
    [split; reflexivity |].
  cbn [foldl].
  destruct (ffd_add_row_length (fs0, fn0) r) as [A1 A2].
  destruct (ffd_add_row (fs0, fn0) r) as [fs1 fn1].
  cbn [fst snd] in A1, A2.
  destruct (IH fs1 fn1) as [L1 L2]. rewrite L1, L2. split; assumption.
Qed.

(** the two arrays of a star, bin by bin *)
Lemma ffd_sums_lookup (star : list condor_row) (j : nat) (e : Q) :
  edbins1 !! j = Some e ->
  exists s c,
    fst (ffd_sums star) !! j = Some s
    /\ snd (ffd_sums star) !! j = Some c
    /\ c == float_of_nat (length (portions_above star e))
    /\ (portions_above star e = [] -> s = 0 /\ c = 0).
Proof.
  intros He. unfold ffd_sums, np_zeros_like.
  assert (Hz : replicate (length edbins1) 0 !! j = Some 0).
  { apply lookup_replicate_2. eapply lookup_lt_Some, He. }
  destruct (ffd_fold_lookup star _ _ j e 0 0 He Hz Hz)
    as (s & c & Hs & Hc & Hval & Hnone).
  exists s, c. repeat split; try assumption; try (apply Hnone; assumption).
  rewrite Hval. ring.
Qed.
End FFDBins.

Section FFDClaims.
Local Open Scope Q_scope.

Lemma ffd_sums_length (star : list condor_row) :
  length (fst (ffd_sums star)) = 51%nat
  /\ length (snd (ffd_sums star)) = 51%nat.
Proof.
  destruct (ffd_fold_length star (np_zeros_like edbins1) (np_zeros_like edbins1))
    as [L1 L2].
  fold (ffd_sums star) in L1, L2.
  unfold np_zeros_like in L1, L2. rewrite length_replicate in L1, L2.
  split; [exact L1 | exact L2].
Qed.

Lemma fnorm_monotone (star : list condor_row) (j : nat) (c c' : Q) :
  snd (ffd_sums star) !! j = Some c ->
  snd (ffd_sums star) !! S j = Some c' -> c <= c'.
Proof.
  intros Hc Hc'. destruct (ffd_sums_length star) as [L1 L2].
  assert (Hj : (S j < length edbins1)%nat).
  { apply lookup_lt_Some in Hc'. rewrite L2 in Hc'. exact Hc'. }
  destruct (lookup_lt_is_Some_2 edbins1 j) as [e He]; [lia |].
  destruct (lookup_lt_is_Some_2 edbins1 (S j)) as [e' He']; [lia |].
  destruct (ffd_sums_lookup star j e He) as (s1 & c1 & _ & Hc1 & Hv1 & _).
  destruct (ffd_sums_lookup star (S j) e' He') as (s2 & c2 & _ & Hc2 & Hv2 & _).
  assert (c1 = c) as -> by congruence.
  assert (c2 = c') as -> by congruence.
  rewrite Hv1, Hv2. apply float_of_nat_le.
  unfold portions_above. apply filter_length_mono.
  intros r Hr. apply Qle_bool_iff in Hr. apply Qle_bool_iff.
  apply Qle_trans with e; [exact Hr |].
  apply (edbins1_sorted j); assumption.
Qed.

(** X19: for a star whose rows carry the 51 rates of the table, [fsum] and
    [fnorm] keep the 51 bins; [fnorm[j]] is the number of the star's
    portions whose 68% cutoff lies at or below bin [j], a bin no portion
    reaches has [fsum = fnorm = 0], and [fnorm] does not decrease from one
    bin to the next higher one. *)
Theorem fnorm_counts_portions (star : list condor_row)
    (Hrows : Forall (fun r => length (c_ffd r) = 51%nat) star) :
  length (fst (ffd_sums star)) = 51%nat
  /\ length (snd (ffd_sums star)) = 51%nat
  /\ (forall j e,
         edbins1 !! j = Some e ->
         exists s c,
           fst (ffd_sums star) !! j = Some s
           /\ snd (ffd_sums star) !! j = Some c
           /\ c == float_of_nat (length (portions_above star e))
           /\ (portions_above star e = [] -> s = 0 /\ c = 0))
  /\ (forall j c c',
         snd (ffd_sums star) !! j = Some c ->
         snd (ffd_sums star) !! S j = Some c' -> c <= c').
Proof.
  destruct (ffd_sums_length star) as [L1 L2].
  split; [exact L1 |]. split; [exact L2 |].
  split; [intros j e He; apply ffd_sums_lookup, He |].
  intros j c c'. apply fnorm_monotone.
Qed.

Lemma fnorm_counts_portions_witness :
  Forall (fun r => length (c_ffd r) = 51%nat) ex_star
  /\ length (snd (ffd_sums ex_star)) = 51%nat
  /\ (forall j c c',
         snd (ffd_sums ex_star) !! j = Some c ->
         snd (ffd_sums ex_star) !! S j = Some c' -> c <= c').
Proof.
  assert (Hrows : Forall (fun r => length (c_ffd r) = 51%nat) ex_star)
    by (repeat constructor).
  split; [exact Hrows |].
  destruct (fnorm_counts_portions ex_star Hrows) as (_ & L2 & _ & Hmono).
  split; [exact L2 | exact Hmono].
Defined.

Lemma cumsum_finite_prefix (rates : list (npfloat Q)) (i : nat) :
  (i < length rates)%nat ->
  (forall i' x, (i' <= i)%nat -> rates !! i' = Some x -> exists r, x = Fin r) ->
  exists a, np_cumsum rates !! i = Some (Fin a).
Proof.
  induction i as [| i IH]; intros Hlen Hfin.
  - destruct (lookup_lt_is_Some_2 _ _ Hlen) as [x Hx].
    destruct (Hfin 0%nat x (le_n _) Hx) as [r ->].
    exists r. destruct rates; [discriminate |]. cbn in *. exact Hx.
  - destruct IH as [a Ha]; [lia | |].
    { intros i' x Hi'. apply Hfin. lia. }
    destruct (lookup_lt_is_Some_2 _ _ Hlen) as [x Hx].
    destruct (Hfin (S i) x (le_n _) Hx) as [r ->].
    exists (a + r). apply (np_cumsum_step _ _ _ _ Ha Hx).
Qed.

Lemma cumsum_nan (rates : list (npfloat Q)) (i : nat) :
  rates !! i = Some NaN -> np_cumsum rates !! i = Some NaN.
Proof.
  intros Hx. destruct i as [| i].
  - destruct rates; [discriminate |]. cbn in *. exact Hx.
  - assert (Hlen : (i < length (np_cumsum rates))%nat).
    { rewrite np_cumsum_length. apply lookup_lt_Some in Hx. lia. }
    destruct (lookup_lt_is_Some_2 _ _ Hlen) as [y Hy].
    rewrite (np_cumsum_step _ _ _ _ Hy Hx). destruct y; reflexivity.
Qed.

(** X20: the averaged cumulative distribution of a star (rows with the 51
    rates of the table) is a number on the bins some portion reaches and NaN
    on all the others: entry [i] of [ffd_y] is finite when
    [fnorm[::-1][i] > 0] and NaN when it is 0. *)
Theorem ffd_y_finite_iff_counted (star : list condor_row) (i : nat) (c : Q)
    (Hrows : Forall (fun r => length (c_ffd r) = 51%nat) star)
    (Hc : reverse (snd (ffd_sums star)) !! i = Some c) :
  0 <= c
  /\ exists y,
       ffd_y_of (fst (ffd_sums star)) (snd (ffd_sums star)) !! i = Some y
       /\ (0 < c -> exists a, y = Fin a)
       /\ (c == 0 -> y = NaN).
Proof.
  destruct (ffd_sums_length star) as [L1 L2].
  pose proof (ffd_sums_lookup star) as Hbin.
  pose proof (fnorm_monotone star) as Hmono.
  set (fsum := fst (ffd_sums star)) in *.
  set (fnorm := snd (ffd_sums star)) in *.
  assert (Hi : (i < 51)%nat).
  { apply lookup_lt_Some in Hc. rewrite length_reverse, L2 in Hc. exact Hc. }
  assert (Hrev : forall k, (k < 51)%nat ->
                 reverse fnorm !! k = fnorm !! (50 - k)%nat
                 /\ reverse fsum !! k = fsum !! (50 - k)%nat).
  { intros k Hk. rewrite !reverse_lookup by lia. rewrite L1, L2.
    replace (51 - S k)%nat with (50 - k)%nat by lia. split; reflexivity. }
  assert (Hrate : forall k, (k < 51)%nat ->
            exists s ck,
              reverse fsum !! k = Some s /\ reverse fnorm !! k = Some ck
              /\ ffd_rates fsum fnorm !! k = Some (np_div (Fin s) (Fin ck))
              /\ 0 <= ck /\ (ck == 0 -> s = 0 /\ ck = 0)).
  { intros k Hk. destruct (Hrev k Hk) as [Rn Rs].
    destruct (lookup_lt_is_Some_2 edbins1 (50 - k)) as [e He];
      [rewrite edbins1_length; lia |].
    destruct (Hbin _ _ He) as (s & ck & Hs & Hck & Hval & Hnone).
    exists s, ck. rewrite Rs, Rn. split; [exact Hs |]. split; [exact Hck |].
    split.
    - unfold ffd_rates. rewrite lookup_zip_with, Rs, Rn, Hs, Hck. reflexivity.
    - split.
      + rewrite Hval. apply (float_of_nat_le 0). lia.
      + intros Hz. rewrite Hval in Hz. apply float_of_nat_zero in Hz.
        apply Hnone. apply nil_length_inv. exact Hz. }
  assert (Hdown : forall k ck, (k <= i)%nat ->
                    reverse fnorm !! k = Some ck -> c <= ck).
  { intros k ck Hk. remember (i - k)%nat as d eqn:Hd. revert k ck Hk Hd.
    induction d as [| d IHd]; intros k ck Hk Hd Hck.
    - assert (k = i) as -> by lia. assert (ck = c) as -> by congruence.
      apply Qle_refl.
    - destruct (Hrev k) as [Rk _]; [lia |].
      destruct (Hrev (S k)) as [Rk' _]; [lia |].
      destruct (lookup_lt_is_Some_2 (reverse fnorm) (S k)) as [ck' Hck'];
        [rewrite length_reverse, L2; lia |].
      apply Qle_trans with ck'; [apply (IHd (S k)); [lia | lia | exact Hck'] |].
      rewrite Rk in Hck. rewrite Rk' in Hck'.
      apply (Hmono (50 - S k)%nat); [exact Hck' |].
      replace (S (50 - S k)) with (50 - k)%nat by lia. exact Hck. }
  destruct (Hrate i Hi) as (s & ci & Hs & Hci & Hr & Hpos & Hzero).
  assert (ci = c) as -> by congruence.
  split; [exact Hpos |].
  assert (Hlen : (i < length (ffd_y_of fsum fnorm))%nat).
  { unfold ffd_y_of. rewrite np_cumsum_length. apply lookup_lt_Some in Hr.
    exact Hr. }
  destruct (lookup_lt_is_Some_2 _ _ Hlen) as [y Hy].
  exists y. split; [exact Hy |]. split.
  - intros Hgt. unfold ffd_y_of in Hy.
    destruct (cumsum_finite_prefix (ffd_rates fsum fnorm) i) as [a Ha].
    + apply lookup_lt_Some in Hr. exact Hr.
    + intros k x Hk Hx. destruct (Hrate k) as (sk & ck & _ & Hck & Hrk & _);
        [lia |].
      rewrite Hrk in Hx. injection Hx as <-.
      exists (sk / ck). apply np_div_pos.
      apply Qlt_le_trans with c; [exact Hgt | apply (Hdown k); [exact Hk | exact Hck]].
    + exists a. congruence.
  - intros Hz. destruct (Hzero Hz) as [-> ->].
    unfold ffd_y_of in Hy. rewrite (cumsum_nan _ _ Hr) in Hy. congruence.
Qed.

Lemma ffd_y_finite_iff_counted_witness :
  Forall (fun r => length (c_ffd r) = 51%nat) ex_star
  /\ reverse (snd (ffd_sums ex_star)) !! 0%nat = Some 1
  /\ 0 <= 1
  /\ exists y,
       ffd_y_of (fst (ffd_sums ex_star)) (snd (ffd_sums ex_star)) !! 0%nat
       = Some y
       /\ (0 < 1 -> exists a, y = Fin a)
       /\ (1 == 0 -> y = NaN).
Proof.
  assert (Hc : reverse (snd (ffd_sums ex_star)) !! 0%nat = Some 1)
    by (vm_compute; reflexivity).
  assert (Hrows : Forall (fun r => length (c_ffd r) = 51%nat) ex_star)
    by (repeat constructor).
  split; [exact Hrows |]. split; [exact Hc |].
  exact (ffd_y_finite_iff_counted ex_star 0 1 Hrows Hc).
Defined.
End FFDClaims.

(** ** compare_2_lit: np.unique and the loop over the stars *)

Section UniqueCounts.
Local Notation "'slt'" := OrderedTypeEx.String_as_OT.lt.
Local Notation "'sorted'" :=
  (Sorted.StronglySorted
     (fun p q : string * nat => OrderedTypeEx.String_as_OT.lt (fst p) (fst q))).

Lemma compare_Gt_lt (x y : string) : String.compare x y = Gt -> slt y x.
Proof.
  intros Hc. apply OrderedTypeEx.String_as_OT.cmp_lt.
  unfold OrderedTypeEx.String_as_OT.cmp.
  rewrite String.compare_antisym, Hc. reflexivity.
Qed.

Lemma slt_irrefl (x : string) : ~ slt x x.
Proof.
  intros Hx. apply (OrderedTypeEx.String_as_OT.lt_not_eq x x Hx). reflexivity.
Qed.

Lemma occurrences_cons (name x : string) (raw : list string) :
  occurrences name (x :: raw)
  = if decide (x = name) then S (occurrences name raw)
    else occurrences name raw.
Proof.
  unfold occurrences. rewrite filter_cons.
  destruct (decide (x = name)); reflexivity.
Qed.

Lemma occurrences_zero (name : string) (raw : list string) :
  occurrences name raw = 0%nat <-> name ∉ raw.
Proof.
  induction raw as [| x raw IH]; [split; [intros _; apply not_elem_of_nil | reflexivity] |].
  rewrite occurrences_cons, not_elem_of_cons.
  destruct (decide (x = name)) as [-> | Hne].
  - split; [discriminate | intros [Hne _]; congruence].
  - rewrite IH. split; [intros Hn; split; [congruence | exact Hn] | intros [_ Hn]; exact Hn].
Qed.

Lemma unique_insert_keys (x : string) (u : list (string * nat)) (name : string) :
  name ∈ map fst (unique_insert x u) <-> name = x \/ name ∈ map fst u.
Proof.
  induction u as [| [y n] u IH]; cbn [unique_insert map fst].
  - rewrite list_elem_of_singleton. split; [intros ->; left; reflexivity |].
    intros [-> | Hn]; [reflexivity | inversion Hn].
  - destruct (String.compare x y) eqn:Hc; cbn [map fst].
    + apply OrderedTypeEx.String_as_OT.cmp_eq in Hc as ->.
      rewrite elem_of_cons. tauto.
    + rewrite !elem_of_cons. tauto.
    + rewrite !elem_of_cons, IH. tauto.
Qed.

Lemma unique_insert_Forall (P : string -> Prop) (x : string)
    (u : list (string * nat)) :
  P x -> Forall (fun p => P (fst p)) u ->
  Forall (fun p => P (fst p)) (unique_insert x u).
Proof.
  intros Hx. induction 1 as [| [y n] u Hy Hu IH]; cbn [unique_insert].
  - repeat constructor. exact Hx.
  - destruct (String.compare x y); repeat (constructor; try assumption).
Qed.

Lemma unique_insert_sorted (x : string) (u : list (string * nat)) :
  sorted u -> sorted (unique_insert x u).
Proof.
  induction 1 as [| [y n] u Hs IH Hall]; cbn [unique_insert].
  - repeat constructor.
  - destruct (String.compare x y) eqn:Hc.
    + constructor; [exact Hs | exact Hall].
    + apply OrderedTypeEx.String_as_OT.cmp_lt in Hc.
      constructor; [constructor; assumption |].
      constructor; [exact Hc |].
      eapply Forall_impl; [exact Hall |]. cbn. intros p Hp.
      eapply OrderedTypeEx.String_as_OT.lt_trans; eassumption.
    + constructor; [exact IH |].
      apply (unique_insert_Forall (slt y)); [apply compare_Gt_lt, Hc | exact Hall].
Qed.

Lemma unique_table_sorted (raw : list string) : sorted (unique_table raw).
Proof.
  induction raw as [| x raw IH]; [constructor |].
  apply unique_insert_sorted, IH.
Qed.

Lemma above_not_key (y : string) (u : list (string * nat)) :
  Forall (fun p => slt y (fst p)) u -> y ∉ map fst u.
Proof.
  intros Hall Hin. apply list_elem_of_fmap in Hin as ([z m] & -> & Hin).
  rewrite Forall_forall in Hall. apply (slt_irrefl z), (Hall _ Hin).
Qed.

Lemma sorted_keys_NoDup (u : list (string * nat)) :
  sorted u -> NoDup (map fst u).
Proof.
  induction 1 as [| [y n] u Hs IH Hall]; cbn [map fst]; constructor.
  - apply above_not_key, Hall.
  - exact IH.
Qed.

(** where an entry of the table after one more string comes from *)
Lemma unique_insert_elem (x : string) (u : list (string * nat))
    (name : string) (n : nat) :
  sorted u -> (name, n) ∈ unique_insert x u ->
  (name <> x /\ (name, n) ∈ u)
  \/ (name = x /\ n = 1%nat /\ x ∉ map fst u)
  \/ (name = x /\ exists m, n = S m /\ (x, m) ∈ u).
Proof.
  induction 1 as [| [y k] u Hs IH Hall]; cbn [unique_insert]; intros Hin.
  - apply list_elem_of_singleton in Hin. injection Hin as -> ->.
    right; left. split; [reflexivity |]. split; [reflexivity |].
    apply not_elem_of_nil.
  - pose proof (above_not_key y u Hall) as Hy.
    destruct (String.compare x y) eqn:Hc.
    + apply OrderedTypeEx.String_as_OT.cmp_eq in Hc as ->.
      apply elem_of_cons in Hin as [Hin | Hin].
      * injection Hin as -> ->. right; right. split; [reflexivity |].
        exists k. split; [reflexivity | apply list_elem_of_here].
      * left. split; [| apply list_elem_of_further, Hin].
        intros ->. apply Hy, list_elem_of_fmap. exists (y, n). split; [reflexivity | exact Hin].
    + apply OrderedTypeEx.String_as_OT.cmp_lt in Hc.
      assert (Hx : x ∉ map fst ((y, k) :: u)).
      { apply above_not_key. constructor; [exact Hc |].
        eapply Forall_impl; [exact Hall |]. cbn. intros p Hp.
        eapply OrderedTypeEx.String_as_OT.lt_trans; eassumption. }
      apply elem_of_cons in Hin as [Hin | Hin].
      * injection Hin as -> ->. right; left. repeat split. exact Hx.
      * left. split; [| exact Hin].
        intros ->. apply Hx, list_elem_of_fmap. exists (x, n). split; [reflexivity | exact Hin].
    + assert (Hne : y <> x).
      { intros ->. apply (slt_irrefl x), compare_Gt_lt, Hc. }
      apply elem_of_cons in Hin as [Hin | Hin].
      * injection Hin as -> ->. left. split; [exact Hne | apply list_elem_of_here].
      * destruct (IH Hin) as [[Hn Hu] | [(-> & -> & Hu) | (-> & m & -> & Hu)]].
        -- left. split; [exact Hn | apply list_elem_of_further, Hu].
        -- right; left. repeat split. cbn [map fst].
           rewrite not_elem_of_cons. split; [congruence | exact Hu].
        -- right; right. split; [reflexivity |]. exists m.
           split; [reflexivity | apply list_elem_of_further, Hu].
Qed.

Lemma unique_table_keys (raw : list string) (name : string) :
  name ∈ map fst (unique_table raw) <-> name ∈ raw.
Proof.
  induction raw as [| x raw IH]; [reflexivity |].
  cbn [unique_table foldr]. fold (unique_table raw).
  rewrite unique_insert_keys, IH, elem_of_cons. reflexivity.
Qed.

Lemma unique_table_counts (raw : list string) (name : string) (n : nat) :
  (name, n) ∈ unique_table raw -> n = occurrences name raw.
Proof.
  revert name n. induction raw as [| x raw IH]; intros name n Hin;
    [inversion Hin |].
  cbn [unique_table foldr] in Hin. fold (unique_table raw) in Hin.
  rewrite occurrences_cons.
  destruct (unique_insert_elem _ _ _ _ (unique_table_sorted raw) Hin)
    as [[Hn Hu] | [(-> & -> & Hu) | (-> & m & -> & Hu)]].
  - destruct (decide (x = name)); [congruence | apply IH, Hu].
  - destruct (decide (x = x)); [| congruence].
    rewrite unique_table_keys in Hu. apply occurrences_zero in Hu.
    rewrite Hu. reflexivity.
  - destruct (decide (x = x)); [| congruence]. f_equal. apply IH, Hu.
Qed.

(** [np.unique] with counts: no value twice, the values of the raw column,
    each with the number of its occurrences *)
Lemma np_unique_counts_spec (raw : list string) :
  NoDup (fst (np_unique_counts raw))
  /\ length (fst (np_unique_counts raw)) = length (snd (np_unique_counts raw))
  /\ (forall name, name ∈ fst (np_unique_counts raw) <-> name ∈ raw)
  /\ (forall k name,
         fst (np_unique_counts raw) !! k = Some name ->
         snd (np_unique_counts raw) !! k
         = Some (float_of_nat (occurrences name raw))).
Proof.
  unfold np_unique_counts. cbn [fst snd].
  split; [apply sorted_keys_NoDup, unique_table_sorted |].
  split; [rewrite !length_map; reflexivity |].
  split; [apply unique_table_keys |].
  intros k name Hk.
  pose proof (list_lookup_fmap fst (unique_table raw) k) as Hf.
  pose proof (list_lookup_fmap (fun p : string * nat => float_of_nat (snd p))
                (unique_table raw) k) as Hs.
  etransitivity; [exact Hs |].
  assert (Hk' : fst <$> unique_table raw !! k = Some name)
    by (rewrite <- Hf; exact Hk).
  destruct (unique_table raw !! k) as [[y n] |] eqn:Hu; [| discriminate].
  cbn in Hk' |- *. injection Hk' as ->.
  rewrite (unique_table_counts raw name n); [reflexivity |].
  apply list_elem_of_lookup. eauto.
Qed.
End UniqueCounts.

Section WhereEq.

Lemma where_eq_from_nil (s : nat) (ids : list string) (name : string) :
  name ∉ ids ->
  omap (fun '(i, b) => if b : bool then Some i else None)
       (zip (seq s (length (map (fun id => bool_decide (id = name)) ids)))
            (map (fun id => bool_decide (id = name)) ids))
  = [].
Proof.
  intros Hnot. apply nil_length_inv.
  rewrite where_from_length, count_true_map.
  destruct (length (filter _ ids)) eqn:Hlen; [reflexivity |].
  assert (Hpos : (0 < length (filter (fun id => bool_decide (id = name) = true)
                                     ids))%nat) by lia.
  apply filter_pos_exists in Hpos as (k & id & Hk & Hid).
  apply bool_decide_eq_true in Hid as ->.
  exfalso. apply Hnot. apply list_elem_of_lookup. eauto.
Qed.

Lemma where_from_cons (s : nat) (b : bool) (mask : list bool) :
  omap (fun '(i, b) => if b : bool then Some i else None)
       (zip (seq s (length (b :: mask))) (b :: mask))
  = (if b then [s] else [])
    ++ omap (fun '(i, b) => if b : bool then Some i else None)
            (zip (seq (S s) (length mask)) mask).
Proof. destruct b; reflexivity. Qed.

Lemma where_eq_from_unique (s : nat) (ids : list string) (name : string)
    (k : nat) :
  NoDup ids -> ids !! k = Some name ->
  omap (fun '(i, b) => if b : bool then Some i else None)
       (zip (seq s (length (map (fun id => bool_decide (id = name)) ids)))
            (map (fun id => bool_decide (id = name)) ids))
  = [(s + k)%nat].
Proof.
  revert s k. induction ids as [| id ids IH]; intros s k Hnd Hk;
    [discriminate |].
  apply NoDup_cons in Hnd as [Hid Hnd].
  change (map (fun id => bool_decide (id = name)) (id :: ids))
    with (bool_decide (id = name)
          :: map (fun id => bool_decide (id = name)) ids).
  rewrite where_from_cons.
  destruct k as [| k]; cbn in Hk.
  - injection Hk as ->. rewrite bool_decide_eq_true_2 by reflexivity.
    rewrite (where_eq_from_nil (S s) ids name Hid).
    cbn. f_equal. lia.
  - rewrite bool_decide_eq_false_2.
    + rewrite (IH (S s) k Hnd Hk). cbn. f_equal. lia.
    + intros ->. apply Hid. apply list_elem_of_lookup. eauto.
Qed.

(** in a column without repeats a name matches one row or none *)
Lemma np_where_eq_NoDup (ids : list string) (name : string) :
  NoDup ids ->
  ((name ∉ ids) /\ np_where_eq ids name = [])
  \/ (exists k, ids !! k = Some name /\ np_where_eq ids name = [k]).
Proof.
  intros Hnd. destruct (decide (name ∈ ids)) as [Hin | Hnot].
  - right. apply list_elem_of_lookup in Hin as [k Hk]. exists k.
    split; [exact Hk |]. unfold np_where_eq, np_where.
    apply (where_eq_from_unique 0 ids name k Hnd Hk).
  - left. split; [exact Hnot | apply np_where_eq_nil, Hnot].
Qed.

Lemma np_where_eq_occurrences (ids : list string) (name : string) :
  length (np_where_eq ids name) = occurrences name ids.
Proof.
  unfold np_where_eq, occurrences. rewrite np_where_length, count_true_map.
  f_equal. apply list_filter_iff. intros id. apply bool_decide_eq_true.
Qed.

Lemma where_from_elem (s : nat) (mask : list bool) (x : nat) :
  x ∈ omap (fun '(i, b) => if b : bool then Some i else None)
           (zip (seq s (length mask)) mask)
  <-> exists k, x = (s + k)%nat /\ mask !! k = Some true.
Proof.
  rewrite list_elem_of_omap. split.
  - intros ([i b] & Hin & Hx). destruct b; [| discriminate].
    injection Hx as ->. apply list_elem_of_lookup in Hin as [k Hk].
    apply lookup_zip_Some in Hk as [Hi Hb].
    apply lookup_seq in Hi as [-> _]. eauto.
  - intros (k & -> & Hk). exists ((s + k)%nat, true). split; [| reflexivity].
    apply list_elem_of_lookup. exists k. apply lookup_zip_Some.
    split; [| exact Hk]. apply lookup_seq. split; [reflexivity |].
    eapply lookup_lt_Some, Hk.
Qed.

Lemma np_where_eq_elem (ids : list string) (name : string) (k : nat) :
  k ∈ np_where_eq ids name <-> ids !! k = Some name.
Proof.
  unfold np_where_eq, np_where. rewrite where_from_elem. split.
  - intros (k' & -> & Hk). cbn.
    pose proof (list_lookup_fmap (fun id => bool_decide (id = name)) ids k')
      as Hf.
    assert (Hk' : (fun id => bool_decide (id = name)) <$> ids !! k' = Some true)
      by (rewrite <- Hf; exact Hk).
    destruct (ids !! k') as [id |]; [| discriminate].
    cbn in Hk'. injection Hk' as Hd. apply bool_decide_eq_true in Hd as ->.
    reflexivity.
  - intros Hk. exists k. split; [reflexivity |].
    etransitivity; [apply list_lookup_fmap |]. rewrite Hk. cbn.
    rewrite bool_decide_eq_true_2; reflexivity.
Qed.
End WhereEq.

Section C2LMatch.
Local Open Scope Q_scope.

Lemma c2l_match_once (ids : list string) (num : list Q) (name : string)
    (i : nat) (out : list Q) :
  length ids = length num ->
  (length (np_where_eq ids name) <= 1)%nat ->
  c2l_match ids num name i out = Ok (c2l_stored ids num name i out).
Proof.
  intros Hlen Hone. pose proof (np_where_eq_bound ids name) as Hb.
  unfold c2l_match, c2l_stored.
  destruct (np_where_eq ids name) as [| k [| k' x]]; cbn [length] in *.
  - rewrite bool_decide_eq_false_2 by lia. reflexivity.
  - rewrite bool_decide_eq_true_2 by lia.
    apply Forall_cons in Hb as [Hk _].
    destruct (lookup_lt_is_Some_2 num k) as [q Hq]; [lia |].
    cbn. rewrite Hq. reflexivity.
  - lia.
Qed.

Lemma c2l_match_twice (ids : list string) (num : list Q) (name : string)
    (i : nat) (out : list Q) :
  length ids = length num ->
  (1 < length (np_where_eq ids name))%nat ->
  c2l_match ids num name i out = Raise ValueError.
Proof.
  intros Hlen Htwo. pose proof (np_where_eq_bound ids name) as Hb.
  unfold c2l_match. rewrite bool_decide_eq_true_2 by lia.
  destruct (take_at_ok num (np_where_eq ids name)) as (qs & -> & Lqs);
    [rewrite <- Hlen; exact Hb |].
  cbn [bind]. apply set_item_long. lia.
Qed.

Lemma c2l_stored_length (ids : list string) (num : list Q) (name : string)
    (i : nat) (out : list Q) :
  length (c2l_stored ids num name i out) = length out.
Proof.
  unfold c2l_stored.
  destruct (np_where_eq ids name) as [| k [| k' x]]; try reflexivity.
  destruct (num !! k); [apply length_insert | reflexivity].
Qed.

Lemma c2l_stored_other (ids : list string) (num : list Q) (name : string)
    (i j : nat) (out : list Q) :
  i <> j -> c2l_stored ids num name i out !! j = out !! j.
Proof.
  intros Hne. unfold c2l_stored.
  destruct (np_where_eq ids name) as [| k [| k' x]]; try reflexivity.
  destruct (num !! k); [apply list_lookup_insert_ne, Hne | reflexivity].
Qed.

(** the value stored at [i] depends on the array only through entry [i] *)
Lemma c2l_stored_same (ids : list string) (num : list Q) (name : string)
    (i : nat) (a b : list Q) :
  a !! i = b !! i ->
  c2l_stored ids num name i a !! i = c2l_stored ids num name i b !! i.
Proof.
  intros Hab. unfold c2l_stored.
  destruct (np_where_eq ids name) as [| k [| k' x]]; try exact Hab.
  destruct (num !! k) as [q |]; [| exact Hab].
  rewrite !list_lookup_insert.
  destruct (a !! i) as [qa |] eqn:Ha; symmetry in Hab.
  - apply lookup_lt_Some in Ha, Hab.
    rewrite !decide_True by (split; [reflexivity | assumption]). reflexivity.
  - apply lookup_ge_None in Ha. pose proof Hab as Hb.
    apply lookup_ge_None in Hb.
    rewrite !decide_False by lia. rewrite Hab. reflexivity.
Qed.

Lemma c2l_filled_zero (kid ids : list string) (num : list Q) (start : nat)
    (a : list Q) :
  c2l_filled kid ids num start 0 a a.
Proof.
  split; [reflexivity |]. intros j. rewrite decide_False by lia. reflexivity.
Qed.

Lemma c2l_filled_step (kid ids : list string) (num : list Q) (start n : nat)
    (name : string) (a a' : list Q) :
  kid !! start = Some name ->
  c2l_filled kid ids num (S start) n (c2l_stored ids num name start a) a' ->
  c2l_filled kid ids num start (S n) a a'.
Proof.
  intros Hname [Hlen Hval]. split.
  - rewrite Hlen. apply c2l_stored_length.
  - intros j. rewrite (Hval j).
    destruct (decide (j = start)) as [-> | Hne].
    + rewrite decide_False by lia. rewrite decide_True by lia.
      rewrite Hname. reflexivity.
    + destruct (decide (S start <= j < S start + n)%nat) as [Hin | Hout].
      * rewrite decide_True by lia.
        destruct (kid !! j) as [name' |].
        -- apply c2l_stored_same. apply c2l_stored_other. congruence.
        -- apply c2l_stored_other. congruence.
      * rewrite decide_False by lia. apply c2l_stored_other. congruence.
Qed.
End C2LMatch.

Section C2LLoop.
Local Open Scope Q_scope.
Context (kid pid : list string) (pnum : list Q).
Context (bid : list string) (bnum : list Q) (sid : list string) (snum : list Q).
Hypothesis pitkin_ok : length pid = length pnum.
Hypothesis balona_ok : NoDup bid /\ length bid = length bnum.
Hypothesis shibayama_ok : NoDup sid /\ length sid = length snum.

Lemma unique_matches_once (ids : list string) (name : string) :
  NoDup ids -> (length (np_where_eq ids name) <= 1)%nat.
Proof.
  intros Hnd.
  destruct (np_where_eq_NoDup ids name Hnd) as [[_ ->] | (k & _ & ->)];
    cbn; lia.
Qed.

Lemma c2l_body_outcome (i : nat) (name : string) (st : c2l_state) :
  ((occurrences name pid <= 1)%nat
   /\ c2l_body pid pnum bid bnum sid snum i name st
      = Ok (mk_c2l (c2l_stored pid pnum name i (p_flares st))
                   (c2l_stored bid bnum name i (b_flares st))
                   (c2l_stored sid snum name i (s_flares st))))
  \/ ((1 < occurrences name pid)%nat
      /\ c2l_body pid pnum bid bnum sid snum i name st = Raise ValueError).
Proof.
  destruct balona_ok as [Hbn Hbl]. destruct shibayama_ok as [Hsn Hsl].
  rewrite <- np_where_eq_occurrences. unfold c2l_body.
  destruct (le_lt_dec (length (np_where_eq pid name)) 1) as [Hp | Hp].
  - left. split; [exact Hp |].
    rewrite (c2l_match_once pid pnum name i _ pitkin_ok Hp). cbn [bind].
    rewrite (c2l_match_once bid bnum name i _ Hbl (unique_matches_once _ _ Hbn)).
    cbn [bind].
    rewrite (c2l_match_once sid snum name i _ Hsl (unique_matches_once _ _ Hsn)).
    reflexivity.
  - right. split; [exact Hp |].
    rewrite (c2l_match_twice pid pnum name i _ pitkin_ok Hp). reflexivity.
Qed.

Lemma c2l_loop_outcome (n start : nat) (st : c2l_state) :
  (start + n <= length kid)%nat ->
  (Forall (fun name => occurrences name pid <= 1)%nat (take n (drop start kid))
   /\ exists st',
        c2l_loop_from kid pid pnum bid bnum sid snum start n st = Ok st'
        /\ c2l_filled kid pid pnum start n (p_flares st) (p_flares st')
        /\ c2l_filled kid bid bnum start n (b_flares st) (b_flares st')
        /\ c2l_filled kid sid snum start n (s_flares st) (s_flares st'))
  \/ (Exists (fun name => 1 < occurrences name pid)%nat
             (take n (drop start kid))
      /\ c2l_loop_from kid pid pnum bid bnum sid snum start n st
         = Raise ValueError).
Proof.
  revert start st. induction n as [| n IH]; intros start st Hn.
  - left. split; [constructor |]. exists st.
    split; [reflexivity |]. split; [| split]; apply c2l_filled_zero.
  - destruct (lookup_lt_is_Some_2 kid start) as [name Hname]; [lia |].
    rewrite (drop_S _ _ _ Hname). cbn [take].
    unfold c2l_loop_from. cbn [for_range]. rewrite Hname.
    destruct (c2l_body_outcome start name st) as [[Hok Hb] | [Hbad Hb]];
      rewrite Hb; cbn [bind].
    + match goal with
      | |- context [for_range _ (S start) n ?s] => set (st1 := s)
      end.
      destruct (IH (S start) st1) as [[Hall Hret] | [Hex Herr]]; [lia | |].
      * left. split; [constructor; assumption |].
        destruct Hret as (st' & Hrun & Hp & Hbf & Hsf). exists st'.
        split; [exact Hrun |]. subst st1.
        cbn [p_flares b_flares s_flares] in Hp, Hbf, Hsf.
        split; [| split]; eapply c2l_filled_step; eassumption.
      * right. split; [apply Exists_cons_tl, Hex | exact Herr].
    + right. split; [apply Exists_cons_hd, Hbad | reflexivity].
Qed.
End C2LLoop.

Section CompareToLiterature.
Local Open Scope Q_scope.

Lemma compare_2_lit_outcome (kid pid : list string) (pnum : list Q)
    (bid_raw sid_raw : list string) :
  length pid = length pnum ->
  (Forall (fun name => occurrences name pid <= 1)%nat kid
   /\ exists st,
        compare_2_lit_loop kid pid pnum bid_raw sid_raw = Ok st
        /\ c2l_filled kid pid pnum 0 (length kid)
                      (replicate (length kid) 0) (p_flares st)
        /\ c2l_filled kid (fst (np_unique_counts bid_raw))
                      (snd (np_unique_counts bid_raw)) 0 (length kid)
                      (replicate (length kid) 0) (b_flares st)
        /\ c2l_filled kid (fst (np_unique_counts sid_raw))
                      (snd (np_unique_counts sid_raw)) 0 (length kid)
                      (replicate (length kid) 0) (s_flares st))
  \/ (Exists (fun name => 1 < occurrences name pid)%nat kid
      /\ compare_2_lit_loop kid pid pnum bid_raw sid_raw = Raise ValueError).
Proof.
  intros Hp. unfold compare_2_lit_loop.
  destruct (np_unique_counts_spec bid_raw) as (Hbn & Hbl & _).
  destruct (np_unique_counts_spec sid_raw) as (Hsn & Hsl & _).
  destruct (np_unique_counts bid_raw) as [bid bnum].
  destruct (np_unique_counts sid_raw) as [sid snum].
  cbn [fst snd] in *.
  pose proof (c2l_loop_outcome kid pid pnum bid bnum sid snum Hp
                (conj Hbn Hbl) (conj Hsn Hsl) (length kid) 0
                (mk_c2l (replicate (length kid) 0) (replicate (length kid) 0)
                        (replicate (length kid) 0))) as Hloop.
  rewrite drop_0, firstn_all in Hloop. apply Hloop. lia.
Qed.

(** what the loop leaves at the index of a star, for a table made by
    [np.unique] *)
Lemma c2l_filled_count (kid raw : list string) (a' : list Q) (i : nat)
    (name : string) :
  c2l_filled kid (fst (np_unique_counts raw)) (snd (np_unique_counts raw))
             0 (length kid) (replicate (length kid) 0) a' ->
  kid !! i = Some name ->
  a' !! i = Some (float_of_nat (occurrences name raw)).
Proof.
  intros [_ Hval] Hname. rewrite (Hval i).
  pose proof (lookup_lt_Some _ _ _ Hname) as Hi.
  rewrite decide_True by lia. rewrite Hname.
  destruct (np_unique_counts_spec raw) as (Hnd & _ & Hkeys & Hcount).
  unfold c2l_stored.
  destruct (np_where_eq_NoDup _ name Hnd) as [[Hnot ->] | (k & Hk & ->)].
  - rewrite Hkeys in Hnot. apply occurrences_zero in Hnot. rewrite Hnot.
    apply lookup_replicate_2, Hi.
  - rewrite (Hcount k name Hk). apply list_lookup_insert_eq.
    rewrite length_replicate. exact Hi.
Qed.

Lemma c2l_filled_absent (kid ids : list string) (num a' : list Q) (i : nat)
    (name : string) :
  c2l_filled kid ids num 0 (length kid) (replicate (length kid) 0) a' ->
  kid !! i = Some name -> name ∉ ids -> a' !! i = Some 0.
Proof.
  intros [_ Hval] Hname Hnot. rewrite (Hval i).
  pose proof (lookup_lt_Some _ _ _ Hname) as Hi.
  rewrite decide_True by lia. rewrite Hname.
  unfold c2l_stored. rewrite (np_where_eq_nil _ _ Hnot).
  apply lookup_replicate_2, Hi.
Qed.

Lemma c2l_filled_row (kid ids : list string) (num a' : list Q) (i k : nat)
    (name : string) :
  length ids = length num ->
  c2l_filled kid ids num 0 (length kid) (replicate (length kid) 0) a' ->
  kid !! i = Some name -> (occurrences name ids <= 1)%nat ->
  ids !! k = Some name -> a' !! i = num !! k.
Proof.
  intros Hlen [_ Hval] Hname Hone Hk. rewrite (Hval i).
  pose proof (lookup_lt_Some _ _ _ Hname) as Hi.
  rewrite decide_True by lia. rewrite Hname.
  rewrite <- np_where_eq_occurrences in Hone.
  apply np_where_eq_elem in Hk as Hin.
  unfold c2l_stored.
  destruct (np_where_eq ids name) as [| k0 [| k1 x]]; cbn [length] in Hone.
  - inversion Hin.
  - apply list_elem_of_singleton in Hin as ->.
    destruct (lookup_lt_is_Some_2 num k0) as [q Hq].
    { rewrite <- Hlen. eapply lookup_lt_Some, Hk. }
    rewrite Hq. apply list_lookup_insert_eq.
    rewrite length_replicate. exact Hi.
  - lia.
Qed.
End CompareToLiterature.

(** X21: when no star of the list is named by two rows of the Pitkin table,
    the loop of [compare_2_lit] returns, and the arrays it hands to the
    scatter plot have one entry per star: [b_flares[i]] and [s_flares[i]]
    are the numbers of rows of the Balona and the Shibayama table that name
    star [i] (0 for a star they do not list), and [p_flares[i]] is the
    second column of the Pitkin row that names it, 0 without one. *)
Theorem compare_2_lit_counts (kid pid : list string) (pnum : list Q)
    (bid_raw sid_raw : list string)
    (Hok : c2l_tables_ok kid pid pnum)
    (Honce : forall name, name ∈ kid -> (occurrences name pid <= 1)%nat) :
  exists st,
    compare_2_lit_loop kid pid pnum bid_raw sid_raw = Ok st
    /\ length (p_flares st) = length kid
    /\ length (b_flares st) = length kid
    /\ length (s_flares st) = length kid
    /\ forall i name,
         kid !! i = Some name ->
         b_flares st !! i = Some (float_of_nat (occurrences name bid_raw))
         /\ s_flares st !! i = Some (float_of_nat (occurrences name sid_raw))
         /\ ((name ∉ pid) -> p_flares st !! i = Some 0%Q)
         /\ (forall k, pid !! k = Some name -> p_flares st !! i = pnum !! k).
Proof.
  destruct Hok as (_ & _ & Hlen).
  destruct (compare_2_lit_outcome kid pid pnum bid_raw sid_raw Hlen)
    as [[_ (st & Hrun & Hp & Hb & Hs)] | [Hex _]].
  - exists st. split; [exact Hrun |].
    pose proof Hp as [Lp _]. pose proof Hb as [Lb _]. pose proof Hs as [Ls _].
    rewrite length_replicate in Lp, Lb, Ls.
    split; [exact Lp |]. split; [exact Lb |]. split; [exact Ls |].
    intros i name Hname.
    split; [eapply c2l_filled_count; eassumption |].
    split; [eapply c2l_filled_count; eassumption |].
    split.
    + intros Hnot. eapply c2l_filled_absent; eassumption.
    + intros k Hk. eapply c2l_filled_row; try eassumption.
      apply Honce. apply list_elem_of_lookup. eauto.
  - exfalso. apply Exists_exists in Hex as (name & Hin & Htwo).
    specialize (Honce name Hin). lia.
Qed.

Lemma compare_2_lit_counts_witness :
  c2l_tables_ok ex_c2l_kid ex_c2l_pid ex_c2l_pnum
  /\ (forall name, name ∈ ex_c2l_kid -> (occurrences name ex_c2l_pid <= 1)%nat)
  /\ exists st,
       compare_2_lit_loop ex_c2l_kid ex_c2l_pid ex_c2l_pnum ex_c2l_bid_raw
                          ex_c2l_sid_raw = Ok st
       /\ b_flares st !! 2%nat
          = Some (float_of_nat (occurrences "300400" ex_c2l_bid_raw)).
Proof.
  assert (Hok : c2l_tables_ok ex_c2l_kid ex_c2l_pid ex_c2l_pnum)
    by (unfold c2l_tables_ok; cbn; lia).
  assert (Honce : forall name, name ∈ ex_c2l_kid ->
                               (occurrences name ex_c2l_pid <= 1)%nat).
  { intros name Hin. unfold ex_c2l_kid in Hin.
    repeat (apply elem_of_cons in Hin as [-> | Hin]);
      [vm_compute; lia .. | inversion Hin]. }
  split; [exact Hok |]. split; [exact Honce |].
  destruct (compare_2_lit_counts ex_c2l_kid ex_c2l_pid ex_c2l_pnum
              ex_c2l_bid_raw ex_c2l_sid_raw Hok Honce)
    as (st & Hrun & _ & _ & _ & Hval).
  exists st. split; [exact Hrun |].
  apply (Hval 2%nat "300400"). reflexivity.
Defined.

(** X22: the loop of [compare_2_lit] returns exactly when no star of the
    list is named by two rows of the Pitkin table, and raises [ValueError]
    exactly when one is; rows repeated in the Balona or the Shibayama table
    never make it fail, [np.unique] has merged them. *)
Theorem compare_2_lit_raises_iff (kid pid : list string) (pnum : list Q)
    (bid_raw sid_raw : list string)
    (Hok : c2l_tables_ok kid pid pnum) :
  ((exists st, compare_2_lit_loop kid pid pnum bid_raw sid_raw = Ok st)
   <-> forall name, name ∈ kid -> (occurrences name pid <= 1)%nat)
  /\ (compare_2_lit_loop kid pid pnum bid_raw sid_raw = Raise ValueError
      <-> exists name, name ∈ kid /\ (1 < occurrences name pid)%nat).
Proof.
  destruct Hok as (_ & _ & Hlen).
  destruct (compare_2_lit_outcome kid pid pnum bid_raw sid_raw Hlen)
    as [[Hall (st & Hrun & _)] | [Hex Herr]].
  - rewrite Forall_forall in Hall. split; split.
    + intros _. exact Hall.
    + intros _. eauto.
    + rewrite Hrun. discriminate.
    + intros (name & Hin & Htwo). specialize (Hall name Hin). lia.
  - apply Exists_exists in Hex as (name & Hin & Htwo). split; split.
    + intros [st Hrun]. rewrite Herr in Hrun. discriminate.
    + intros Hall. specialize (Hall name Hin). lia.
    + intros _. eauto.
    + intros _. exact Herr.
Qed.

Lemma compare_2_lit_raises_iff_witness :
  c2l_tables_ok ex_c2l_kid ("200300" :: ex_c2l_pid) (1 :: ex_c2l_pnum)%Q
  /\ compare_2_lit_loop ex_c2l_kid ("200300" :: ex_c2l_pid)
                        (1 :: ex_c2l_pnum)%Q ex_c2l_bid_raw ex_c2l_sid_raw
     = Raise ValueError.
Proof.
  assert (Hok : c2l_tables_ok ex_c2l_kid ("200300" :: ex_c2l_pid)
                              (1 :: ex_c2l_pnum)%Q)
    by (unfold c2l_tables_ok; cbn; lia).
  split; [exact Hok |].
  destruct (compare_2_lit_raises_iff ex_c2l_kid ("200300" :: ex_c2l_pid)
              (1 :: ex_c2l_pnum)%Q ex_c2l_bid_raw ex_c2l_sid_raw Hok)
    as [_ [_ Hraise]].
  apply Hraise. exists "200300". split.
  - apply list_elem_of_further, list_elem_of_here.
  - vm_compute. lia.
Defined.
